(** * SimChallenge: the coin-flip investment game and its Monte Carlo runner

    A shallow embedding of the simulation engine of the repository:

    - [simulate_investment_game] (full stake; [single_simulation.py],
      [single_sim_plot.py], [multiple_simulations.py]),
    - [simulate_modified_investment_game] (50% stake;
      [modified_strategy_simulations.py]),
    - [run_multiple_simulations] / [run_modified_simulations],
    - the module-level statistics computed from [final_balances].

    Python floats are IEEE 754 binary64 numbers; they are modelled by Rocq's
    primitive floats, which are the same format with the same rounding
    (round to nearest, ties to even).  The engine itself is written once over
    an arithmetic interface, so that it can also be read in exact rational
    arithmetic, where the algebraic laws hold that rounding breaks. *)

From Stdlib Require Import ZArith List Bool Lia QArith Qpower Qfield Floats.
From Stdlib Require Import Permutation.
From Stdlib Require Uint63.
Import ListNotations.

Set Warnings "-inexact-float".
Close Scope Q_scope.

(** ** Python helpers *)

(** [range(n)]: the integers [0 .. n-1], empty when [n <= 0]. *)
Definition range (n : Z) : list Z := map Z.of_nat (seq 0 (Z.to_nat n)).

(** [xs[-1]]: the last element; [None] stands for Python's [IndexError]. *)
Fixpoint py_last {A : Type} (xs : list A) : option A :=
  match xs with
  | [] => None
  | [x] => Some x
  | _ :: tl => py_last tl
  end.

(** [sum(xs)] over a list of integers. *)
Definition py_sum (xs : list Z) : Z := fold_left Z.add xs 0%Z.

(** [len(xs)]. *)
Definition len {A : Type} (xs : list A) : Z := Z.of_nat (length xs).

(** ** The random source

    The scripts draw every coin flip from one process-wide generator, seeded
    once at import time.  The generator is modelled by the sequence of bits it
    is going to deliver and a cursor into it; a draw returns the bit under the
    cursor and advances the cursor. *)

Record rng : Type := mkRng { stream : nat -> bool; cursor : nat }.

(** [np.random.binomial(1, 0.5)] (and [random.randint(0, 1)]): an integer that
    is 1 for heads and 0 for tails. *)
Definition binomial (g : rng) : Z * rng :=
  (Z.b2z (stream g (cursor g)), mkRng (stream g) (S (cursor g))).

(** The generator that delivers the given flips and tails afterwards. *)
Definition rng_of_list (flips : list bool) : rng :=
  mkRng (fun i => nth i flips false) 0.

(** ** Arithmetic interface

    The operations and literals the engine uses on balances. *)

Class PyNum (num : Type) : Type := {
  mul : num -> num -> num;
  add : num -> num -> num;
  lit_1_5 : num;
  lit_0_6 : num;
  lit_0_5 : num
}.

(** What CPython executes: binary64 with the literals rounded to nearest. *)
#[export] Instance binary64 : PyNum float := {
  mul := PrimFloat.mul;
  add := PrimFloat.add;
  lit_1_5 := 1.5%float;
  lit_0_6 := 0.6%float;
  lit_0_5 := 0.5%float
}.

(** The same program read over the rationals, without rounding. *)
#[export] Instance exact : PyNum Q := {
  mul := Qmult;
  add := Qplus;
  lit_1_5 := (3 # 2)%Q;
  lit_0_6 := (3 # 5)%Q;
  lit_0_5 := (1 # 2)%Q
}.

(** ** The engine *)

Definition age_start : Z := 25.

Section Engine.

Context {num : Type} `{PyNum num}.

(** The local variables of a simulation loop. *)
Record locals : Type := mkLocals {
  balance : num;
  path : list num;
  ages : list Z;
  coin_flips : list Z;
  bet_amounts : list num;
  gen : rng
}.

Definition locals_init (initial : num) (g : rng) : locals :=
  mkLocals initial [initial] [age_start] [] [] g.

(** One iteration of the loop of [simulate_investment_game]. *)
Definition full_stake_year (st : locals) (year : Z) : locals :=
  let (coin_flip, g) := binomial (gen st) in
  let balance :=
    if (coin_flip =? 1)%Z then mul (balance st) lit_1_5
    else mul (balance st) lit_0_6 in
  mkLocals balance
           (path st ++ [balance])
           (ages st ++ [(age_start + year + 1)%Z])
           (coin_flips st ++ [coin_flip])
           (bet_amounts st)
           g.

Definition simulate_investment_game (initial : num) (years : Z) (g : rng)
  : (list Z * list num * list Z) * rng :=
  let st := fold_left full_stake_year (range years) (locals_init initial g) in
  ((ages st, path st, coin_flips st), gen st).

(** One iteration of the loop of [simulate_modified_investment_game]. *)
Definition half_stake_year (st : locals) (year : Z) : locals :=
  let bet_amount := mul (balance st) lit_0_5 in
  let unbet_amount := mul (balance st) lit_0_5 in
  let (coin_flip, g) := binomial (gen st) in
  let bet_outcome :=
    if (coin_flip =? 1)%Z then mul bet_amount lit_1_5
    else mul bet_amount lit_0_6 in
  let balance := add unbet_amount bet_outcome in
  mkLocals balance
           (path st ++ [balance])
           (ages st ++ [(age_start + year + 1)%Z])
           (coin_flips st ++ [coin_flip])
           (bet_amounts st ++ [bet_amount])
           g.

Definition simulate_modified_investment_game
    (initial : num) (years : Z) (g : rng)
  : (list Z * list num * list Z * list num) * rng :=
  let st := fold_left half_stake_year (range years) (locals_init initial g) in
  ((ages st, path st, coin_flips st, bet_amounts st), gen st).

(** The dictionary appended to [all_paths] for one simulation. *)
Record trial : Type := mkTrial {
  simulation : Z;
  trial_ages : list Z;
  balances : list num;
  final_balance : num;
  heads_count : Z;
  tails_count : Z
}.

(** The accumulators of a runner: [final_balances], [all_paths] and the
    generator. *)
Definition batch : Type := (list num * list trial * rng)%type.

(** The body of the runner's loop, given the outcome of the simulation it
    has just run.  [path[-1]] is the only operation that can raise. *)
Definition record_trial (acc : list num * list trial) (sim : Z)
    (ages : list Z) (path : list num) (flips : list Z)
  : option (list num * list trial) :=
  let (final_balances, all_paths) := acc in
  match py_last path with
  | None => None
  | Some last =>
      Some (final_balances ++ [last],
            all_paths ++ [mkTrial (sim + 1) ages path last
                                  (py_sum flips)
                                  (len flips - py_sum flips)])
  end.

Definition multiple_step (initial : num) (years : Z)
    (acc : option batch) (sim : Z) : option batch :=
  match acc with
  | None => None
  | Some (final_balances, all_paths, g) =>
      let '((ages, path, flips), g') :=
        simulate_investment_game initial years g in
      match record_trial (final_balances, all_paths) sim ages path flips with
      | None => None
      | Some (fb, ap) => Some (fb, ap, g')
      end
  end.

Definition run_multiple_simulations
    (n_sims : Z) (initial : num) (years : Z) (g : rng) : option batch :=
  fold_left (multiple_step initial years) (range n_sims) (Some ([], [], g)).

Definition modified_step (initial : num) (years : Z)
    (acc : option batch) (sim : Z) : option batch :=
  match acc with
  | None => None
  | Some (final_balances, all_paths, g) =>
      let '((ages, path, flips, bets), g') :=
        simulate_modified_investment_game initial years g in
      match record_trial (final_balances, all_paths) sim ages path flips with
      | None => None
      | Some (fb, ap) => Some (fb, ap, g')
      end
  end.

Definition run_modified_simulations
    (n_sims : Z) (initial : num) (years : Z) (g : rng) : option batch :=
  fold_left (modified_step initial years) (range n_sims) (Some ([], [], g)).

End Engine.

Arguments locals : clear implicits.
Arguments trial : clear implicits.
Arguments batch : clear implicits.

(** ** The engine as a function of the coin flips

    The period step of each variant, the trajectory it generates from a list
    of outcomes, and the generator after a number of draws.  The loops above
    are shown below to compute exactly these. *)

Definition advance (g : rng) (k : nat) : rng :=
  mkRng (stream g) (cursor g + k).

(** The next [n] flips of the generator, heads as [true]. *)
Definition draws (g : rng) (n : nat) : list bool :=
  map (fun i => stream g (cursor g + i)) (seq 0 n).

Section PeriodStep.

Context {num : Type} `{PyNum num}.

Definition full_stake_update (b : num) (heads : bool) : num :=
  if heads then mul b lit_1_5 else mul b lit_0_6.

Definition half_stake_update (b : num) (heads : bool) : num :=
  add (mul b lit_0_5)
      (if heads then mul (mul b lit_0_5) lit_1_5
       else mul (mul b lit_0_5) lit_0_6).

Fixpoint trajectory (upd : num -> bool -> num) (b : num) (flips : list bool)
  : list num :=
  b :: match flips with
       | [] => []
       | f :: rest => trajectory upd (upd b f) rest
       end.

Definition final (upd : num -> bool -> num) (b : num) (flips : list bool)
  : num :=
  fold_left upd flips b.

End PeriodStep.

(** The [ages] list after [n] periods. *)
Definition ages_upto (n : nat) : list Z :=
  map (fun i => (age_start + Z.of_nat i)%Z) (seq 0 (S n)).

(** The record a runner builds for simulation [sim] (0-based) when the
    generator is [g] at the start of that simulation. *)
Definition trial_at {num : Type} `{PyNum num} (upd : num -> bool -> num)
    (initial : num) (years : Z) (g : rng) (sim : Z) : trial num :=
  let flips := draws g (Z.to_nat years) in
  mkTrial (sim + 1)
          (ages_upto (Z.to_nat years))
          (trajectory upd initial flips)
          (final upd initial flips)
          (py_sum (map Z.b2z flips))
          (len (map Z.b2z flips) - py_sum (map Z.b2z flips)).

(** The generator at the start of simulation [j] (0-based) of a run that
    started with [g]. *)
Definition rng_at (g : rng) (years : Z) (j : nat) : rng :=
  advance g (j * Z.to_nat years).

(** Number of wins and of losses in a list of outcomes. *)
Definition wins (flips : list bool) : nat := count_occ bool_dec flips true.
Definition losses (flips : list bool) : nat := count_occ bool_dec flips false.

(** ** NumPy on lists

    The runner scripts hand [final_balances] to NumPy.  The functions below
    follow NumPy's definitions on one-dimensional input. *)

(** Conversion of a 64-bit count or length to float64. *)
Definition float_of_Z (z : Z) : float :=
  if (z <? 0)%Z then (- of_uint63 (Uint63Axioms.of_Z (- z)))%float
  else of_uint63 (Uint63Axioms.of_Z z).

(** [np.array(a) > t] and [np.array(a) < t]: element-wise masks. *)
Definition np_gt (a : list float) (t : float) : list bool :=
  map (fun x => (t <? x)%float) a.

Definition np_lt (a : list float) (t : float) : list bool :=
  map (fun x => (x <? t)%float) a.

(** [np.sum(mask)]: the number of [True] entries (an integer sum). *)
Definition np_sum_mask (mask : list bool) : Z :=
  Z.of_nat (count_occ bool_dec mask true).

(** [mask.astype(float64)]. *)
Definition np_astype_float (mask : list bool) : list float :=
  map (fun b : bool => if b then 1%float else 0%float) mask.

(** *** Sums of float64 arrays

    NumPy adds a contiguous float64 array with its pairwise summation
    routine: fewer than eight elements are added one after the other; a
    block of up to 128 elements is added into eight running sums, which are
    then combined, before the remaining elements are added one after the
    other; a longer array is split in two parts, the first of a length that
    is a multiple of eight, and the sums of the parts are added. *)

(** The block case: [r0 .. r7] are the running sums, [a] the elements not
    yet added. *)
Fixpoint sum_unrolled (r0 r1 r2 r3 r4 r5 r6 r7 : float) (a : list float)
  : float :=
  match a with
  | a0 :: a1 :: a2 :: a3 :: a4 :: a5 :: a6 :: a7 :: rest =>
      sum_unrolled (r0 + a0) (r1 + a1) (r2 + a2) (r3 + a3)
                   (r4 + a4) (r5 + a5) (r6 + a6) (r7 + a7) rest
  | _ =>
      fold_left PrimFloat.add a
        (((r0 + r1) + (r2 + r3)) + ((r4 + r5) + (r6 + r7)))%float
  end.

Definition PW_BLOCKSIZE : Z := 128.

(** [depth] bounds the depth of the recursion; the length of the array is
    always enough (see [pairwise_sum_depth]). *)
Fixpoint pairwise_sum (depth : nat) (a : list float) : float :=
  match a with
  | a0 :: a1 :: a2 :: a3 :: a4 :: a5 :: a6 :: a7 :: rest =>
      match depth with
      | S depth' =>
          if (len a <=? PW_BLOCKSIZE)%Z then
            sum_unrolled a0 a1 a2 a3 a4 a5 a6 a7 rest
          else
            let n2 := (len a / 2 - (len a / 2) mod 8)%Z in
            (pairwise_sum depth' (firstn (Z.to_nat n2) a) +
             pairwise_sum depth' (skipn (Z.to_nat n2) a))%float
      | O => sum_unrolled a0 a1 a2 a3 a4 a5 a6 a7 rest
      end
  | _ => fold_left PrimFloat.add a 0%float
  end.

(** [np.sum(a)] ([np.add.reduce]): the pairwise sum added to the identity
    [0.0]. *)
Definition np_sum (a : list float) : float :=
  (0 + pairwise_sum (length a) a)%float.

(** [np.mean(a)]: sum over count; [0/0] on the empty list. *)
Definition np_mean (a : list float) : float :=
  (np_sum a / float_of_Z (len a))%float.

(** [np.mean(mask)]: the entries are converted to float64 and their mean is
    taken as above.  (The conversion goes through NumPy's buffer, so a long
    mask is summed buffer by buffer; [sums_to_count] shows that on entries
    0.0 and 1.0 every order and grouping of the additions gives the same
    sum.) *)
Definition np_mean_mask (mask : list bool) : float :=
  np_mean (np_astype_float mask).

(** [sums_to l x]: [x] can be obtained by adding up the elements of [l] in
    binary64, starting from zeros, in some order and with some grouping of
    the additions. *)
Inductive sums_to : list float -> float -> Prop :=
| sums_nil : sums_to [] 0%float
| sums_one (x : float) : sums_to [x] x
| sums_add (l1 l2 : list float) (x1 x2 : float) :
    sums_to l1 x1 -> sums_to l2 x2 -> sums_to (l1 ++ l2) (x1 + x2)%float
| sums_perm (l1 l2 : list float) (x : float) :
    Permutation l1 l2 -> sums_to l1 x -> sums_to l2 x.

(** [np.std(a)] (population): the root of the mean squared deviation. *)
Definition np_std (a : list float) : float :=
  let arrmean := np_mean a in
  let x := map (fun v => (v - arrmean)%float) a in
  PrimFloat.sqrt (np_mean (map (fun v => (v * v)%float) x)).

(** NumPy's sort order: ascending, NaN last. *)
Definition np_le (x y : float) : bool :=
  (x <=? y)%float || PrimFloat.is_nan y.

Fixpoint np_insert (x : float) (sorted : list float) : list float :=
  match sorted with
  | [] => [x]
  | y :: rest => if np_le x y then x :: sorted else y :: np_insert x rest
  end.

Definition np_sort (a : list float) : list float :=
  fold_right np_insert [] a.

(** [xs[lo:hi]] with Python's treatment of negative and oversized bounds. *)
Definition py_slice {A : Type} (xs : list A) (lo hi : Z) : list A :=
  let n := len xs in
  let clip i := if (i <? 0)%Z then Z.max (i + n) 0 else Z.min i n in
  let lo := clip lo in
  let hi := clip hi in
  firstn (Z.to_nat (hi - lo)) (skipn (Z.to_nat lo) xs).

(** [np.median(a)]: the mean of the middle element, or of the two middle
    elements, of the sorted input; NaN as soon as the input holds a NaN. *)
Definition np_median (a : list float) : float :=
  let part := np_sort a in
  let sz := len part in
  let index := (sz / 2)%Z in
  let middle :=
    if (sz mod 2 =? 1)%Z then py_slice part index (index + 1)
    else py_slice part (index - 1) (index + 1) in
  let rout := np_mean middle in
  match py_last part with
  | Some top => if PrimFloat.is_nan top then top else rout
  | None => rout
  end.

(** ** Statistics of a batch

    The module-level statements of [multiple_simulations.py] and
    [modified_strategy_simulations.py] that follow the call of the runner.
    [initial_balance] and [n_simulations] are the globals of the scripts. *)

Record statistics : Type := mkStatistics {
  mean_balance : float;
  median_balance : float;
  std_balance : float;
  prob_above_initial : float;
  prob_above_10000 : float
}.

Definition calculate_statistics
    (initial_balance : float) (final_balances : list float) : statistics :=
  mkStatistics (np_mean final_balances)
               (np_median final_balances)
               (np_std final_balances)
               (np_mean_mask (np_gt final_balances initial_balance))
               (np_mean_mask (np_gt final_balances 10000%float)).

(** The outcome categories; [high_value_sims] is counted by
    [modified_strategy_simulations.py] only. *)
Record categories : Type := mkCategories {
  profitable_sims : Z;
  high_value_sims : Z;
  catastrophic_sims : Z;
  moderate_sims : Z
}.

Definition count_categories
    (n_simulations : Z) (initial_balance : float) (final_balances : list float)
  : categories :=
  let profitable_sims := np_sum_mask (np_gt final_balances initial_balance) in
  let high_value_sims := np_sum_mask (np_gt final_balances 10000%float) in
  let catastrophic_sims := np_sum_mask (np_lt final_balances 100%float) in
  let moderate_sims := (n_simulations - profitable_sims - catastrophic_sims)%Z in
  mkCategories profitable_sims high_value_sims catastrophic_sims moderate_sims.

(** ** Signs and order of binary64 values *)

(** Sign bit clear and not NaN: [+0], positive finite, or [+inf]. *)
Definition SFnonneg (x : spec_float) : bool :=
  match x with
  | S754_zero false | S754_infinity false | S754_finite false _ _ => true
  | _ => false
  end.

(** Strictly positive: positive finite or [+inf]. *)
Definition SFpos (x : spec_float) : bool :=
  match x with
  | S754_infinity false | S754_finite false _ _ => true
  | _ => false
  end.

Definition SFpos_finite (x : spec_float) : bool :=
  match x with
  | S754_finite false _ _ => true
  | _ => false
  end.

(** At least twice the smallest positive binary64 number, or [+inf]. *)
Definition SFabove_min (x : spec_float) : bool :=
  match x with
  | S754_infinity false => true
  | S754_finite false m e => (emin + 2 <=? Zpos (digits2_pos m) + e)%Z
  | _ => false
  end.

(** ** Outcome categories of a single final balance

    The tests behind the counts of [count_categories]; a balance is moderate
    when it is neither profitable nor catastrophic. *)

Definition is_profitable (initial_balance x : float) : bool :=
  (initial_balance <? x)%float.

Definition is_high_value (x : float) : bool := (10000 <? x)%float.

Definition is_catastrophic (x : float) : bool := (x <? 100)%float.

Definition is_moderate (initial_balance x : float) : bool :=
  negb (is_profitable initial_balance x) && negb (is_catastrophic x).

(** Number of elements that pass a test. *)
Definition count {A : Type} (p : A -> bool) (xs : list A) : Z :=
  Z.of_nat (length (filter p xs)).

(** ** Python built-ins used by the reports *)

(** [xs[i]], negative indices counting from the end; [None] stands for
    [IndexError]. *)
Definition py_index {A : Type} (xs : list A) (i : Z) : option A :=
  let n := len xs in
  let j := if (i <? 0)%Z then (i + n)%Z else i in
  if ((j <? 0) || (n <=? j))%Z then None else nth_error xs (Z.to_nat j).

(** [enumerate(xs)]. *)
Definition enumerate {A : Type} (xs : list A) : list (Z * A) :=
  combine (range (len xs)) xs.

(** [min(a, b)]: the second argument replaces the first only when it is
    smaller. *)
Definition py_min2 (a b : float) : float :=
  if (b <? a)%float then b else a.

(** [min(xs)] and [max(xs)]: the first element, replaced by each later
    element that compares smaller (larger); [None] stands for the
    [ValueError] on an empty list. *)
Definition py_min (xs : list float) : option float :=
  match xs with
  | [] => None
  | x :: rest =>
      Some (fold_left (fun cur item => if (item <? cur)%float then item else cur)
                      rest x)
  end.

Definition py_max (xs : list float) : option float :=
  match xs with
  | [] => None
  | x :: rest =>
      Some (fold_left (fun cur item => if (cur <? item)%float then item else cur)
                      rest x)
  end.

(** [a / b] on floats; [None] stands for [ZeroDivisionError]. *)
Definition py_truediv (a b : float) : option float :=
  if (b =? 0)%float then None else Some (a / b)%float.

(** [a / b] on integers (exact quotient rounded once; for operands below
    2^53 this is the quotient of their float64 images). *)
Definition py_truediv_int (a b : Z) : option float :=
  if (b =? 0)%Z then None else Some (float_of_Z a / float_of_Z b)%float.

(** Sequencing of statements that can raise. *)
Definition bind {A B : Type} (m : option A) (k : A -> option B) : option B :=
  match m with
  | None => None
  | Some a => k a
  end.

(** All the results of a list of statements, or [None] if one raises. *)
Fixpoint sequence {A : Type} (ms : list (option A)) : option (list A) :=
  match ms with
  | [] => Some []
  | m :: rest =>
      bind m (fun a => bind (sequence rest) (fun r => Some (a :: r)))
  end.

(** ** The report of a single simulation

    The module-level statements of [single_simulation.py] and
    [single_sim_plot.py] after the call of [simulate_investment_game]: the
    figures they print, in the order they are computed. *)

Inductive outcome : Type := Initial | Heads | Tails.

(** One line of "Year-by-Year Results": the body of the loop over
    [enumerate(zip(ages, balances))]. *)
Definition year_line (flips : list Z) (i : Z) (age : Z) (balance : float)
  : option (Z * float * outcome) :=
  if (i =? 0)%Z then Some (age, balance, Initial)
  else
    bind (py_index flips (i - 1))
         (fun flip => Some (age, balance,
                            if (flip =? 1)%Z then Heads else Tails)).

Definition year_by_year (ages : list Z) (balances : list float)
    (flips : list Z) : option (list (Z * float * outcome)) :=
  sequence (map (fun '(i, (age, balance)) => year_line flips i age balance)
                (enumerate (combine ages balances))).

Record single_report : Type := mkSingleReport {
  report_final_balance : float;
  total_return : float;
  percentage_return : float;
  number_of_heads : Z;
  number_of_tails : Z;
  head_percentage : float;
  yearly_lines : list (Z * float * outcome);
  profitable : bool;
  actual_average_per_year : float
}.

Definition single_simulation_report (initial_balance : float) (years : Z)
    (ages : list Z) (balances : list float) (flips : list Z)
  : option single_report :=
  bind (py_last balances) (fun final_balance =>
  let total_return := (final_balance - initial_balance)%float in
  bind (py_truediv final_balance initial_balance) (fun ratio =>
  let percentage_return := ((ratio - 1) * 100)%float in
  let number_of_heads := py_sum flips in
  let number_of_tails := (len flips - py_sum flips)%Z in
  bind (py_truediv_int (py_sum flips) (len flips)) (fun fraction =>
  let head_percentage := (fraction * 100)%float in
  bind (year_by_year ages balances flips) (fun yearly_lines =>
  let profitable := (initial_balance <? final_balance)%float in
  bind (py_truediv (final_balance - initial_balance)%float (float_of_Z years))
       (fun actual_average_per_year =>
  Some (mkSingleReport final_balance total_return percentage_return
                       number_of_heads number_of_tails head_percentage
                       yearly_lines profitable actual_average_per_year)))))).

(** ** Presentation values of a batch *)

(** [grouped_balances]: final balances capped at 10000 for the histogram. *)
Definition grouped_balances (final_balances : list float) : list float :=
  map (fun balance => py_min2 balance 10000%float) final_balances.

(** ** Tests on binary64 values *)

Definition SFnot_nan (x : spec_float) : bool :=
  match x with
  | S754_nan => false
  | _ => true
  end.

(** The bets of the half-stake engine along a list of outcomes: half of the
    balance before each period. *)
Fixpoint bets_of {num : Type} `{PyNum num} (b : num) (flips : list bool)
  : list num :=
  match flips with
  | [] => []
  | f :: rest => mul b lit_0_5 :: bets_of (half_stake_update b f) rest
  end.

(** The two lists a runner returns after [n] trials, as functions of the
    draws of the generator. *)
Definition batch_finals {num : Type} `{PyNum num} (upd : num -> bool -> num)
    (initial : num) (years : Z) (g : rng) (n : nat) : list num :=
  map (fun j => final upd initial (draws (rng_at g years j) (Z.to_nat years)))
      (seq 0 n).

Definition batch_records {num : Type} `{PyNum num} (upd : num -> bool -> num)
    (initial : num) (years : Z) (g : rng) (n : nat) : list (trial num) :=
  map (fun j => trial_at upd initial years (rng_at g years j) (Z.of_nat j))
      (seq 0 n).

(** Zero or finite: neither an infinity nor NaN. *)
Definition SFfinite (x : spec_float) : bool :=
  match x with
  | S754_zero _ | S754_finite _ _ _ => true
  | _ => false
  end.

(** ** The engine on Python numbers

    The scripts set [initial_balance = 1000], an [int], and pass it to the
    runner as it is; the balance becomes a [float] with the first
    multiplication by a float literal.  The definitions below follow the same
    functions with their arguments as Python numbers, and with the two
    exceptions that their statements can raise. *)

Inductive py_number : Type :=
| PyInt (z : Z)
| PyFloat (x : float).

(** The conversion of an [int] operand in arithmetic with a [float]: the
    nearest binary64 number; [None] stands for the [OverflowError] of an int
    that is too large to convert. *)
Definition py_float_of_int (z : Z) : option float :=
  match binary_normalize prec emax z 0 false with
  | S754_infinity _ => None
  | x => Some (SF2Prim x)
  end.

Definition py_as_float (v : py_number) : option float :=
  match v with
  | PyInt z => py_float_of_int z
  | PyFloat x => Some x
  end.

(** [v * c] for a float [c]. *)
Definition py_mul_float (v : py_number) (c : float) : option float :=
  bind (py_as_float v) (fun x => Some (x * c)%float).

(** [range(n)]; [None] stands for the [TypeError] of a float argument. *)
Definition py_range (n : py_number) : option (list Z) :=
  match n with
  | PyInt z => Some (range z)
  | PyFloat _ => None
  end.

(** One iteration of the loop of [simulate_investment_game]. *)
Definition full_stake_year_py (st : option (locals py_number)) (year : Z)
  : option (locals py_number) :=
  bind st (fun st =>
  let (coin_flip, g) := binomial (gen st) in
  bind (if (coin_flip =? 1)%Z then py_mul_float (balance st) 1.5
        else py_mul_float (balance st) 0.6) (fun product =>
  let balance := PyFloat product in
  Some (mkLocals balance
                 (path st ++ [balance])
                 (ages st ++ [(age_start + year + 1)%Z])
                 (coin_flips st ++ [coin_flip])
                 (bet_amounts st)
                 g))).

Definition simulate_investment_game_py
    (initial years : py_number) (g : rng)
  : option ((list Z * list py_number * list Z) * rng) :=
  bind (py_range years) (fun period =>
  bind (fold_left full_stake_year_py period (Some (locals_init initial g)))
       (fun st => Some ((ages st, path st, coin_flips st), gen st))).

(** One iteration of the loop of [simulate_modified_investment_game]. *)
Definition half_stake_year_py (st : option (locals py_number)) (year : Z)
  : option (locals py_number) :=
  bind st (fun st =>
  bind (py_mul_float (balance st) 0.5) (fun bet_amount =>
  bind (py_mul_float (balance st) 0.5) (fun unbet_amount =>
  let (coin_flip, g) := binomial (gen st) in
  let bet_outcome :=
    if (coin_flip =? 1)%Z then (bet_amount * 1.5)%float
    else (bet_amount * 0.6)%float in
  let balance := PyFloat (unbet_amount + bet_outcome) in
  Some (mkLocals balance
                 (path st ++ [balance])
                 (ages st ++ [(age_start + year + 1)%Z])
                 (coin_flips st ++ [coin_flip])
                 (bet_amounts st ++ [PyFloat bet_amount])
                 g)))).

Definition simulate_modified_investment_game_py
    (initial years : py_number) (g : rng)
  : option ((list Z * list py_number * list Z * list py_number) * rng) :=
  bind (py_range years) (fun period =>
  bind (fold_left half_stake_year_py period (Some (locals_init initial g)))
       (fun st =>
          Some ((ages st, path st, coin_flips st, bet_amounts st), gen st))).

Definition multiple_step_py (initial years : py_number)
    (acc : option (batch py_number)) (sim : Z) : option (batch py_number) :=
  bind acc (fun '(final_balances, all_paths, g) =>
  bind (simulate_investment_game_py initial years g)
       (fun '((ages, path, flips), g') =>
  bind (record_trial (final_balances, all_paths) sim ages path flips)
       (fun '(fb, ap) => Some (fb, ap, g')))).

Definition run_multiple_simulations_py
    (n_sims initial years : py_number) (g : rng)
  : option (batch py_number) :=
  bind (py_range n_sims) (fun sims =>
  fold_left (multiple_step_py initial years) sims (Some ([], [], g))).

Definition modified_step_py (initial years : py_number)
    (acc : option (batch py_number)) (sim : Z) : option (batch py_number) :=
  bind acc (fun '(final_balances, all_paths, g) =>
  bind (simulate_modified_investment_game_py initial years g)
       (fun '((ages, path, flips, bets), g') =>
  bind (record_trial (final_balances, all_paths) sim ages path flips)
       (fun '(fb, ap) => Some (fb, ap, g')))).

Definition run_modified_simulations_py
    (n_sims initial years : py_number) (g : rng)
  : option (batch py_number) :=
  bind (py_range n_sims) (fun sims =>
  fold_left (modified_step_py initial years) sims (Some ([], [], g))).

(** The record of a trial whose period steps ran on the float image of
    [initial]: the balances of the float trajectory after [initial] itself,
    which stays in first place as it was passed. *)
Definition py_trial (initial : py_number) (t : trial float)
  : trial py_number :=
  mkTrial (simulation t) (trial_ages t)
          (initial :: map PyFloat (tl (balances t)))
          (PyFloat (final_balance t))
          (heads_count t) (tails_count t).

(** The record of a trial without a period step. *)
Definition idle_trial (initial : py_number) (sim : Z) : trial py_number :=
  mkTrial (sim + 1) [age_start] [initial] initial 0 0.
(** ** Lists, ranges and the generator *)

Lemma py_last_snoc {A : Type} (xs : list A) (x : A) :
  py_last (xs ++ [x]) = Some x.
Proof.
  induction xs as [|y ys IH]; [reflexivity|].
  simpl. rewrite IH. destruct (ys ++ [x]) eqn:E; [|reflexivity].
  destruct ys; discriminate.
Qed.

Lemma range_succ (n : nat) :
  range (Z.of_nat (S n)) = range (Z.of_nat n) ++ [Z.of_nat n].
Proof.
  unfold range. rewrite !Nat2Z.id, seq_S, map_app. reflexivity.
Qed.

Lemma range_nat (n : Z) : range n = range (Z.of_nat (Z.to_nat n)).
Proof. unfold range. now rewrite Nat2Z.id. Qed.

Lemma draws_succ (g : rng) (n : nat) :
  draws g (S n) = draws g n ++ [stream g (cursor g + n)].
Proof. unfold draws. rewrite seq_S, map_app. reflexivity. Qed.

Lemma draws_length (g : rng) (n : nat) : length (draws g n) = n.
Proof. unfold draws. now rewrite length_map, length_seq. Qed.

Lemma advance_0 (g : rng) : advance g 0 = g.
Proof. destruct g. unfold advance. simpl. now rewrite Nat.add_0_r. Qed.

Lemma advance_advance (g : rng) (a b : nat) :
  advance (advance g a) b = advance g (a + b).
Proof. unfold advance. simpl. now rewrite Nat.add_assoc. Qed.

Lemma b2z_eqb_1 (b : bool) : (Z.b2z b =? 1)%Z = b.
Proof. now destruct b. Qed.

Lemma py_sum_snoc (xs : list Z) (x : Z) : py_sum (xs ++ [x]) = (py_sum xs + x)%Z.
Proof. unfold py_sum. now rewrite fold_left_app. Qed.

Lemma py_sum_b2z (flips : list bool) :
  py_sum (map Z.b2z flips) = Z.of_nat (wins flips).
Proof.
  induction flips as [|f fs IH] using rev_ind; [reflexivity|].
  rewrite map_app. simpl map. rewrite py_sum_snoc, IH. unfold wins.
  rewrite count_occ_app. simpl. destruct f; simpl; lia.
Qed.

Lemma wins_losses (flips : list bool) :
  wins flips + losses flips = length flips.
Proof.
  unfold wins, losses. induction flips as [|[] fs IH]; simpl; lia.
Qed.

Lemma wins_cons (f : bool) (fs : list bool) :
  wins (f :: fs) = Nat.b2n f + wins fs.
Proof. unfold wins. simpl. now destruct f, (bool_dec _ _). Qed.

Lemma losses_cons (f : bool) (fs : list bool) :
  losses (f :: fs) = Nat.b2n (negb f) + losses fs.
Proof. unfold losses. simpl. now destruct f, (bool_dec _ _). Qed.

Lemma count_occ_b2z (flips : list bool) (b : bool) :
  count_occ Z.eq_dec (map Z.b2z flips) (Z.b2z b) = count_occ bool_dec flips b.
Proof.
  induction flips as [|f fs IH]; [reflexivity|].
  simpl. rewrite IH. destruct f, b; reflexivity.
Qed.

(** ** The loops compute the trajectory of the drawn flips *)

Section EngineFacts.

Context {num : Type} `{PyNum num}.

Lemma final_snoc (upd : num -> bool -> num) (fs : list bool) (b : num)
    (f : bool) :
  final upd b (fs ++ [f]) = upd (final upd b fs) f.
Proof. unfold final. now rewrite fold_left_app. Qed.

Lemma trajectory_snoc (upd : num -> bool -> num) (fs : list bool) :
  forall (b : num) (f : bool),
    trajectory upd b (fs ++ [f]) =
    trajectory upd b fs ++ [upd (final upd b fs) f].
Proof.
  induction fs as [|f0 fs IH]; intros b f; [reflexivity|].
  simpl. now rewrite IH.
Qed.

Lemma trajectory_length (upd : num -> bool -> num) (fs : list bool) :
  forall b : num, length (trajectory upd b fs) = S (length fs).
Proof. induction fs as [|f fs IH]; intros b; simpl; [|rewrite IH]; reflexivity. Qed.

Lemma trajectory_last (upd : num -> bool -> num) (fs : list bool) (b : num) :
  py_last (trajectory upd b fs) = Some (final upd b fs).
Proof.
  destruct fs as [|f fs] using rev_ind; [reflexivity|].
  now rewrite trajectory_snoc, py_last_snoc, final_snoc.
Qed.

Lemma ages_upto_succ (n : nat) :
  ages_upto (S n) = ages_upto n ++ [(age_start + Z.of_nat n + 1)%Z].
Proof.
  unfold ages_upto. rewrite (seq_S (S n)), map_app. cbn [map].
  do 2 f_equal. lia.
Qed.

Lemma full_stake_loop (initial : num) (g : rng) (n : nat) :
  let st := fold_left full_stake_year (range (Z.of_nat n))
                      (locals_init initial g) in
  balance st = final full_stake_update initial (draws g n) /\
  path st = trajectory full_stake_update initial (draws g n) /\
  ages st = ages_upto n /\
  coin_flips st = map Z.b2z (draws g n) /\
  gen st = advance g n.
Proof.
  induction n as [|n IH].
  - simpl. rewrite advance_0. repeat split.
  - rewrite range_succ, fold_left_app. cbv zeta in IH |- *.
    destruct (fold_left _ (range (Z.of_nat n)) _) as [b p a c bets g0].
    cbn [balance path ages coin_flips gen] in IH.
    destruct IH as (-> & -> & -> & -> & ->).
    cbn [fold_left]. unfold full_stake_year, binomial.
    cbn [balance path ages coin_flips gen advance stream cursor].
    rewrite b2z_eqb_1, draws_succ, trajectory_snoc, map_app, ages_upto_succ.
    rewrite final_snoc. unfold advance. rewrite Nat.add_succ_r.
    repeat split.
Qed.

Lemma half_stake_loop (initial : num) (g : rng) (n : nat) :
  let st := fold_left half_stake_year (range (Z.of_nat n))
                      (locals_init initial g) in
  balance st = final half_stake_update initial (draws g n) /\
  path st = trajectory half_stake_update initial (draws g n) /\
  ages st = ages_upto n /\
  coin_flips st = map Z.b2z (draws g n) /\
  gen st = advance g n.
Proof.
  induction n as [|n IH].
  - simpl. rewrite advance_0. repeat split.
  - rewrite range_succ, fold_left_app. cbv zeta in IH |- *.
    destruct (fold_left _ (range (Z.of_nat n)) _) as [b p a c bets g0].
    cbn [balance path ages coin_flips gen] in IH.
    destruct IH as (-> & -> & -> & -> & ->).
    cbn [fold_left]. unfold half_stake_year, binomial.
    cbn [balance path ages coin_flips gen advance stream cursor].
    rewrite b2z_eqb_1, draws_succ, trajectory_snoc, map_app, ages_upto_succ.
    rewrite final_snoc. unfold advance. rewrite Nat.add_succ_r.
    repeat split.
Qed.

Lemma simulate_investment_game_eq (initial : num) (years : Z) (g : rng) :
  simulate_investment_game initial years g =
  ((ages_upto (Z.to_nat years),
    trajectory full_stake_update initial (draws g (Z.to_nat years)),
    map Z.b2z (draws g (Z.to_nat years))),
   advance g (Z.to_nat years)).
Proof.
  unfold simulate_investment_game. rewrite range_nat.
  destruct (full_stake_loop initial g (Z.to_nat years))
    as (_ & Hp & Ha & Hc & Hg).
  cbv zeta. now rewrite Hp, Ha, Hc, Hg.
Qed.

Lemma simulate_modified_investment_game_eq
    (initial : num) (years : Z) (g : rng) :
  exists bets,
    simulate_modified_investment_game initial years g =
    ((ages_upto (Z.to_nat years),
      trajectory half_stake_update initial (draws g (Z.to_nat years)),
      map Z.b2z (draws g (Z.to_nat years)),
      bets),
     advance g (Z.to_nat years)).
Proof.
  unfold simulate_modified_investment_game. rewrite range_nat.
  destruct (half_stake_loop initial g (Z.to_nat years))
    as (_ & Hp & Ha & Hc & Hg).
  cbv zeta. rewrite Hp, Ha, Hc, Hg. eexists. reflexivity.
Qed.

End EngineFacts.

(** ** The runners build one record per simulation *)

Section RunnerFacts.

Context {num : Type} `{PyNum num}.

Lemma multiple_step_eq (initial : num) (years : Z)
    (fb : list num) (ap : list (trial num)) (g : rng) (sim : Z) :
  multiple_step initial years (Some (fb, ap, g)) sim =
  Some (fb ++ [final full_stake_update initial (draws g (Z.to_nat years))],
        ap ++ [trial_at full_stake_update initial years g sim],
        advance g (Z.to_nat years)).
Proof.
  unfold multiple_step. rewrite simulate_investment_game_eq.
  unfold record_trial. now rewrite trajectory_last.
Qed.

Lemma modified_step_eq (initial : num) (years : Z)
    (fb : list num) (ap : list (trial num)) (g : rng) (sim : Z) :
  modified_step initial years (Some (fb, ap, g)) sim =
  Some (fb ++ [final half_stake_update initial (draws g (Z.to_nat years))],
        ap ++ [trial_at half_stake_update initial years g sim],
        advance g (Z.to_nat years)).
Proof.
  unfold modified_step.
  destruct (simulate_modified_investment_game_eq initial years g) as [bets ->].
  unfold record_trial. now rewrite trajectory_last.
Qed.

Section Loop.

Variable upd : num -> bool -> num.
Variables (initial : num) (years : Z).
Variable step : option (batch num) -> Z -> option (batch num).
Hypothesis step_eq : forall fb ap g sim,
  step (Some (fb, ap, g)) sim =
  Some (fb ++ [final upd initial (draws g (Z.to_nat years))],
        ap ++ [trial_at upd initial years g sim],
        advance g (Z.to_nat years)).

Lemma runner_loop (g : rng) (n : nat) :
  fold_left step (range (Z.of_nat n)) (Some ([], [], g)) =
  Some (map (fun j => final upd initial
                        (draws (rng_at g years j) (Z.to_nat years)))
            (seq 0 n),
        map (fun j => trial_at upd initial years (rng_at g years j)
                        (Z.of_nat j))
            (seq 0 n),
        rng_at g years n).
Proof.
  induction n as [|n IH].
  - unfold rng_at. simpl. now rewrite advance_0.
  - rewrite range_succ, fold_left_app, IH. cbn [fold_left].
    rewrite step_eq, !seq_S, !map_app. unfold rng_at.
    rewrite advance_advance. cbn [map Nat.add].
    now replace (S n * Z.to_nat years) with
      (n * Z.to_nat years + Z.to_nat years) by lia.
Qed.

End Loop.

Lemma run_multiple_simulations_eq
    (n_sims : Z) (initial : num) (years : Z) (g : rng) :
  run_multiple_simulations n_sims initial years g =
  Some (map (fun j => final full_stake_update initial
                        (draws (rng_at g years j) (Z.to_nat years)))
            (seq 0 (Z.to_nat n_sims)),
        map (fun j => trial_at full_stake_update initial years
                        (rng_at g years j) (Z.of_nat j))
            (seq 0 (Z.to_nat n_sims)),
        rng_at g years (Z.to_nat n_sims)).
Proof.
  unfold run_multiple_simulations. rewrite range_nat.
  apply runner_loop. intros. apply multiple_step_eq.
Qed.

Lemma run_modified_simulations_eq
    (n_sims : Z) (initial : num) (years : Z) (g : rng) :
  run_modified_simulations n_sims initial years g =
  Some (map (fun j => final half_stake_update initial
                        (draws (rng_at g years j) (Z.to_nat years)))
            (seq 0 (Z.to_nat n_sims)),
        map (fun j => trial_at half_stake_update initial years
                        (rng_at g years j) (Z.of_nat j))
            (seq 0 (Z.to_nat n_sims)),
        rng_at g years (Z.to_nat n_sims)).
Proof.
  unfold run_modified_simulations. rewrite range_nat.
  apply runner_loop. intros. apply modified_step_eq.
Qed.

End RunnerFacts.

(** ** Exact arithmetic: the closed form *)

Lemma final_cons {num : Type} (upd : num -> bool -> num) (b : num) (f : bool)
    (fs : list bool) :
  final upd b (f :: fs) = final upd (upd b f) fs.
Proof. reflexivity. Qed.

Lemma Qpower_nat_succ (q : Q) (n : nat) :
  (q ^ Z.of_nat (S n) == q * q ^ Z.of_nat n)%Q.
Proof.
  rewrite Nat2Z.inj_succ. unfold Z.succ.
  destruct (Qeq_dec q 0) as [Hq|Hq].
  - rewrite Hq. rewrite Qpower_0 by lia. ring.
  - rewrite Qpower_plus by exact Hq. simpl (q ^ 1)%Q. ring.
Qed.

Lemma final_full_stake_exact (flips : list bool) :
  forall b : Q,
    (final full_stake_update b flips ==
     b * (3 # 2) ^ Z.of_nat (wins flips) * (3 # 5) ^ Z.of_nat (losses flips))%Q.
Proof.
  induction flips as [|f fs IH]; intros b.
  - unfold final, wins, losses. simpl. ring.
  - rewrite final_cons, IH.
    destruct f; rewrite wins_cons, losses_cons;
      cbn [full_stake_update mul lit_1_5 lit_0_6 exact Nat.b2n negb Nat.add];
      rewrite Qpower_nat_succ; ring.
Qed.

Lemma final_half_stake_exact (flips : list bool) :
  forall b : Q,
    (final half_stake_update b flips ==
     b * (5 # 4) ^ Z.of_nat (wins flips) * (4 # 5) ^ Z.of_nat (losses flips))%Q.
Proof.
  induction flips as [|f fs IH]; intros b.
  - unfold final, wins, losses. simpl. ring.
  - rewrite final_cons, IH.
    destruct f; rewrite wins_cons, losses_cons;
      cbn [half_stake_update mul add lit_1_5 lit_0_6 lit_0_5 exact
           Nat.b2n negb Nat.add];
      rewrite Qpower_nat_succ; ring.
Qed.

(** ** Rounding keeps the sign *)

Lemma shr_1_nonneg (mrs : shr_record) :
  (0 <= shr_m mrs)%Z -> (0 <= shr_m (shr_1 mrs))%Z.
Proof.
  destruct mrs as [m r s]. simpl.
  destruct m as [|[p|p|]|[p|p|]]; simpl; lia.
Qed.

Lemma iter_shr_1_nonneg (p : positive) :
  forall mrs, (0 <= shr_m mrs)%Z -> (0 <= shr_m (iter_pos shr_1 p mrs))%Z.
Proof.
  induction p as [p IH|p IH|]; intros mrs Hm; simpl.
  - apply IH, IH, shr_1_nonneg, Hm.
  - apply IH, IH, Hm.
  - apply shr_1_nonneg, Hm.
Qed.

Lemma shr_fexp_nonneg (m e : Z) (l : location) :
  (0 <= m)%Z -> (0 <= shr_m (fst (shr_fexp prec emax m e l)))%Z.
Proof.
  intros Hm. unfold shr_fexp, shr.
  assert (H0 : (0 <= shr_m (shr_record_of_loc m l))%Z)
    by (destruct l as [|[]]; exact Hm).
  destruct (_ - e)%Z; simpl; try exact H0.
  apply iter_shr_1_nonneg, H0.
Qed.

Lemma round_nearest_even_nonneg (m : Z) (l : location) :
  (0 <= m)%Z -> (0 <= round_nearest_even m l)%Z.
Proof.
  intros Hm. destruct l as [|[]]; simpl; try lia.
  destruct (Z.even m); lia.
Qed.

Lemma binary_round_aux_nonneg (m e : Z) (l : location) :
  (0 <= m)%Z -> SFnonneg (binary_round_aux prec emax false m e l) = true.
Proof.
  intros Hm. unfold binary_round_aux.
  pose proof (shr_fexp_nonneg m e l Hm) as H1.
  destruct (shr_fexp prec emax m e l) as [mrs' e'].
  cbn [fst] in H1.
  pose proof (shr_fexp_nonneg _ e' loc_Exact
                (round_nearest_even_nonneg _ (loc_of_shr_record mrs') H1)) as H2.
  destruct (shr_fexp prec emax _ e' loc_Exact) as [mrs'' e''].
  cbn [fst] in H2.
  destruct (shr_m mrs''); [reflexivity| |lia].
  destruct (Z.leb _ _); reflexivity.
Qed.

Lemma SFmul_nonneg (x y : spec_float) :
  SFnonneg x = true -> SFpos_finite y = true ->
  SFnonneg (SF64mul x y) = true.
Proof.
  destruct x as [[]|[]| |[] mx ex], y as [[]|[]| |[] my ey];
    try discriminate; intros _ _; try reflexivity.
  apply binary_round_aux_nonneg. lia.
Qed.

Lemma SFadd_nonneg (x y : spec_float) :
  SFnonneg x = true -> SFnonneg y = true ->
  SFnonneg (SF64add x y) = true.
Proof.
  destruct x as [[]|[]| |[] mx ex], y as [[]|[]| |[] my ey];
    try discriminate; intros _ _; try reflexivity.
  unfold SF64add, SFadd. cbn [cond_Zopp].
  unfold binary_normalize. cbn [Z.add]. unfold binary_round.
  destruct (shl_align _ _ _) as [mz ez].
  apply binary_round_aux_nonneg. lia.
Qed.

Lemma ltb_0_nonneg (x : float) :
  (0 <? x)%float = true -> SFnonneg (Prim2SF x) = true.
Proof.
  rewrite ltb_spec. change (Prim2SF 0) with (S754_zero false).
  destruct (Prim2SF x) as [[]|[]| |[] m e]; cbv; congruence.
Qed.

Lemma nonneg_leb_0 (x : float) :
  SFnonneg (Prim2SF x) = true -> (0 <=? x)%float = true.
Proof.
  rewrite leb_spec. change (Prim2SF 0) with (S754_zero false).
  destruct (Prim2SF x) as [[]|[]| |[] m e]; cbv; congruence.
Qed.

Lemma half_stake_update_nonneg (b : float) (heads : bool) :
  SFnonneg (Prim2SF b) = true ->
  SFnonneg (Prim2SF (half_stake_update b heads)) = true.
Proof.
  intros Hb. unfold half_stake_update.
  assert (Hhalf : SFnonneg (Prim2SF (b * 0.5)%float) = true)
    by (rewrite mul_spec; apply SFmul_nonneg; (exact Hb || reflexivity)).
  destruct heads; cbn [mul add lit_1_5 lit_0_6 lit_0_5 binary64];
    rewrite add_spec; apply SFadd_nonneg; try exact Hhalf;
    rewrite mul_spec; apply SFmul_nonneg; (exact Hhalf || reflexivity).
Qed.

Lemma trajectory_Forall {num : Type} (P : num -> Prop)
    (upd : num -> bool -> num) :
  (forall b f, P b -> P (upd b f)) ->
  forall flips b, P b -> Forall P (trajectory upd b flips).
Proof.
  intros Hupd. induction flips as [|f fs IH]; intros b Hb; simpl.
  - constructor; [exact Hb | constructor].
  - constructor; [exact Hb | apply IH, Hupd, Hb].
Qed.

Lemma full_stake_update_pos (b : Q) (heads : bool) :
  (0 < b)%Q -> (0 < full_stake_update b heads)%Q.
Proof.
  intros Hb. unfold full_stake_update.
  destruct heads; cbn [mul lit_1_5 lit_0_6 exact];
    apply Qmult_lt_0_compat; (exact Hb || reflexivity).
Qed.

Lemma half_stake_update_pos (b : Q) (heads : bool) :
  (0 < b)%Q -> (0 < half_stake_update b heads)%Q.
Proof.
  intros Hb. unfold half_stake_update.
  assert (Hhalf : (0 < b * (1 # 2))%Q)
    by (apply Qmult_lt_0_compat; (exact Hb || reflexivity)).
  destruct heads; cbn [mul add lit_1_5 lit_0_6 lit_0_5 exact].
  - assert (0 < b * (1 # 2) * (3 # 2))%Q
      by (apply Qmult_lt_0_compat; (exact Hhalf || reflexivity)).
    apply (Qplus_lt_le_compat 0 _ 0 _ Hhalf). now apply Qlt_le_weak.
  - assert (0 < b * (1 # 2) * (3 # 5))%Q
      by (apply Qmult_lt_0_compat; (exact Hhalf || reflexivity)).
    apply (Qplus_lt_le_compat 0 _ 0 _ Hhalf). now apply Qlt_le_weak.
Qed.

(** ** Rounding a product of positive numbers *)

Section RoundingPositive.

Local Open Scope Z_scope.

Lemma shr_1_div2 (mrs : shr_record) :
  0 <= shr_m mrs -> shr_m (shr_1 mrs) = shr_m mrs / 2.
Proof.
  destruct mrs as [m r s]. cbn [shr_m]. intros Hm.
  destruct m as [|[p|p|]|q]; cbn [shr_1 shr_m]; try lia; try reflexivity.
  - rewrite Pos2Z.inj_xI. apply (Z.div_unique _ _ _ 1); lia.
  - rewrite Pos2Z.inj_xO. apply (Z.div_unique _ _ _ 0); lia.
Qed.

Lemma iter_shr_1_div (p : positive) :
  forall mrs, 0 <= shr_m mrs ->
    shr_m (iter_pos shr_1 p mrs) = shr_m mrs / 2 ^ Zpos p.
Proof.
  induction p as [p IH|p IH|]; intros mrs Hm; cbn [iter_pos].
  - rewrite IH, IH, shr_1_div2 by
      (try apply iter_shr_1_nonneg; try apply shr_1_nonneg; exact Hm).
    rewrite !Z.div_div by lia. f_equal.
    replace (Zpos p~1) with (Zpos p + Zpos p + 1) by lia.
    rewrite !Z.pow_add_r by lia. change (2 ^ 1) with 2. ring.
  - rewrite IH, IH by (try apply iter_shr_1_nonneg; exact Hm).
    rewrite !Z.div_div by lia. f_equal.
    replace (Zpos p~0) with (Zpos p + Zpos p) by lia.
    rewrite !Z.pow_add_r by lia. ring.
  - rewrite shr_1_div2 by exact Hm. reflexivity.
Qed.

Lemma digits2_pos_bounds (q : positive) :
  2 ^ (Zpos (digits2_pos q) - 1) <= Zpos q < 2 ^ Zpos (digits2_pos q).
Proof.
  induction q as [q IH|q IH|]; cbn [digits2_pos].
  - pose proof (Pos2Z.inj_xI q) as Hq. rewrite Pos2Z.inj_succ.
    replace (Z.succ (Zpos (digits2_pos q)) - 1) with
      (Z.succ (Zpos (digits2_pos q) - 1)) by lia.
    rewrite !Z.pow_succ_r by lia. lia.
  - pose proof (Pos2Z.inj_xO q) as Hq. rewrite Pos2Z.inj_succ.
    replace (Z.succ (Zpos (digits2_pos q)) - 1) with
      (Z.succ (Zpos (digits2_pos q) - 1)) by lia.
    rewrite !Z.pow_succ_r by lia. lia.
  - cbn. lia.
Qed.

Lemma digits2_pos_mul (a b : positive) :
  Zpos (digits2_pos a) + Zpos (digits2_pos b) - 1
    <= Zpos (digits2_pos (a * b)).
Proof.
  pose proof (digits2_pos_bounds a) as [Ha _].
  pose proof (digits2_pos_bounds b) as [Hb _].
  pose proof (digits2_pos_bounds (a * b)) as [_ Hab].
  rewrite Pos2Z.inj_mul in Hab.
  assert (H : 2 ^ (Zpos (digits2_pos a) - 1 + (Zpos (digits2_pos b) - 1))
              < 2 ^ Zpos (digits2_pos (a * b))).
  { rewrite Z.pow_add_r by lia.
    eapply Z.le_lt_trans; [|exact Hab].
    apply Z.mul_le_mono_nonneg; try lia; apply Z.pow_nonneg; lia. }
  apply Z.pow_lt_mono_r_iff in H; lia.
Qed.

Lemma shift_pos (q p : positive) :
  Zpos p < Zpos (digits2_pos q) -> 0 < Zpos q / 2 ^ Zpos p.
Proof.
  intros Hp. pose proof (digits2_pos_bounds q) as [Hq _].
  apply Z.div_str_pos. split; [apply Z.pow_pos_nonneg; lia|].
  eapply Z.le_trans; [|exact Hq]. apply Z.pow_le_mono_r; lia.
Qed.

Ltac binary64_constants := unfold fexp, SpecFloat.emin, prec, emax in *.

(** Rounding a positive exact value of at least the smallest subnormal. *)
Lemma binary_round_aux_pos (m : positive) (e : Z) :
  emin < Zpos (digits2_pos m) + e ->
  SFpos (binary_round_aux prec emax false (Zpos m) e loc_Exact) = true.
Proof.
  intros Hbig. unfold binary_round_aux.
  assert (Hfirst : exists mrs' e',
             shr_fexp prec emax (Zpos m) e loc_Exact = (mrs', e') /\
             0 < shr_m mrs' /\ emin <= e').
  { unfold shr_fexp, shr. cbn [Zdigits2 shr_record_of_loc].
    destruct (fexp prec emax (Zpos (digits2_pos m) + e) - e)
      as [|p|p] eqn:Hn.
    - do 2 eexists. split; [reflexivity|]. cbn [shr_m].
      binary64_constants. lia.
    - do 2 eexists. split; [reflexivity|].
      rewrite iter_shr_1_div by (cbn; lia). cbn [shr_m].
      split; [apply shift_pos|]; binary64_constants; lia.
    - do 2 eexists. split; [reflexivity|]. cbn [shr_m].
      binary64_constants. lia. }
  destruct Hfirst as (mrs' & e' & -> & Hm' & He').
  assert (Hround : 0 < round_nearest_even (shr_m mrs') (loc_of_shr_record mrs')).
  { destruct (loc_of_shr_record mrs') as [|[]]; cbn [round_nearest_even];
      try lia. destruct (Z.even _); lia. }
  destruct (round_nearest_even (shr_m mrs') (loc_of_shr_record mrs'))
    as [|m2|m2]; try lia.
  assert (Hsecond : 0 < shr_m (fst (shr_fexp prec emax (Zpos m2) e' loc_Exact))).
  { unfold shr_fexp, shr. cbn [Zdigits2 shr_record_of_loc].
    destruct (fexp prec emax (Zpos (digits2_pos m2) + e') - e')
      as [|p|p] eqn:Hn; cbn [fst shr_m]; try lia.
    rewrite iter_shr_1_div by (cbn; lia). cbn [shr_m].
    apply shift_pos. binary64_constants. lia. }
  destruct (shr_fexp prec emax (Zpos m2) e' loc_Exact) as [mrs'' e''].
  cbn [fst] in Hsecond.
  destruct (shr_m mrs''); try lia.
  destruct (Z.leb _ _); reflexivity.
Qed.

Lemma valid_finite_bounds (m : positive) (e : Z) :
  valid_binary (S754_finite false m e) = true -> emin <= e.
Proof.
  cbn [SpecFloat.valid_binary]. unfold bounded, canonical_mantissa.
  intros Hv. apply andb_prop in Hv. destruct Hv as [Hc _].
  apply Z.eqb_eq in Hc. binary64_constants. lia.
Qed.

Lemma digits2_pos_1 (m : positive) : Zpos (digits2_pos m) <= 1 -> m = xH.
Proof.
  destruct m as [m|m|]; cbn [digits2_pos]; try reflexivity;
    rewrite Pos2Z.inj_succ; lia.
Qed.

(** A positive binary64 number times 1.5 or 0.6 is never rounded to zero. *)
Lemma SFmul_pos (x : spec_float) (c : float) :
  c = 1.5%float \/ c = 0.6%float ->
  valid_binary x = true -> SFpos x = true ->
  SFpos (SF64mul x (Prim2SF c)) = true.
Proof.
  intros Hc Hvalid Hpos.
  destruct x as [[]|[]| |[] mx ex]; try discriminate.
  - destruct Hc as [-> | ->]; reflexivity.
  - pose proof (valid_finite_bounds mx ex Hvalid) as Hex.
    assert (H1 : 1 <= Zpos (digits2_pos mx)) by lia.
    destruct Hc as [-> | ->].
    + change (Prim2SF 1.5) with (S754_finite false 6755399441055744 (-52)).
      unfold SF64mul, SFmul. cbn [xorb].
      apply binary_round_aux_pos.
      pose proof (digits2_pos_mul mx 6755399441055744) as Hd.
      change (Zpos (digits2_pos 6755399441055744)) with 53 in Hd.
      binary64_constants. lia.
    + change (Prim2SF 0.6) with (S754_finite false 5404319552844595 (-53)).
      destruct (Z_le_gt_dec (Zpos (digits2_pos mx) + ex) (emin + 1)) as [Hsmall|Hbig].
      * assert (mx = xH) as -> by (apply digits2_pos_1; binary64_constants; lia).
        assert (ex = -1074) as ->
          by (cbn [digits2_pos] in Hsmall; binary64_constants; lia).
        vm_compute. reflexivity.
      * unfold SF64mul, SFmul. cbn [xorb].
        apply binary_round_aux_pos.
        pose proof (digits2_pos_mul mx 5404319552844595) as Hd.
        change (Zpos (digits2_pos 5404319552844595)) with 53 in Hd.
        binary64_constants. lia.
Qed.

End RoundingPositive.

Lemma ltb_0_pos (x : float) :
  (0 <? x)%float = true <-> SFpos (Prim2SF x) = true.
Proof.
  rewrite ltb_spec. change (Prim2SF 0) with (S754_zero false).
  destruct (Prim2SF x) as [[]|[]| |[] m e]; cbv; split; congruence.
Qed.

Lemma full_stake_update_pos_float (b : float) (heads : bool) :
  (0 <? b)%float = true -> (0 <? full_stake_update b heads)%float = true.
Proof.
  intros Hb. apply ltb_0_pos in Hb. apply ltb_0_pos.
  unfold full_stake_update.
  destruct heads; cbn [mul lit_1_5 lit_0_6 binary64];
    rewrite mul_spec; apply SFmul_pos;
    auto using Prim2SF_valid.
Qed.

(** ** The order of binary64 values *)

Ltac order_cases :=
  repeat match goal with
         | |- context [Z.compare ?a ?b] =>
             destruct (Z.compare_spec a b)
         | H : context [Z.compare ?a ?b] |- _ =>
             destruct (Z.compare_spec a b)
         | |- context [Pos.compare_cont Eq ?a ?b] =>
             change (Pos.compare_cont Eq a b) with (Pos.compare a b);
             destruct (Pos.compare_spec a b)
         | H : context [Pos.compare_cont Eq ?a ?b] |- _ =>
             change (Pos.compare_cont Eq a b) with (Pos.compare a b) in H;
             destruct (Pos.compare_spec a b)
         end.

Lemma SFleb_ltb_trans (a b c : spec_float) :
  SFleb a b = true -> SFltb b c = true -> SFltb a c = true.
Proof.
  unfold SFleb, SFltb, SFcompare.
  destruct a as [[]|[]| |[] ma ea], b as [[]|[]| |[] mb eb],
           c as [[]|[]| |[] mc ec];
    try (intros; congruence);
    intros Hab Hbc; order_cases; simpl in *; try congruence; try lia.
Qed.

Lemma SFltb_trans (a b c : spec_float) :
  SFltb a b = true -> SFltb b c = true -> SFltb a c = true.
Proof.
  unfold SFltb, SFcompare.
  destruct a as [[]|[]| |[] ma ea], b as [[]|[]| |[] mb eb],
           c as [[]|[]| |[] mc ec];
    try (intros; congruence);
    intros Hab Hbc; order_cases; simpl in *; try congruence; try lia.
Qed.

Lemma SFltb_irrefl (a : spec_float) : SFltb a a = false.
Proof.
  unfold SFltb, SFcompare.
  destruct a as [[]|[]| |[] ma ea]; try reflexivity;
    rewrite Z.compare_refl;
    change (Pos.compare_cont Eq ma ma) with (Pos.compare ma ma);
    now rewrite Pos.compare_refl.
Qed.

Lemma float_le_lt_trans (a b c : float) :
  (a <=? b)%float = true -> (b <? c)%float = true -> (a <? c)%float = true.
Proof. rewrite leb_spec, !ltb_spec. apply SFleb_ltb_trans. Qed.

(** A balance cannot be both below a threshold and above a larger one. *)
Lemma float_below_above (lo hi x : float) :
  (lo <=? hi)%float = true -> (x <? lo)%float = true ->
  (hi <? x)%float = false.
Proof.
  intros Hle Hlt. destruct (hi <? x)%float eqn:Hgt; [|reflexivity].
  pose proof (float_le_lt_trans _ _ _ Hle Hgt) as H1.
  rewrite ltb_spec in H1, Hlt.
  pose proof (SFltb_trans _ _ _ Hlt H1) as H2.
  rewrite SFltb_irrefl in H2. discriminate.
Qed.
Lemma SFpos_nonneg (a : spec_float) : SFpos a = true -> SFnonneg a = true.
Proof. destruct a as [[]|[]| |[] ma ea]; try discriminate; reflexivity. Qed.

(** ** Counts and lengths as binary64 values *)

Lemma float_of_Z_SF (z : Z) :
  (0 <= z < 2 ^ 63)%Z ->
  Prim2SF (float_of_Z z) = binary_normalize prec emax z 0 false.
Proof.
  intros Hz. unfold float_of_Z.
  replace (z <? 0)%Z with false by (symmetry; apply Z.ltb_ge; lia).
  rewrite of_uint63_spec, Uint63.of_Z_spec.
  change Uint63Axioms.wB with (2 ^ 63)%Z. now rewrite Z.mod_small.
Qed.

Lemma float_of_Z_pos (z : Z) :
  (0 < z < 2 ^ 63)%Z -> SFpos (Prim2SF (float_of_Z z)) = true.
Proof.
  intros Hz. rewrite float_of_Z_SF by lia.
  destruct z as [|p|p]; try lia.
  unfold binary_normalize, binary_round.
  destruct (shl_align p 0 (fexp prec emax (Zpos (digits2_pos p) + 0)))
    as [mz ez] eqn:Hsh.
  apply binary_round_aux_pos.
  unfold shl_align in Hsh.
  pose proof (Pos2Z.is_pos (digits2_pos mz)) as Hd.
  destruct (fexp prec emax (Zpos (digits2_pos p) + 0) - 0)%Z eqn:He;
    inversion Hsh; subst;
    unfold fexp, SpecFloat.emin, prec, emax in *; lia.
Qed.

Lemma float_of_Z_nonzero (z : Z) :
  (0 < z < 2 ^ 63)%Z -> (float_of_Z z =? 0)%float = false.
Proof.
  intros Hz. rewrite eqb_spec. pose proof (float_of_Z_pos z Hz) as Hp.
  change (Prim2SF 0) with (S754_zero false).
  destruct (Prim2SF (float_of_Z z)) as [[]|[]| |[] m e]; try discriminate;
    reflexivity.
Qed.

(** ** Counts are finite binary64 values *)

Section RoundingFinite.

Local Open Scope Z_scope.

Ltac binary64_values := unfold fexp, SpecFloat.emin, prec, emax in *.

Lemma Zdigits2_le (a b : Z) :
  0 <= a <= b -> Zdigits2 a <= Zdigits2 b.
Proof.
  intros [Ha Hab].
  destruct a as [|pa|pa], b as [|pb|pb]; cbn [Zdigits2]; try lia.
  pose proof (digits2_pos_bounds pa) as [Hpa _].
  pose proof (digits2_pos_bounds pb) as [_ Hpb].
  assert (H : 2 ^ (Zpos (digits2_pos pa) - 1) < 2 ^ Zpos (digits2_pos pb)) by lia.
  apply Z.pow_lt_mono_r_iff in H; lia.
Qed.

Lemma Zdigits2_succ (p : positive) :
  Zdigits2 (Zpos p + 1) <= Zpos (digits2_pos p) + 1.
Proof.
  pose proof (digits2_pos_bounds p) as [_ Hp].
  change (Zpos p + 1) with (Zpos (p + 1)). cbn [Zdigits2].
  pose proof (digits2_pos_bounds (p + 1)) as [Hq _].
  rewrite Pos2Z.inj_add in Hq.
  assert (H : 2 ^ (Zpos (digits2_pos (p + 1)) - 1)
              < 2 ^ (Zpos (digits2_pos p) + 1)).
  { rewrite (Z.pow_add_r 2 (Zpos (digits2_pos p)) 1) by lia.
    change (2 ^ 1) with 2. lia. }
  apply Z.pow_lt_mono_r_iff in H; lia.
Qed.

Lemma shr_fexp_bounds (m e : Z) (l : location) :
  0 <= m ->
  0 <= shr_m (fst (shr_fexp prec emax m e l)) <= m /\
  (snd (shr_fexp prec emax m e l) = e \/
   snd (shr_fexp prec emax m e l) = fexp prec emax (Zdigits2 m + e)).
Proof.
  intros Hm. unfold shr_fexp, shr.
  assert (H0 : shr_m (shr_record_of_loc m l) = m)
    by (destruct l as [|[]]; reflexivity).
  destruct (fexp prec emax (Zdigits2 m + e) - e) as [|p|p] eqn:Hn;
    cbn [fst snd]; rewrite ?H0; try (split; [lia | now left]).
  rewrite iter_shr_1_div, H0 by (rewrite H0; exact Hm).
  assert (Hpow : 0 < 2 ^ Zpos p) by (apply Z.pow_pos_nonneg; lia).
  split; [|right; lia].
  split; [apply Z.div_pos; lia|].
  apply Z.div_le_upper_bound; nia.
Qed.

(** Rounding a positive number of moderate size does not overflow. *)
Lemma binary_round_aux_finite (m : positive) (e : Z) :
  e <= 0 -> Zpos (digits2_pos m) <= 200 ->
  SFfinite (binary_round_aux prec emax false (Zpos m) e loc_Exact) = true.
Proof.
  intros He Hd. unfold binary_round_aux.
  pose proof (shr_fexp_bounds (Zpos m) e loc_Exact ltac:(lia)) as [Hm1 He1].
  destruct (shr_fexp prec emax (Zpos m) e loc_Exact) as [mrs' e'].
  cbn [fst snd Zdigits2] in Hm1, He1.
  assert (He' : e' <= 147) by (binary64_values; lia).
  set (m2 := round_nearest_even (shr_m mrs') (loc_of_shr_record mrs')).
  assert (Hm2 : 0 <= m2 <= Zpos m + 1).
  { unfold m2. destruct (loc_of_shr_record mrs') as [|[]];
      cbn [round_nearest_even]; try lia. destruct (Z.even _); lia. }
  assert (Hd2 : Zdigits2 m2 <= 201).
  { pose proof (Zdigits2_le m2 (Zpos m + 1) Hm2).
    pose proof (Zdigits2_succ m). lia. }
  pose proof (shr_fexp_bounds m2 e' loc_Exact ltac:(lia)) as [Hm3 He3].
  destruct (shr_fexp prec emax m2 e' loc_Exact) as [mrs'' e''].
  cbn [fst snd] in Hm3, He3.
  assert (He'' : e'' <= emax - prec) by (binary64_values; lia).
  destruct (shr_m mrs''); try lia; [reflexivity|].
  now replace (e'' <=? emax - prec) with true by (symmetry; apply Z.leb_le; lia).
Qed.

Lemma digits2_pos_iter (p k : positive) :
  Zpos (digits2_pos (Pos.iter xO p k)) = Zpos (digits2_pos p) + Zpos k.
Proof.
  induction k as [|k IH] using Pos.peano_ind.
  - cbn [Pos.iter digits2_pos]. lia.
  - rewrite Pos.iter_succ. cbn [digits2_pos]. lia.
Qed.

Lemma float_of_Z_finite (z : Z) :
  0 <= z < 2 ^ 63 ->
  SFnonneg (Prim2SF (float_of_Z z)) = true /\
  SFfinite (Prim2SF (float_of_Z z)) = true.
Proof.
  intros Hz. rewrite float_of_Z_SF by lia.
  destruct z as [|p|p]; try lia; [split; reflexivity|].
  split; [apply SFpos_nonneg; rewrite <- float_of_Z_SF by lia;
          apply float_of_Z_pos; lia|].
  unfold binary_normalize, binary_round.
  pose proof (digits2_pos_bounds p) as [Hp _].
  assert (Hdp : Zpos (digits2_pos p) <= 63).
  { assert (H : 2 ^ (Zpos (digits2_pos p) - 1) < 2 ^ 63) by lia.
    apply Z.pow_lt_mono_r_iff in H; lia. }
  destruct (shl_align p 0 (fexp prec emax (Zpos (digits2_pos p) + 0)))
    as [mz ez] eqn:Hsh.
  unfold shl_align in Hsh.
  destruct (fexp prec emax (Zpos (digits2_pos p) + 0) - 0) as [|k|k] eqn:Hk;
    inversion Hsh; subst; apply binary_round_aux_finite;
    rewrite ?digits2_pos_iter; binary64_values; lia.
Qed.

End RoundingFinite.

Lemma SFdiv_nonneg (x y : spec_float) :
  SFnonneg x = true -> SFfinite x = true -> SFpos y = true ->
  SFnonneg (SF64div x y) = true.
Proof.
  destruct x as [[]|[]| |[] mx ex], y as [[]|[]| |[] my ey];
    try discriminate; intros _ _ _; try reflexivity.
  unfold SF64div, SFdiv. cbn [xorb].
  destruct (SFdiv_core_binary prec emax (Zpos mx) ex (Zpos my) ey)
    as [[mz ez] lz] eqn:Hcore.
  apply binary_round_aux_nonneg.
  unfold SFdiv_core_binary in Hcore.
  match type of Hcore with
  | (let '(q, r) := Z.div_eucl ?a ?b in _) = _ =>
      pose proof (Z_div_mod a b ltac:(lia)) as Hdiv;
      assert (Ha : (0 <= a)%Z);
      [| destruct (Z.div_eucl a b) as [q r]; inversion Hcore; subst; nia]
  end.
  destruct (_ - _ - _)%Z; try lia. apply Z.shiftl_nonneg. lia.
Qed.

Lemma np_sum_mask_bounds (mask : list bool) :
  (0 <= np_sum_mask mask <= len mask)%Z.
Proof.
  unfold np_sum_mask, len. pose proof (count_occ_bound bool_dec true mask). lia.
Qed.

Lemma is_nan_nonneg (x : float) :
  SFnonneg (Prim2SF x) = true -> PrimFloat.is_nan x = false.
Proof.
  intros Hx. unfold PrimFloat.is_nan. rewrite eqb_spec. unfold SFeqb, SFcompare.
  destruct (Prim2SF x) as [[]|[]| |[] m e]; try discriminate; try reflexivity.
  rewrite Z.compare_refl.
  change (Pos.compare_cont Eq m m) with (Pos.compare m m).
  now rewrite Pos.compare_refl.
Qed.

(** ** Sums of counts are exact *)

Section ExactSums.

Local Open Scope Z_scope.

Ltac binary64_values := unfold fexp, SpecFloat.emin, prec, emax in *.

Lemma Zdigits2_unique (n d : Z) :
  0 < n -> 2 ^ (d - 1) <= n < 2 ^ d -> Zdigits2 n = d.
Proof.
  intros Hn [Hlo Hhi]. destruct n as [|p|p]; try lia. cbn [Zdigits2].
  pose proof (digits2_pos_bounds p) as [Hp1 Hp2].
  assert (Hd : 0 < d).
  { destruct (Z_lt_le_dec 0 d) as [|Hneg]; [assumption|].
    assert (2 ^ d <= 2 ^ 0) by (apply Z.pow_le_mono_r; lia).
    change (2 ^ 0) with 1 in *. lia. }
  assert (H1 : 2 ^ (Zpos (digits2_pos p) - 1) < 2 ^ d) by lia.
  assert (H2 : 2 ^ (d - 1) < 2 ^ Zpos (digits2_pos p)) by lia.
  apply Z.pow_lt_mono_r_iff in H1; [|lia|lia].
  apply Z.pow_lt_mono_r_iff in H2; lia.
Qed.

Lemma Zdigits2_shift (n k : Z) :
  0 < n -> 0 <= k -> Zdigits2 (n * 2 ^ k) = Zdigits2 n + k.
Proof.
  intros Hn Hk.
  assert (Hpow : 0 < 2 ^ k) by (apply Z.pow_pos_nonneg; lia).
  apply Zdigits2_unique; [nia|].
  destruct n as [|p|p]; try lia. cbn [Zdigits2].
  pose proof (digits2_pos_bounds p) as [Hp1 Hp2].
  replace (Zpos (digits2_pos p) + k - 1) with (Zpos (digits2_pos p) - 1 + k)
    by lia.
  rewrite !Z.pow_add_r by lia. nia.
Qed.

Lemma Pos_iter_xO (m d : positive) :
  Zpos (Pos.iter xO m d) = Zpos m * 2 ^ Zpos d.
Proof.
  induction d as [|d IH] using Pos.peano_ind.
  - cbn [Pos.iter]. lia.
  - rewrite Pos.iter_succ, Pos2Z.inj_succ, Z.pow_succ_r by lia.
    replace (Zpos (Pos.iter xO m d)~0) with (2 * Zpos (Pos.iter xO m d)) by lia.
    rewrite IH. ring.
Qed.

Lemma shr_1_even (c : Z) :
  0 <= c ->
  shr_1 (Build_shr_record (2 * c) false false) = Build_shr_record c false false.
Proof.
  intros Hc. destruct c as [|p|p]; try lia; reflexivity.
Qed.

Lemma iter_shr_1_exact (p : positive) :
  forall c : Z, 0 <= c ->
    iter_pos shr_1 p (Build_shr_record (c * 2 ^ Zpos p) false false) =
    Build_shr_record c false false.
Proof.
  induction p as [p IH|p IH|]; intros c Hc; cbn [iter_pos].
  - replace (c * 2 ^ Zpos p~1) with (2 * ((c * 2 ^ Zpos p) * 2 ^ Zpos p)).
    + assert (0 <= 2 ^ Zpos p) by (apply Z.pow_nonneg; lia).
      rewrite shr_1_even by nia. rewrite IH by nia. apply IH, Hc.
    + replace (Zpos p~1) with (Zpos p + Zpos p + 1) by lia.
      rewrite !Z.pow_add_r by lia. change (2 ^ 1) with 2. ring.
  - replace (c * 2 ^ Zpos p~0) with ((c * 2 ^ Zpos p) * 2 ^ Zpos p).
    + assert (0 <= 2 ^ Zpos p) by (apply Z.pow_nonneg; lia).
      rewrite IH by nia. apply IH, Hc.
    + replace (Zpos p~0) with (Zpos p + Zpos p) by lia.
      rewrite !Z.pow_add_r by lia. ring.
  - change (2 ^ 1) with 2. rewrite Z.mul_comm. apply shr_1_even, Hc.
Qed.

(** A mantissa that already sits at its canonical exponent is returned
    as it is. *)
Lemma binary_round_aux_canonical (m : positive) (e : Z) :
  fexp prec emax (Zpos (digits2_pos m) + e) <= e -> e <= emax - prec ->
  binary_round_aux prec emax false (Zpos m) e loc_Exact = S754_finite false m e.
Proof.
  intros Hcanon He. unfold binary_round_aux.
  assert (Hshr : shr_fexp prec emax (Zpos m) e loc_Exact =
                 (Build_shr_record (Zpos m) false false, e)).
  { unfold shr_fexp, shr. cbn [Zdigits2 shr_record_of_loc].
    destruct (fexp prec emax (Zpos (digits2_pos m) + e) - e) eqn:Hn;
      try reflexivity. lia. }
  rewrite Hshr. cbn [shr_m loc_of_shr_record round_nearest_even].
  rewrite Hshr. cbn [shr_m].
  now replace (e <=? emax - prec) with true by (symmetry; apply Z.leb_le; lia).
Qed.

(** A mantissa whose low bits are zero is shifted to its canonical exponent
    without rounding. *)
Lemma binary_round_aux_shift (m c p : positive) (e : Z) :
  fexp prec emax (Zpos (digits2_pos m) + e) - e = Zpos p ->
  Zpos m = Zpos c * 2 ^ Zpos p ->
  e + Zpos p <= emax - prec ->
  binary_round_aux prec emax false (Zpos m) e loc_Exact =
    S754_finite false c (e + Zpos p).
Proof.
  intros Hn Hm He. unfold binary_round_aux.
  assert (Hshr : shr_fexp prec emax (Zpos m) e loc_Exact =
                 (Build_shr_record (Zpos c) false false, e + Zpos p)).
  { unfold shr_fexp, shr. cbn [Zdigits2 shr_record_of_loc]. rewrite Hn.
    rewrite Hm, iter_shr_1_exact by lia. reflexivity. }
  rewrite Hshr. cbn [shr_m loc_of_shr_record round_nearest_even].
  pose proof (Zdigits2_shift (Zpos c) (Zpos p) ltac:(lia) ltac:(lia)) as Hd.
  rewrite <- Hm in Hd. cbn [Zdigits2] in Hd.
  assert (Hshr2 : shr_fexp prec emax (Zpos c) (e + Zpos p) loc_Exact =
                  (Build_shr_record (Zpos c) false false, e + Zpos p)).
  { unfold shr_fexp, shr. cbn [Zdigits2 shr_record_of_loc].
    replace (Zpos (digits2_pos c) + (e + Zpos p))
      with (Zpos (digits2_pos m) + e) by lia.
    replace (fexp prec emax (Zpos (digits2_pos m) + e) - (e + Zpos p))
      with 0 by lia.
    reflexivity. }
  rewrite Hshr2. cbn [shr_m].
  now replace (e + Zpos p <=? emax - prec) with true
    by (symmetry; apply Z.leb_le; lia).
Qed.

(** Every way of writing an integer below 2^53 as [n * 2^k] at exponent
    [-k] is normalised to the same binary64 number. *)
Lemma binary_normalize_integer (n k : Z) :
  0 < n < 2 ^ 53 -> 0 <= k <= 1000 ->
  binary_normalize prec emax (n * 2 ^ k) (- k) false =
    S754_finite false (Z.to_pos (n * 2 ^ (53 - Zdigits2 n)))
                (Zdigits2 n - 53).
Proof.
  intros Hn Hk.
  assert (Hdn : 1 <= Zdigits2 n <= 53).
  { destruct n as [|p|p]; try lia. cbn [Zdigits2].
    pose proof (digits2_pos_bounds p) as [Hp _].
    assert (H : 2 ^ (Zpos (digits2_pos p) - 1) < 2 ^ 53) by lia.
    apply Z.pow_lt_mono_r_iff in H; lia. }
  assert (Hpk : 0 < 2 ^ k) by (apply Z.pow_pos_nonneg; lia).
  pose proof (Zdigits2_shift n k ltac:(lia) ltac:(lia)) as Hd.
  assert (Hc : 0 < n * 2 ^ (53 - Zdigits2 n))
    by (apply Z.mul_pos_pos; [lia | apply Z.pow_pos_nonneg; lia]).
  destruct (n * 2 ^ k) as [|M|M] eqn:HM; try lia.
  cbn [binary_normalize Zdigits2] in *. unfold binary_round.
  replace (fexp prec emax (Zpos (digits2_pos M) + - k))
    with (Zdigits2 n - 53) by (binary64_values; lia).
  unfold shl_align.
  destruct (Zdigits2 n - 53 - - k) as [|p|p] eqn:Hdiff.
  - rewrite binary_round_aux_canonical by (binary64_values; lia).
    f_equal; [|lia].
    replace (53 - Zdigits2 n) with k by lia. rewrite HM. reflexivity.
  - rewrite (binary_round_aux_shift M (Z.to_pos (n * 2 ^ (53 - Zdigits2 n))) p).
    + f_equal. lia.
    + binary64_values. lia.
    + rewrite Z2Pos.id by lia. rewrite <- Z.mul_assoc, <- Z.pow_add_r by lia.
      rewrite <- HM. do 2 f_equal. lia.
    + binary64_values. lia.
  - rewrite binary_round_aux_canonical.
    + f_equal. apply Pos2Z.inj. rewrite Pos_iter_xO, Z2Pos.id by lia.
      rewrite <- HM, <- Z.mul_assoc, <- Z.pow_add_r by lia.
      do 2 f_equal. lia.
    + rewrite digits2_pos_iter. binary64_values. lia.
    + binary64_values. lia.
Qed.

Lemma float_of_Z_integer (n : Z) :
  0 < n < 2 ^ 53 ->
  Prim2SF (float_of_Z n) =
    S754_finite false (Z.to_pos (n * 2 ^ (53 - Zdigits2 n)))
                (Zdigits2 n - 53).
Proof.
  intros Hn. rewrite float_of_Z_SF by lia.
  rewrite <- (binary_normalize_integer n 0) by lia.
  f_equal. change (2 ^ 0) with 1. lia.
Qed.

Lemma shl_align_fst (m : positive) (e e' : Z) :
  e' <= e -> Zpos (fst (shl_align m e e')) = Zpos m * 2 ^ (e - e').
Proof.
  intros He. unfold shl_align.
  destruct (e' - e) as [|p|p] eqn:Hd; cbn [fst]; try lia.
  - replace (e - e') with 0 by lia. change (2 ^ 0) with 1. lia.
  - rewrite Pos_iter_xO. do 2 f_equal. lia.
Qed.

(** Adding the binary64 images of two counts is exact as long as the sum
    stays below 2^53. *)
Lemma float_of_Z_add (a b : Z) :
  0 <= a -> 0 <= b -> a + b < 2 ^ 53 ->
  (float_of_Z a + float_of_Z b)%float = float_of_Z (a + b).
Proof.
  intros Ha Hb Hab. apply Prim2SF_inj. rewrite add_spec.
  destruct (Z.eq_dec a 0) as [-> | Ha0].
  { change (Prim2SF (float_of_Z 0)) with (S754_zero false).
    cbn [Z.add]. destruct (Z.eq_dec b 0) as [-> | Hb0]; [reflexivity|].
    rewrite float_of_Z_integer by lia. reflexivity. }
  destruct (Z.eq_dec b 0) as [-> | Hb0].
  { change (Prim2SF (float_of_Z 0)) with (S754_zero false).
    rewrite Z.add_0_r, float_of_Z_integer by lia. reflexivity. }
  rewrite (float_of_Z_integer a), (float_of_Z_integer b),
    (float_of_Z_integer (a + b)) by lia.
  assert (Hda : 1 <= Zdigits2 a <= 53).
  { destruct a as [|p|p]; try lia. cbn [Zdigits2].
    pose proof (digits2_pos_bounds p) as [Hp _].
    assert (H : 2 ^ (Zpos (digits2_pos p) - 1) < 2 ^ 53) by lia.
    apply Z.pow_lt_mono_r_iff in H; lia. }
  assert (Hdb : 1 <= Zdigits2 b <= 53).
  { destruct b as [|p|p]; try lia. cbn [Zdigits2].
    pose proof (digits2_pos_bounds p) as [Hp _].
    assert (H : 2 ^ (Zpos (digits2_pos p) - 1) < 2 ^ 53) by lia.
    apply Z.pow_lt_mono_r_iff in H; lia. }
  unfold SF64add, SFadd. cbn [cond_Zopp].
  set (ez := Z.min (Zdigits2 a - 53) (Zdigits2 b - 53)).
  rewrite !shl_align_fst by (unfold ez; lia).
  assert (Hpa : 0 < 2 ^ (53 - Zdigits2 a)) by (apply Z.pow_pos_nonneg; lia).
  assert (Hpb : 0 < 2 ^ (53 - Zdigits2 b)) by (apply Z.pow_pos_nonneg; lia).
  rewrite !Z2Pos.id by nia.
  rewrite <- (binary_normalize_integer (a + b) (- ez))
    by (unfold ez; lia).
  rewrite Z.opp_involutive. f_equal.
  rewrite <- !Z.mul_assoc, <- !Z.pow_add_r by (unfold ez; lia).
  replace (53 - Zdigits2 a + (Zdigits2 a - 53 - ez)) with (- ez) by lia.
  replace (53 - Zdigits2 b + (Zdigits2 b - 53 - ez)) with (- ez) by lia.
  ring.
Qed.

End ExactSums.

(** ** Every sum NumPy takes is a sum in some order *)

Lemma sums_to_fold (a : list float) :
  forall l x, sums_to l x -> sums_to (l ++ a) (fold_left PrimFloat.add a x).
Proof.
  induction a as [|y a IH]; intros l x Hx; cbn [fold_left].
  - now rewrite app_nil_r.
  - replace (l ++ y :: a) with ((l ++ [y]) ++ a)
      by (rewrite <- app_assoc; reflexivity).
    apply IH. apply sums_add; [exact Hx | apply sums_one].
Qed.

Lemma interleave_perm {A : Type} (ps : list (list A * A)) :
  Permutation (concat (map (fun p => fst p ++ [snd p]) ps))
              (concat (map fst ps) ++ map snd ps).
Proof.
  induction ps as [|[l x] ps IH]; cbn [map concat fst snd]; [constructor|].
  rewrite <- !app_assoc. apply Permutation_app_head.
  cbn [app]. etransitivity; [apply perm_skip, IH|].
  apply Permutation_middle.
Qed.

Lemma sum_unrolled_sums (n : nat) :
  forall a : list float, (length a <= n)%nat ->
  forall r0 r1 r2 r3 r4 r5 r6 r7 l0 l1 l2 l3 l4 l5 l6 l7,
    sums_to l0 r0 -> sums_to l1 r1 -> sums_to l2 r2 -> sums_to l3 r3 ->
    sums_to l4 r4 -> sums_to l5 r5 -> sums_to l6 r6 -> sums_to l7 r7 ->
    sums_to ((l0 ++ l1 ++ l2 ++ l3 ++ l4 ++ l5 ++ l6 ++ l7) ++ a)
            (sum_unrolled r0 r1 r2 r3 r4 r5 r6 r7 a).
Proof.
  assert (Hbase : forall a r0 r1 r2 r3 r4 r5 r6 r7 l0 l1 l2 l3 l4 l5 l6 l7,
    sums_to l0 r0 -> sums_to l1 r1 -> sums_to l2 r2 -> sums_to l3 r3 ->
    sums_to l4 r4 -> sums_to l5 r5 -> sums_to l6 r6 -> sums_to l7 r7 ->
    sums_to ((l0 ++ l1 ++ l2 ++ l3 ++ l4 ++ l5 ++ l6 ++ l7) ++ a)
      (fold_left PrimFloat.add a
         (((r0 + r1) + (r2 + r3)) + ((r4 + r5) + (r6 + r7)))%float)).
  { intros. apply sums_to_fold.
    replace (l0 ++ l1 ++ l2 ++ l3 ++ l4 ++ l5 ++ l6 ++ l7)
      with (((l0 ++ l1) ++ (l2 ++ l3)) ++ ((l4 ++ l5) ++ (l6 ++ l7)))
      by (rewrite <- !app_assoc; reflexivity).
    repeat apply sums_add; assumption. }
  induction n as [|n IH]; intros a Hlen r0 r1 r2 r3 r4 r5 r6 r7
    l0 l1 l2 l3 l4 l5 l6 l7 H0 H1 H2 H3 H4 H5 H6 H7.
  - destruct a; [|cbn in Hlen; lia]. now apply Hbase.
  - destruct a as [|a0 [|a1 [|a2 [|a3 [|a4 [|a5 [|a6 [|a7 rest]]]]]]]];
      try (now apply Hbase).
    cbn [sum_unrolled].
    apply (sums_perm
             (((l0 ++ [a0]) ++ (l1 ++ [a1]) ++ (l2 ++ [a2]) ++ (l3 ++ [a3]) ++
               (l4 ++ [a4]) ++ (l5 ++ [a5]) ++ (l6 ++ [a6]) ++ (l7 ++ [a7]))
              ++ rest)).
    + replace (a0 :: a1 :: a2 :: a3 :: a4 :: a5 :: a6 :: a7 :: rest)
        with ([a0; a1; a2; a3; a4; a5; a6; a7] ++ rest) by reflexivity.
      rewrite (app_assoc _ _ rest). apply Permutation_app_tail.
      pose proof (interleave_perm
                    [(l0, a0); (l1, a1); (l2, a2); (l3, a3);
                     (l4, a4); (l5, a5); (l6, a6); (l7, a7)]) as Hp.
      cbn [map concat fst snd] in Hp. rewrite !app_nil_r in Hp.
      exact Hp.
    + apply IH; [cbn [length] in Hlen; lia | ..];
        apply sums_add; (assumption || apply sums_one).
Qed.

Lemma pairwise_sum_sums (depth : nat) :
  forall a : list float, sums_to a (pairwise_sum depth a).
Proof.
  assert (Hloop : forall a, sums_to a (fold_left PrimFloat.add a 0%float)).
  { intros a. apply (sums_to_fold a [] _ sums_nil). }
  assert (Hblock : forall a0 a1 a2 a3 a4 a5 a6 a7 rest,
             sums_to (a0 :: a1 :: a2 :: a3 :: a4 :: a5 :: a6 :: a7 :: rest)
                     (sum_unrolled a0 a1 a2 a3 a4 a5 a6 a7 rest)).
  { intros.
    apply (sum_unrolled_sums (length rest) rest (le_n _)
             a0 a1 a2 a3 a4 a5 a6 a7 [a0] [a1] [a2] [a3] [a4] [a5] [a6] [a7]);
      apply sums_one. }
  induction depth as [|depth IH]; intros a;
    destruct a as [|a0 [|a1 [|a2 [|a3 [|a4 [|a5 [|a6 [|a7 rest]]]]]]]];
    try apply Hloop; try apply Hblock.
  cbn [pairwise_sum].
  destruct (_ <=? _)%Z; [apply Hblock|].
  match goal with
  | |- sums_to ?l (pairwise_sum _ (firstn ?k _) + _)%float =>
      rewrite <- (firstn_skipn k l) at 1
  end.
  apply sums_add; apply IH.
Qed.

Lemma np_sum_sums (a : list float) : sums_to a (np_sum a).
Proof.
  unfold np_sum. apply (sums_add [] a); [apply sums_nil|].
  apply pairwise_sum_sums.
Qed.

Lemma count_app {A : Type} (p : A -> bool) (l1 l2 : list A) :
  count p (l1 ++ l2) = (count p l1 + count p l2)%Z.
Proof. unfold count. rewrite filter_app, length_app. lia. Qed.

Lemma count_bounds {A : Type} (p : A -> bool) (l : list A) :
  (0 <= count p l <= len l)%Z.
Proof.
  unfold count, len. pose proof (filter_length_le p l). lia.
Qed.

Lemma count_perm {A : Type} (p : A -> bool) (l1 l2 : list A) :
  Permutation l1 l2 -> count p l1 = count p l2.
Proof.
  intros Hp. unfold count. f_equal.
  induction Hp as [|x l1 l2 Hp IH|x y l|l1 l2 l3 H12 IH12 H23 IH23];
    cbn [filter]; try reflexivity.
  - destruct (p x); cbn [length]; congruence.
  - destruct (p x), (p y); reflexivity.
  - congruence.
Qed.

(** However the entries of a 0/1 array of fewer than 2^53 elements are
    added up in binary64, the sum is the number of ones. *)
Lemma sums_to_count (l : list float) (x : float) :
  sums_to l x ->
  Forall (fun v => v = 0%float \/ v = 1%float) l ->
  (len l < 2 ^ 53)%Z ->
  x = float_of_Z (count (fun v => (v =? 1)%float) l).
Proof.
  induction 1 as [|x|l1 l2 x1 x2 H1 IH1 H2 IH2|l1 l2 x Hp H IH];
    intros Hbits Hlen.
  - reflexivity.
  - inversion Hbits as [|? ? [-> | ->] _]; reflexivity.
  - apply Forall_app in Hbits. destruct Hbits as [Hb1 Hb2].
    unfold len in *. rewrite length_app in Hlen.
    rewrite IH1, IH2 by (assumption || lia).
    rewrite count_app.
    pose proof (count_bounds (fun v => (v =? 1)%float) l1).
    pose proof (count_bounds (fun v => (v =? 1)%float) l2).
    unfold len in *. apply float_of_Z_add; lia.
  - rewrite <- (count_perm _ _ _ Hp). apply IH.
    + eapply Permutation_Forall; [apply Permutation_sym, Hp | exact Hbits].
    + unfold len in *. now rewrite (Permutation_length Hp).
Qed.

Lemma sums_to_nonneg (l : list float) (x : float) :
  sums_to l x ->
  Forall (fun v => SFnonneg (Prim2SF v) = true) l ->
  SFnonneg (Prim2SF x) = true.
Proof.
  induction 1 as [|x|l1 l2 x1 x2 H1 IH1 H2 IH2|l1 l2 x Hp H IH]; intros Hl.
  - reflexivity.
  - now inversion Hl.
  - apply Forall_app in Hl. destruct Hl as [Hl1 Hl2].
    rewrite add_spec. apply SFadd_nonneg; auto.
  - apply IH. eapply Permutation_Forall; [apply Permutation_sym, Hp | exact Hl].
Qed.

Lemma astype_bits (mask : list bool) :
  Forall (fun v => v = 0%float \/ v = 1%float) (np_astype_float mask).
Proof.
  unfold np_astype_float. apply Forall_map, Forall_forall.
  intros [] _; auto.
Qed.

Lemma astype_count (mask : list bool) :
  count (fun v => (v =? 1)%float) (np_astype_float mask) = np_sum_mask mask.
Proof.
  unfold count, np_sum_mask, np_astype_float. f_equal.
  induction mask as [|[] mask IH]; cbn [map filter count_occ]; [reflexivity| |].
  - change (1 =? 1)%float with true. cbn [length].
    destruct (bool_dec true true); congruence.
  - change (0 =? 1)%float with false.
    destruct (bool_dec false true); congruence.
Qed.

Lemma pairwise_sum_depth (d1 : nat) :
  forall (d2 : nat) (a : list float),
    (length a <= d1)%nat -> (length a <= d2)%nat ->
    pairwise_sum d1 a = pairwise_sum d2 a.
Proof.
  induction d1 as [|d1 IH]; intros d2 a H1 H2.
  - destruct a; [|cbn in H1; lia]. destruct d2; reflexivity.
  - destruct a as [|a0 [|a1 [|a2 [|a3 [|a4 [|a5 [|a6 [|a7 rest]]]]]]]];
      try (destruct d2; reflexivity).
    destruct d2 as [|d2]; [cbn in H2; lia|].
    cbn [pairwise_sum].
    set (a := a0 :: a1 :: a2 :: a3 :: a4 :: a5 :: a6 :: a7 :: rest) in *.
    destruct (len a <=? PW_BLOCKSIZE)%Z eqn:Hblock; [reflexivity|].
    apply Z.leb_gt in Hblock. unfold PW_BLOCKSIZE, len in *.
    set (n2 := (Z.of_nat (length a) / 2 - (Z.of_nat (length a) / 2) mod 8)%Z).
    assert (Hn2 : (0 < n2 < Z.of_nat (length a))%Z).
    { unfold n2.
      pose proof (Z.mod_pos_bound (Z.of_nat (length a) / 2) 8 ltac:(lia)).
      pose proof (Z.div_lt_upper_bound (Z.of_nat (length a)) 2
                    (Z.of_nat (length a)) ltac:(lia) ltac:(lia)).
      assert (64 <= Z.of_nat (length a) / 2)%Z
        by (apply Z.div_le_lower_bound; lia).
      lia. }
    f_equal; apply IH;
      rewrite ?length_firstn, ?length_skipn; lia.
Qed.

(** ** Balances above the smallest positive number *)

Section RoundingAboveMin.

Local Open Scope Z_scope.

Ltac binary64_values := unfold fexp, SpecFloat.emin, prec, emax in *.

Lemma Zdigits2_div (m : Z) (p : positive) :
  0 < m -> Zpos p < Zdigits2 m ->
  0 < m / 2 ^ Zpos p /\
  Zdigits2 (m / 2 ^ Zpos p) = Zdigits2 m - Zpos p.
Proof.
  intros Hm Hp. destruct m as [|q|q]; try lia. cbn [Zdigits2] in *.
  pose proof (digits2_pos_bounds q) as [Hlo Hhi].
  assert (Hpow : 0 < 2 ^ Zpos p) by (apply Z.pow_pos_nonneg; lia).
  assert (Hge : 2 ^ (Zpos (digits2_pos q) - Zpos p - 1) <= Zpos q / 2 ^ Zpos p).
  { apply Z.div_le_lower_bound; [exact Hpow|].
    rewrite <- Z.pow_add_r by lia.
    replace (Zpos p + (Zpos (digits2_pos q) - Zpos p - 1))
      with (Zpos (digits2_pos q) - 1) by lia. exact Hlo. }
  assert (Hlt : Zpos q / 2 ^ Zpos p < 2 ^ (Zpos (digits2_pos q) - Zpos p)).
  { apply Z.div_lt_upper_bound; [exact Hpow|].
    rewrite <- Z.pow_add_r by lia.
    replace (Zpos p + (Zpos (digits2_pos q) - Zpos p))
      with (Zpos (digits2_pos q)) by lia. exact Hhi. }
  assert (Hpos : 0 < Zpos q / 2 ^ Zpos p).
  { eapply Z.lt_le_trans; [|exact Hge]. apply Z.pow_pos_nonneg; lia. }
  split; [exact Hpos|].
  apply Zdigits2_unique; [exact Hpos|]. split; [|exact Hlt].
  replace (Zpos (digits2_pos q) - Zpos p - 1) with
    (Zpos (digits2_pos q) - Zpos p - 1) by lia. exact Hge.
Qed.

(** Shifting to the canonical exponent keeps the order of magnitude of a
    number above the smallest positive binary64 number. *)
Lemma shr_fexp_digits (m e : Z) (l : location) :
  0 < m -> emin < Zdigits2 m + e ->
  0 < shr_m (fst (shr_fexp prec emax m e l)) /\
  Zdigits2 (shr_m (fst (shr_fexp prec emax m e l)))
    + snd (shr_fexp prec emax m e l) = Zdigits2 m + e.
Proof.
  intros Hm Hbig. unfold shr_fexp, shr.
  assert (H0 : shr_m (shr_record_of_loc m l) = m)
    by (destruct l as [|[]]; reflexivity).
  destruct (fexp prec emax (Zdigits2 m + e) - e) as [|p|p] eqn:Hn;
    cbn [fst snd]; rewrite ?H0; try (split; [lia | reflexivity]).
  rewrite iter_shr_1_div, H0 by (rewrite H0; lia).
  assert (Hp : Zpos p < Zdigits2 m) by (binary64_values; lia).
  destruct (Zdigits2_div m p Hm Hp) as [Hpos Hd].
  split; [exact Hpos | lia].
Qed.

Lemma round_nearest_even_digits (m : Z) (l : location) :
  0 < m ->
  0 < round_nearest_even m l /\
  Zdigits2 m <= Zdigits2 (round_nearest_even m l).
Proof.
  intros Hm.
  assert (Hcase : round_nearest_even m l = m \/ round_nearest_even m l = m + 1).
  { destruct l as [|[]]; cbn [round_nearest_even]; auto.
    destruct (Z.even m); auto. }
  destruct Hcase as [-> | ->]; split; try lia; apply Zdigits2_le; lia.
Qed.

(** Rounding a number of at least twice the smallest positive binary64
    number gives at least that much. *)
Lemma binary_round_aux_above (m : positive) (e : Z) (l : location) :
  emin + 2 <= Zpos (digits2_pos m) + e ->
  SFabove_min (binary_round_aux prec emax false (Zpos m) e l) = true.
Proof.
  intros Hbig. unfold binary_round_aux.
  pose proof (shr_fexp_digits (Zpos m) e l ltac:(lia)
                ltac:(cbn [Zdigits2]; lia)) as [Hm1 Hd1].
  destruct (shr_fexp prec emax (Zpos m) e l) as [mrs' e'].
  cbn [fst snd Zdigits2] in Hm1, Hd1.
  pose proof (round_nearest_even_digits (shr_m mrs') (loc_of_shr_record mrs')
                Hm1) as [Hm2 Hd2].
  set (m2 := round_nearest_even (shr_m mrs') (loc_of_shr_record mrs')) in *.
  pose proof (shr_fexp_digits m2 e' loc_Exact Hm2 ltac:(lia)) as [Hm3 Hd3].
  destruct (shr_fexp prec emax m2 e' loc_Exact) as [mrs'' e''].
  cbn [fst snd] in Hm3, Hd3.
  destruct (shr_m mrs'') as [|m3|m3]; try lia.
  destruct (Z.leb _ _); [|reflexivity].
  cbn [SFabove_min Zdigits2] in *. apply Z.leb_le. lia.
Qed.

Lemma SFabove_min_pos (x : spec_float) :
  SFabove_min x = true -> SFpos x = true.
Proof. destruct x as [[]|[]| |[] m e]; (discriminate || reflexivity). Qed.

(** Half of a number of at least twice the smallest positive binary64
    number is positive. *)
Lemma SFmul_half_pos (x : spec_float) :
  SFabove_min x = true -> SFpos (SF64mul x (Prim2SF 0.5)) = true.
Proof.
  destruct x as [[]|[]| |[] mx ex]; try discriminate; intros Hx;
    [reflexivity|].
  cbn [SFabove_min] in Hx. apply Z.leb_le in Hx.
  change (Prim2SF 0.5) with (S754_finite false 4503599627370496 (-53)).
  unfold SF64mul, SFmul. cbn [xorb].
  apply binary_round_aux_pos.
  pose proof (digits2_pos_mul mx 4503599627370496) as Hd.
  change (Zpos (digits2_pos 4503599627370496)) with 53 in Hd.
  binary64_values. lia.
Qed.

(** The sum of two positive binary64 numbers is at least twice the smallest
    one. *)
Lemma SFadd_pos_above (x y : spec_float) :
  valid_binary x = true -> valid_binary y = true ->
  SFpos x = true -> SFpos y = true ->
  SFabove_min (SF64add x y) = true.
Proof.
  destruct x as [[]|[]| |[] mx ex], y as [[]|[]| |[] my ey];
    try discriminate; intros Hvx Hvy _ _; try reflexivity.
  pose proof (valid_finite_bounds mx ex Hvx) as Hex.
  pose proof (valid_finite_bounds my ey Hvy) as Hey.
  unfold SF64add, SFadd. cbn [cond_Zopp].
  set (ez := Z.min ex ey).
  set (ma := fst (shl_align mx ex ez)).
  set (mb := fst (shl_align my ey ez)).
  change (Zpos ma + Zpos mb) with (Zpos (ma + mb)).
  cbn [binary_normalize]. unfold binary_round.
  assert (Hd : 2 <= Zpos (digits2_pos (ma + mb))).
  { pose proof (Zdigits2_le 2 (Zpos (ma + mb)) ltac:(lia)) as H.
    exact H. }
  destruct (shl_align (ma + mb) ez
              (fexp prec emax (Zpos (digits2_pos (ma + mb)) + ez)))
    as [mz ez'] eqn:Hsh.
  apply binary_round_aux_above.
  unfold shl_align in Hsh.
  destruct (fexp prec emax (Zpos (digits2_pos (ma + mb)) + ez) - ez)
    as [|k|k] eqn:Hk; inversion Hsh; subst mz ez';
    rewrite ?digits2_pos_iter; unfold ez in *; binary64_values; lia.
Qed.

End RoundingAboveMin.

Lemma half_stake_update_above (b : float) (heads : bool) :
  SFabove_min (Prim2SF b) = true ->
  SFabove_min (Prim2SF (half_stake_update b heads)) = true.
Proof.
  intros Hb. unfold half_stake_update.
  assert (Hhalf : SFpos (Prim2SF (b * 0.5)%float) = true)
    by (rewrite mul_spec; apply SFmul_half_pos, Hb).
  destruct heads; cbn [mul add lit_1_5 lit_0_6 lit_0_5 binary64];
    rewrite add_spec; apply SFadd_pos_above;
    try apply Prim2SF_valid; try exact Hhalf;
    rewrite mul_spec; apply SFmul_pos; auto using Prim2SF_valid.
Qed.

(** A positive binary64 number other than the smallest one is at least twice
    the smallest one. *)
Lemma above_min_cases (x : float) :
  (0 <? x)%float = true -> (x =? 0x1p-1074)%float = false ->
  SFabove_min (Prim2SF x) = true.
Proof.
  rewrite ltb_spec, eqb_spec. pose proof (Prim2SF_valid x) as Hv.
  change (Prim2SF 0) with (S754_zero false).
  change (Prim2SF 0x1p-1074) with (S754_finite false 1 (-1074)).
  destruct (Prim2SF x) as [[]|[]| |[] m e]; try (cbv; congruence).
  intros _ Hne. pose proof (valid_finite_bounds m e Hv) as He.
  cbn [SFabove_min]. apply Z.leb_le.
  unfold SFeqb, SFcompare in Hne. unfold SpecFloat.emin, prec, emax in *.
  destruct (Z.compare_spec e (-1074)) as [-> | Hlt | Hgt]; try lia.
  change (Pos.compare_cont Eq m 1) with (Pos.compare m 1) in Hne.
  destruct (Pos.compare_spec m 1) as [-> | Hlt | Hgt]; try discriminate;
    try lia.
  pose proof (Zdigits2_le 2 (Zpos m) ltac:(lia)) as H.
  cbn [Zdigits2] in H. change (Zpos (digits2_pos 2)) with 2%Z in H. lia.
Qed.

Lemma eqb_min_eq (x : float) :
  (x =? 0x1p-1074)%float = true -> x = 0x1p-1074%float.
Proof.
  rewrite eqb_spec. intros H. apply Prim2SF_inj.
  change (Prim2SF 0x1p-1074) with (S754_finite false 1 (-1074)) in *.
  unfold SFeqb, SFcompare in H.
  destruct (Prim2SF x) as [[]|[]| |[] m e]; try (cbv in H; discriminate).
  destruct (Z.compare_spec e (-1074)) as [He | Hlt | Hgt]; try discriminate.
  change (Pos.compare_cont Eq m 1) with (Pos.compare m 1) in H.
  destruct (Pos.compare_spec m 1) as [Hm | Hlt | Hgt]; try discriminate.
  now rewrite He, Hm.
Qed.

Lemma trajectory_from_zero (flips : list bool) :
  trajectory half_stake_update 0%float flips
    = repeat 0%float (S (length flips)).
Proof.
  induction flips as [|f flips IH]; [reflexivity|].
  cbn [trajectory length]. change (repeat 0%float (S (S (length flips))))
    with (0%float :: repeat 0%float (S (length flips))).
  f_equal. rewrite <- IH. f_equal. destruct f; reflexivity.
Qed.

Lemma trajectory_from_min (flips : list bool) :
  trajectory half_stake_update 0x1p-1074%float flips
    = 0x1p-1074%float :: repeat 0%float (length flips).
Proof.
  destruct flips as [|f flips]; [reflexivity|].
  cbn [trajectory length]. f_equal.
  replace (half_stake_update 0x1p-1074%float f) with 0%float
    by (destruct f; reflexivity).
  apply trajectory_from_zero.
Qed.

(** ** The engine on Python numbers *)

Section PythonNumbers.

Variable initial : py_number.

Lemma fold_left_raised {A S : Type} (step : option S -> A -> option S)
    (xs : list A) :
  (forall x, step None x = None) -> fold_left step xs None = None.
Proof.
  intros Hstep. induction xs as [|x xs IH]; [reflexivity|].
  cbn [fold_left]. now rewrite Hstep.
Qed.

Lemma py_mul_float_as (v : py_number) (x c : float) :
  py_as_float v = Some x -> py_mul_float v c = Some (x * c)%float.
Proof. intros Hv. unfold py_mul_float. now rewrite Hv. Qed.

(** As long as the balance has a float image, one iteration on Python
    numbers moves in step with the iteration on floats. *)
Lemma full_stake_year_py_step (st : locals py_number) (stf : locals float)
    (year : Z) :
  py_as_float (balance st) = Some (balance stf) ->
  path st = initial :: map PyFloat (tl (path stf)) ->
  path stf <> [] ->
  ages st = ages stf -> coin_flips st = coin_flips stf ->
  gen st = gen stf ->
  exists st',
    full_stake_year_py (Some st) year = Some st' /\
    py_as_float (balance st') = Some (balance (full_stake_year stf year)) /\
    path st' = initial :: map PyFloat (tl (path (full_stake_year stf year))) /\
    path (full_stake_year stf year) <> [] /\
    ages st' = ages (full_stake_year stf year) /\
    coin_flips st' = coin_flips (full_stake_year stf year) /\
    gen st' = gen (full_stake_year stf year).
Proof.
  intros Hb Hp Hne Ha Hc Hg.
  unfold full_stake_year_py, full_stake_year. cbn [bind]. rewrite Hg.
  destruct (binomial (gen stf)) as [coin_flip g'].
  rewrite (py_mul_float_as _ _ 1.5 Hb), (py_mul_float_as _ _ 0.6 Hb).
  cbn [mul lit_1_5 lit_0_6 binary64].
  assert (Hpath : forall b : float,
             path st ++ [PyFloat b] =
             initial :: map PyFloat (tl (path stf ++ [b]))).
  { intros b. rewrite Hp. destruct (path stf); [congruence|].
    cbn [tl app map]. now rewrite map_app. }
  assert (Hne' : forall b : float, path stf ++ [b] <> [])
    by (intros b; destruct (path stf); discriminate).
  destruct (coin_flip =? 1)%Z; cbn [bind]; eexists;
    (split; [reflexivity|]); cbn [balance path ages coin_flips gen];
    rewrite Hpath, Ha, Hc; auto 10.
Qed.

Lemma full_stake_loop_py (period : list Z) :
  forall (st : locals py_number) (stf : locals float),
    py_as_float (balance st) = Some (balance stf) ->
    path st = initial :: map PyFloat (tl (path stf)) ->
    path stf <> [] ->
    ages st = ages stf -> coin_flips st = coin_flips stf ->
    gen st = gen stf ->
    exists st',
      fold_left full_stake_year_py period (Some st) = Some st' /\
      path st' = initial
                   :: map PyFloat (tl (path (fold_left full_stake_year period stf))) /\
      ages st' = ages (fold_left full_stake_year period stf) /\
      coin_flips st' = coin_flips (fold_left full_stake_year period stf) /\
      gen st' = gen (fold_left full_stake_year period stf).
Proof.
  induction period as [|year period IH];
    intros st stf Hb Hp Hne Ha Hc Hg.
  - exists st. cbn [fold_left]. auto.
  - cbn [fold_left].
    destruct (full_stake_year_py_step st stf year Hb Hp Hne Ha Hc Hg)
      as (st1 & -> & Hb1 & Hp1 & Hne1 & Ha1 & Hc1 & Hg1).
    apply IH; assumption.
Qed.

Lemma half_stake_year_py_step (st : locals py_number) (stf : locals float)
    (year : Z) :
  py_as_float (balance st) = Some (balance stf) ->
  path st = initial :: map PyFloat (tl (path stf)) ->
  path stf <> [] ->
  ages st = ages stf -> coin_flips st = coin_flips stf ->
  bet_amounts st = map PyFloat (bet_amounts stf) ->
  gen st = gen stf ->
  exists st',
    half_stake_year_py (Some st) year = Some st' /\
    py_as_float (balance st') = Some (balance (half_stake_year stf year)) /\
    path st' = initial :: map PyFloat (tl (path (half_stake_year stf year))) /\
    path (half_stake_year stf year) <> [] /\
    ages st' = ages (half_stake_year stf year) /\
    coin_flips st' = coin_flips (half_stake_year stf year) /\
    bet_amounts st' = map PyFloat (bet_amounts (half_stake_year stf year)) /\
    gen st' = gen (half_stake_year stf year).
Proof.
  intros Hb Hp Hne Ha Hc Hbets Hg.
  unfold half_stake_year_py, half_stake_year. cbn [bind].
  rewrite (py_mul_float_as _ _ 0.5 Hb). cbn [bind]. rewrite Hg.
  destruct (binomial (gen stf)) as [coin_flip g'].
  cbn [mul add lit_1_5 lit_0_6 lit_0_5 binary64].
  assert (Hpath : forall b : float,
             path st ++ [PyFloat b] =
             initial :: map PyFloat (tl (path stf ++ [b]))).
  { intros b. rewrite Hp. destruct (path stf); [congruence|].
    cbn [tl app map]. now rewrite map_app. }
  assert (Hne' : forall b : float, path stf ++ [b] <> [])
    by (intros b; destruct (path stf); discriminate).
  eexists. split; [reflexivity|].
  cbn [balance path ages coin_flips bet_amounts gen].
  rewrite Hpath, Ha, Hc, Hbets, map_app. auto 10.
Qed.

Lemma half_stake_loop_py (period : list Z) :
  forall (st : locals py_number) (stf : locals float),
    py_as_float (balance st) = Some (balance stf) ->
    path st = initial :: map PyFloat (tl (path stf)) ->
    path stf <> [] ->
    ages st = ages stf -> coin_flips st = coin_flips stf ->
    bet_amounts st = map PyFloat (bet_amounts stf) ->
    gen st = gen stf ->
    exists st',
      fold_left half_stake_year_py period (Some st) = Some st' /\
      path st' = initial
                   :: map PyFloat (tl (path (fold_left half_stake_year period stf))) /\
      ages st' = ages (fold_left half_stake_year period stf) /\
      coin_flips st' = coin_flips (fold_left half_stake_year period stf) /\
      bet_amounts st' =
        map PyFloat (bet_amounts (fold_left half_stake_year period stf)) /\
      gen st' = gen (fold_left half_stake_year period stf).
Proof.
  induction period as [|year period IH];
    intros st stf Hb Hp Hne Ha Hc Hbets Hg.
  - exists st. cbn [fold_left]. auto 6.
  - cbn [fold_left].
    destruct (half_stake_year_py_step st stf year Hb Hp Hne Ha Hc Hbets Hg)
      as (st1 & -> & Hb1 & Hp1 & Hne1 & Ha1 & Hc1 & Hbets1 & Hg1).
    apply IH; assumption.
Qed.

End PythonNumbers.

Lemma range_nonpos (n : Z) : (n <= 0)%Z -> range n = [].
Proof.
  intros Hn. unfold range. now replace (Z.to_nat n) with 0%nat by lia.
Qed.

Lemma range_pos (n : Z) :
  (0 < n)%Z -> exists rest, range n = 0%Z :: rest.
Proof.
  intros Hn. unfold range.
  destruct (Z.to_nat n) as [|k] eqn:Hk; [lia|].
  cbn [seq map]. eexists. reflexivity.
Qed.

Lemma py_last_cons {A : Type} (x : A) (xs : list A) :
  xs <> [] -> py_last (x :: xs) = py_last xs.
Proof. destruct xs; [congruence | reflexivity]. Qed.

Lemma py_last_map {A B : Type} (f : A -> B) (xs : list A) :
  py_last (map f xs) = option_map f (py_last xs).
Proof.
  induction xs as [|x xs IH]; [reflexivity|].
  cbn [map]. destruct xs as [|y ys]; [reflexivity|].
  change (py_last (f x :: map f (y :: ys))) with (py_last (map f (y :: ys))).
  exact IH.
Qed.

Section PythonEngine.

Variable initial : py_number.

Lemma simulate_investment_game_py_float (x : float) (years : Z) (g : rng) :
  py_as_float initial = Some x ->
  simulate_investment_game_py initial (PyInt years) g =
  Some ((ages_upto (Z.to_nat years),
         initial :: map PyFloat
                      (tl (trajectory full_stake_update x
                             (draws g (Z.to_nat years)))),
         map Z.b2z (draws g (Z.to_nat years))),
        advance g (Z.to_nat years)).
Proof.
  intros Hx. unfold simulate_investment_game_py. cbn [py_range bind].
  destruct (full_stake_loop_py initial (range years)
              (locals_init initial g) (locals_init x g))
    as (st' & -> & Hp & Ha & Hc & Hg);
    try reflexivity; try exact Hx; try discriminate.
  pose proof (simulate_investment_game_eq x years g) as Heq.
  unfold simulate_investment_game in Heq. cbv zeta in Heq.
  inversion Heq as [[Ha' Hp' Hc' Hg']].
  cbn [bind]. rewrite Hp, Ha, Hc, Hg, Hp', Ha', Hc', Hg'. reflexivity.
Qed.

Lemma simulate_modified_investment_game_py_float
    (x : float) (years : Z) (g : rng) :
  py_as_float initial = Some x ->
  exists bets,
    simulate_modified_investment_game_py initial (PyInt years) g =
    Some ((ages_upto (Z.to_nat years),
           initial :: map PyFloat
                        (tl (trajectory half_stake_update x
                               (draws g (Z.to_nat years)))),
           map Z.b2z (draws g (Z.to_nat years)),
           bets),
          advance g (Z.to_nat years)).
Proof.
  intros Hx. unfold simulate_modified_investment_game_py.
  cbn [py_range bind].
  destruct (half_stake_loop_py initial (range years)
              (locals_init initial g) (locals_init x g))
    as (st' & -> & Hp & Ha & Hc & Hb & Hg);
    try reflexivity; try exact Hx; try discriminate.
  destruct (simulate_modified_investment_game_eq x years g) as [bets Heq].
  unfold simulate_modified_investment_game in Heq. cbv zeta in Heq.
  inversion Heq as [[Ha' Hp' Hc' Hb' Hg']].
  cbn [bind]. rewrite Hp, Ha, Hc, Hg, Hp', Ha', Hc', Hg'.
  eexists. reflexivity.
Qed.

(** Without a period, the initial balance is returned untouched, whatever
    it is. *)
Lemma simulate_py_idle (years : Z) (g : rng) :
  (years <= 0)%Z ->
  simulate_investment_game_py initial (PyInt years) g =
    Some (([age_start], [initial], []), g) /\
  simulate_modified_investment_game_py initial (PyInt years) g =
    Some (([age_start], [initial], [], []), g).
Proof.
  intros Hy.
  unfold simulate_investment_game_py, simulate_modified_investment_game_py.
  cbn [py_range bind]. rewrite range_nonpos by exact Hy. split; reflexivity.
Qed.

(** The first period step raises when the initial balance has no float
    image. *)
Lemma simulate_py_overflow (years : Z) (g : rng) :
  (0 < years)%Z -> py_as_float initial = None ->
  simulate_investment_game_py initial (PyInt years) g = None /\
  simulate_modified_investment_game_py initial (PyInt years) g = None.
Proof.
  intros Hy Hx.
  unfold simulate_investment_game_py, simulate_modified_investment_game_py.
  cbn [py_range bind]. destruct (range_pos years Hy) as [rest ->].
  cbn [fold_left]. split.
  - unfold full_stake_year_py at 2. cbn [bind locals_init gen balance].
    destruct (binomial g) as [coin_flip g']. unfold py_mul_float.
    rewrite Hx. cbn [bind]. destruct (coin_flip =? 1)%Z;
      cbn [bind]; now rewrite fold_left_raised.
  - unfold half_stake_year_py at 2. cbn [bind locals_init gen balance].
    unfold py_mul_float. rewrite Hx. cbn [bind].
    now rewrite fold_left_raised.
Qed.

End PythonEngine.

(** ** The runners on Python numbers *)

Section PythonRunner.

Variable step : option (batch py_number) -> Z -> option (batch py_number).
Variable fin : rng -> py_number.
Variable rec : rng -> Z -> trial py_number.
Variable k : nat.
Hypothesis step_eq : forall fb ap g sim,
  step (Some (fb, ap, g)) sim =
  Some (fb ++ [fin g], ap ++ [rec g sim], advance g k).

Lemma runner_loop_py (g : rng) (n : nat) :
  fold_left step (range (Z.of_nat n)) (Some ([], [], g)) =
  Some (map (fun j => fin (advance g (j * k))) (seq 0 n),
        map (fun j => rec (advance g (j * k)) (Z.of_nat j)) (seq 0 n),
        advance g (n * k)).
Proof.
  induction n as [|n IH].
  - cbn. now rewrite advance_0.
  - rewrite range_succ, fold_left_app, IH. cbn [fold_left].
    rewrite step_eq, !seq_S, !map_app, advance_advance. cbn [map Nat.add].
    now replace (S n * k)%nat with (n * k + k)%nat by lia.
Qed.

End PythonRunner.

Section PythonSteps.

Variable initial : py_number.

Lemma py_last_trajectory (upd : float -> bool -> float) (x : float)
    (flips : list bool) :
  flips <> [] ->
  py_last (initial :: map PyFloat (tl (trajectory upd x flips))) =
    Some (PyFloat (final upd x flips)).
Proof.
  intros Hne. destruct flips as [|f flips]; [congruence|].
  cbn [trajectory tl]. rewrite py_last_cons.
  - rewrite py_last_map, trajectory_last. reflexivity.
  - destruct flips; discriminate.
Qed.

Lemma multiple_step_py_float (x : float) (years : Z)
    (fb : list py_number) (ap : list (trial py_number)) (g : rng) (sim : Z) :
  py_as_float initial = Some x -> (0 < years)%Z ->
  multiple_step_py initial (PyInt years) (Some (fb, ap, g)) sim =
  Some (fb ++ [PyFloat (final full_stake_update x
                          (draws g (Z.to_nat years)))],
        ap ++ [py_trial initial (trial_at full_stake_update x years g sim)],
        advance g (Z.to_nat years)).
Proof.
  intros Hx Hy. unfold multiple_step_py. cbn [bind].
  rewrite (simulate_investment_game_py_float initial x years g Hx).
  cbn [bind]. unfold record_trial.
  rewrite py_last_trajectory; [reflexivity|].
  intros Hd. apply (f_equal (@length bool)) in Hd.
  rewrite draws_length in Hd. cbn in Hd. lia.
Qed.

Lemma modified_step_py_float (x : float) (years : Z)
    (fb : list py_number) (ap : list (trial py_number)) (g : rng) (sim : Z) :
  py_as_float initial = Some x -> (0 < years)%Z ->
  modified_step_py initial (PyInt years) (Some (fb, ap, g)) sim =
  Some (fb ++ [PyFloat (final half_stake_update x
                          (draws g (Z.to_nat years)))],
        ap ++ [py_trial initial (trial_at half_stake_update x years g sim)],
        advance g (Z.to_nat years)).
Proof.
  intros Hx Hy. unfold modified_step_py. cbn [bind].
  destruct (simulate_modified_investment_game_py_float initial x years g Hx)
    as [bets ->].
  cbn [bind]. unfold record_trial.
  rewrite py_last_trajectory; [reflexivity|].
  intros Hd. apply (f_equal (@length bool)) in Hd.
  rewrite draws_length in Hd. cbn in Hd. lia.
Qed.

Lemma step_py_idle (years : Z)
    (fb : list py_number) (ap : list (trial py_number)) (g : rng) (sim : Z) :
  (years <= 0)%Z ->
  multiple_step_py initial (PyInt years) (Some (fb, ap, g)) sim =
    Some (fb ++ [initial], ap ++ [idle_trial initial sim], advance g 0) /\
  modified_step_py initial (PyInt years) (Some (fb, ap, g)) sim =
    Some (fb ++ [initial], ap ++ [idle_trial initial sim], advance g 0).
Proof.
  intros Hy. unfold multiple_step_py, modified_step_py. cbn [bind].
  destruct (simulate_py_idle initial years g Hy) as [-> ->].
  cbn. rewrite advance_0. split; reflexivity.
Qed.

Lemma step_py_raises (years : py_number)
    (fb : list py_number) (ap : list (trial py_number)) (g : rng) (sim : Z) :
  simulate_investment_game_py initial years g = None ->
  simulate_modified_investment_game_py initial years g = None ->
  multiple_step_py initial years (Some (fb, ap, g)) sim = None /\
  modified_step_py initial years (Some (fb, ap, g)) sim = None.
Proof.
  intros H1 H2. unfold multiple_step_py, modified_step_py. cbn [bind].
  rewrite H1, H2. split; reflexivity.
Qed.

End PythonSteps.

Section PythonRuns.

Variables (run : py_number -> py_number -> py_number -> rng ->
                 option (batch py_number))
          (step : py_number -> py_number ->
                  option (batch py_number) -> Z -> option (batch py_number))
          (upd : float -> bool -> float).

Hypothesis run_eq : forall n_sims initial years g,
  run n_sims initial years g =
  bind (py_range n_sims) (fun sims =>
  fold_left (step initial years) sims (Some ([], [], g))).
Hypothesis step_raised : forall initial years sim,
  step initial years None sim = None.
Hypothesis step_float : forall initial x years fb ap g sim,
  py_as_float initial = Some x -> (0 < years)%Z ->
  step initial (PyInt years) (Some (fb, ap, g)) sim =
  Some (fb ++ [PyFloat (final upd x (draws g (Z.to_nat years)))],
        ap ++ [py_trial initial (trial_at upd x years g sim)],
        advance g (Z.to_nat years)).
Hypothesis step_idle : forall initial years fb ap g sim,
  (years <= 0)%Z ->
  step initial (PyInt years) (Some (fb, ap, g)) sim =
  Some (fb ++ [initial], ap ++ [idle_trial initial sim], advance g 0).
Hypothesis step_overflow : forall initial years fb ap g sim,
  (0 < years)%Z -> py_as_float initial = None ->
  step initial (PyInt years) (Some (fb, ap, g)) sim = None.
Hypothesis step_type : forall initial x fb ap g sim,
  step initial (PyFloat x) (Some (fb, ap, g)) sim = None.

Lemma run_py_cases (n_sims initial years : py_number) (g : rng) :
  run n_sims initial years g =
  match n_sims with
  | PyFloat _ => None
  | PyInt n =>
      if (n <=? 0)%Z then Some ([], [], g)
      else
        match years with
        | PyFloat _ => None
        | PyInt y =>
            if (y <=? 0)%Z then
              Some (repeat initial (Z.to_nat n),
                    map (idle_trial initial) (range n),
                    g)
            else
              match py_as_float initial with
              | None => None
              | Some x =>
                  Some (map PyFloat (batch_finals upd x y g (Z.to_nat n)),
                        map (py_trial initial)
                            (batch_records upd x y g (Z.to_nat n)),
                        rng_at g y (Z.to_nat n))
              end
        end
  end.
Proof.
  rewrite run_eq. destruct n_sims as [n|xn]; [|reflexivity].
  cbn [py_range bind].
  destruct (n <=? 0)%Z eqn:Hn.
  { apply Z.leb_le in Hn. now rewrite range_nonpos. }
  apply Z.leb_gt in Hn.
  destruct years as [y|xy].
  2:{ destruct (range_pos n Hn) as [rest ->]. cbn [fold_left].
      rewrite step_type. apply fold_left_raised. intros. apply step_raised. }
  destruct (y <=? 0)%Z eqn:Hy.
  { apply Z.leb_le in Hy. rewrite range_nat.
    rewrite (runner_loop_py (step initial (PyInt y)) (fun _ => initial)
               (fun _ sim => idle_trial initial sim) 0)
      by (intros; now apply step_idle).
    rewrite Nat.mul_0_r, advance_0. unfold range. rewrite map_map.
    rewrite Nat2Z.id.
    assert (Hrep : forall m s,
               map (fun _ : nat => initial) (seq s m) = repeat initial m).
    { induction m as [|m IH]; intros s; [reflexivity|].
      cbn [seq map repeat]. now rewrite IH. }
    now rewrite Hrep. }
  apply Z.leb_gt in Hy.
  destruct (py_as_float initial) as [x|] eqn:Hx.
  - rewrite range_nat.
    rewrite (runner_loop_py (step initial (PyInt y))
               (fun g => PyFloat (final upd x (draws g (Z.to_nat y))))
               (fun g sim => py_trial initial (trial_at upd x y g sim))
               (Z.to_nat y))
      by (intros; now apply step_float).
    unfold batch_finals, batch_records, rng_at. rewrite !map_map.
    reflexivity.
  - destruct (range_pos n Hn) as [rest ->]. cbn [fold_left].
    rewrite step_overflow by assumption.
    apply fold_left_raised. intros. apply step_raised.
Qed.

End PythonRuns.

(** ** Ints that have a float image *)

Section IntToFloat.

Local Open Scope Z_scope.

Ltac binary64_values := unfold fexp, SpecFloat.emin, prec, emax in *.

(** Rounding a number below 2^1023 does not overflow. *)
Lemma binary_round_aux_in_range (sx : bool) (m : positive) (e : Z) :
  emin < Zpos (digits2_pos m) + e <= emax - 1 -> e <= emax - prec ->
  SFfinite (binary_round_aux prec emax sx (Zpos m) e loc_Exact) = true.
Proof.
  intros Hd He. unfold binary_round_aux.
  pose proof (shr_fexp_digits (Zpos m) e loc_Exact ltac:(lia)
                ltac:(cbn [Zdigits2]; lia)) as [Hm1 Hd1].
  pose proof (shr_fexp_bounds (Zpos m) e loc_Exact ltac:(lia)) as [_ He1].
  destruct (shr_fexp prec emax (Zpos m) e loc_Exact) as [mrs' e'].
  cbn [fst snd Zdigits2] in Hm1, Hd1, He1.
  set (m2 := round_nearest_even (shr_m mrs') (loc_of_shr_record mrs')).
  assert (Hm2 : 0 < m2 <= shr_m mrs' + 1).
  { unfold m2. destruct (loc_of_shr_record mrs') as [|[]];
      cbn [round_nearest_even]; try lia. destruct (Z.even _); lia. }
  assert (Hd2 : Zdigits2 m2 <= Zdigits2 (shr_m mrs') + 1).
  { pose proof (Zdigits2_le m2 (shr_m mrs' + 1) ltac:(lia)).
    destruct (shr_m mrs') as [|q|q]; try lia.
    pose proof (Zdigits2_succ q). cbn [Zdigits2]. lia. }
  pose proof (shr_fexp_bounds m2 e' loc_Exact ltac:(lia)) as [Hm3 He3].
  destruct (shr_fexp prec emax m2 e' loc_Exact) as [mrs'' e''].
  cbn [fst snd] in Hm3, He3.
  assert (He'' : e'' <= emax - prec) by (binary64_values; lia).
  destruct (shr_m mrs''); try lia; [reflexivity|].
  now replace (e'' <=? emax - prec) with true by (symmetry; apply Z.leb_le; lia).
Qed.

(** An int of magnitude below 2^1023 has a float image. *)
Lemma py_float_of_int_defined (z : Z) :
  Z.abs z < 2 ^ 1023 -> exists x, py_float_of_int z = Some x.
Proof.
  intros Hz. unfold py_float_of_int.
  assert (Hfin : SFfinite (binary_normalize prec emax z 0 false) = true).
  { destruct z as [|p|p]; [reflexivity| |];
      cbn [binary_normalize]; unfold binary_round;
      pose proof (digits2_pos_bounds p) as [Hp _];
      assert (Hdp : Zpos (digits2_pos p) <= 1023)
        by (assert (H : 2 ^ (Zpos (digits2_pos p) - 1) < 2 ^ 1023) by lia;
            apply Z.pow_lt_mono_r_iff in H; lia);
      pose proof (Pos2Z.is_pos (digits2_pos p)) as Hd0;
      destruct (shl_align p 0 (fexp prec emax (Zpos (digits2_pos p) + 0)))
        as [mz ez] eqn:Hsh;
      unfold shl_align in Hsh;
      destruct (fexp prec emax (Zpos (digits2_pos p) + 0) - 0)
        as [|k|k] eqn:Hk;
      inversion Hsh; subst; apply binary_round_aux_in_range;
      rewrite ?digits2_pos_iter; binary64_values; lia. }
  destruct (binary_normalize prec emax z 0 false); try discriminate;
    eexists; reflexivity.
Qed.

End IntToFloat.

(** ** The mean of a mask *)

Lemma np_astype_float_length (mask : list bool) :
  len (np_astype_float mask) = len mask.
Proof. unfold len, np_astype_float. now rewrite length_map. Qed.

(** The float64 sum NumPy takes over a mask is the number of its [True]
    entries. *)
Lemma np_sum_mask_exact (mask : list bool) :
  (len mask < 2 ^ 53)%Z ->
  np_sum (np_astype_float mask) = float_of_Z (np_sum_mask mask).
Proof.
  intros Hlen. rewrite <- astype_count.
  apply sums_to_count;
    [apply np_sum_sums | apply astype_bits
     | now rewrite np_astype_float_length].
Qed.

Lemma np_mean_mask_quotient (mask : list bool) :
  (len mask < 2 ^ 53)%Z ->
  np_mean_mask mask =
    (float_of_Z (np_sum_mask mask) / float_of_Z (len mask))%float.
Proof.
  intros Hlen. unfold np_mean_mask, np_mean.
  now rewrite np_sum_mask_exact, np_astype_float_length.
Qed.

Lemma SFdiv_nonneg_finite (x y : spec_float) :
  SFnonneg x = true -> SFpos_finite y = true ->
  SFnonneg (SF64div x y) = true.
Proof.
  intros Hx Hy.
  destruct x as [[]|[]| |[] mx ex] eqn:Ex; try discriminate;
    try (destruct y as [[]|[]| |[] my ey]; try discriminate; reflexivity).
  apply SFdiv_nonneg; try reflexivity.
  destruct y as [[]|[]| |[] my ey]; try discriminate; reflexivity.
Qed.

Lemma np_mean_mask_nonneg (mask : list bool) :
  (0 < len mask < 2 ^ 63)%Z ->
  SFnonneg (Prim2SF (np_mean_mask mask)) = true.
Proof.
  intros Hlen. unfold np_mean_mask, np_mean. rewrite div_spec.
  rewrite np_astype_float_length.
  apply SFdiv_nonneg_finite.
  - apply (sums_to_nonneg (np_astype_float mask)); [apply np_sum_sums|].
    unfold np_astype_float. apply Forall_map, Forall_forall.
    intros [] _; reflexivity.
  - pose proof (float_of_Z_pos (len mask) Hlen) as Hpos.
    destruct (float_of_Z_finite (len mask) ltac:(lia)) as [_ Hfin].
    destruct (Prim2SF (float_of_Z (len mask))) as [[]|[]| |[] m e];
      try discriminate; reflexivity.
Qed.

(** ** Shape of a trial *)

Lemma count_occ_flips (flips : list bool) :
  (Z.of_nat (count_occ Z.eq_dec (map Z.b2z flips) 1) +
   Z.of_nat (count_occ Z.eq_dec (map Z.b2z flips) 0))%Z = len flips.
Proof.
  pose proof (count_occ_b2z flips true) as H1.
  pose proof (count_occ_b2z flips false) as H0.
  cbn [Z.b2z] in H1, H0. rewrite H1, H0. unfold len.
  pose proof (wins_losses flips) as Hwl. unfold wins, losses in Hwl. lia.
Qed.

Lemma trial_at_shape {num : Type} `{PyNum num} (upd : num -> bool -> num)
    (initial : num) (years : Z) (g : rng) (sim : Z) :
  (0 <= years)%Z ->
  let t := trial_at upd initial years g sim in
  len (balances t) = (years + 1)%Z /\
  (heads_count t + tails_count t)%Z = years.
Proof.
  intros Hy. unfold trial_at, len. cbn [balances heads_count tails_count].
  rewrite trajectory_length, length_map, draws_length. lia.
Qed.

(** C6. For a horizon [years >= 0], each engine returns a trajectory of
    [years + 1] balances and a sequence of [years] coin flips, in which the
    number of heads plus the number of tails is [years]; and every record of a
    batch holds [years + 1] balances and head and tail counts that add up to
    [years]. *)
Theorem trial_shape {num : Type} `{PyNum num}
    (initial : num) (years : Z) (g : rng) :
  (0 <= years)%Z ->
  (forall ages path flips g',
      simulate_investment_game initial years g = (ages, path, flips, g') ->
      len path = (years + 1)%Z /\ len flips = years /\
      (Z.of_nat (count_occ Z.eq_dec flips 1) +
       Z.of_nat (count_occ Z.eq_dec flips 0))%Z = years) /\
  (forall ages path flips bets g',
      simulate_modified_investment_game initial years g =
        (ages, path, flips, bets, g') ->
      len path = (years + 1)%Z /\ len flips = years /\
      (Z.of_nat (count_occ Z.eq_dec flips 1) +
       Z.of_nat (count_occ Z.eq_dec flips 0))%Z = years) /\
  (forall n_sims final_balances all_paths g',
      run_multiple_simulations n_sims initial years g =
        Some (final_balances, all_paths, g') ->
      Forall (fun t => len (balances t) = (years + 1)%Z /\
                       (heads_count t + tails_count t)%Z = years) all_paths) /\
  (forall n_sims final_balances all_paths g',
      run_modified_simulations n_sims initial years g =
        Some (final_balances, all_paths, g') ->
      Forall (fun t => len (balances t) = (years + 1)%Z /\
                       (heads_count t + tails_count t)%Z = years) all_paths).
Proof.
  intros Hy.
  assert (Hshape : forall (upd : num -> bool -> num) path flips,
             path = trajectory upd initial (draws g (Z.to_nat years)) ->
             flips = map Z.b2z (draws g (Z.to_nat years)) ->
             len path = (years + 1)%Z /\ len flips = years /\
             (Z.of_nat (count_occ Z.eq_dec flips 1) +
              Z.of_nat (count_occ Z.eq_dec flips 0))%Z = years).
  { intros upd path flips -> ->. rewrite count_occ_flips. unfold len.
    rewrite trajectory_length, length_map, draws_length. lia. }
  assert (Hbatch : forall (upd : num -> bool -> num) n,
             Forall (fun t => len (balances t) = (years + 1)%Z /\
                              (heads_count t + tails_count t)%Z = years)
                    (map (fun j => trial_at upd initial years
                                     (rng_at g years j) (Z.of_nat j))
                         (seq 0 n))).
  { intros upd n. apply Forall_map, Forall_forall. intros j _.
    now apply trial_at_shape. }
  split; [|split; [|split]].
  - intros ages path flips g' Hsim.
    rewrite simulate_investment_game_eq in Hsim. inversion Hsim; subst.
    exact (Hshape full_stake_update _ _ eq_refl eq_refl).
  - intros ages path flips bets g' Hsim.
    destruct (simulate_modified_investment_game_eq initial years g)
      as [bets' Heq].
    rewrite Heq in Hsim. inversion Hsim; subst.
    exact (Hshape half_stake_update _ _ eq_refl eq_refl).
  - intros n_sims fb ap g' Hrun. rewrite run_multiple_simulations_eq in Hrun.
    inversion Hrun; subst. apply Hbatch.
  - intros n_sims fb ap g' Hrun. rewrite run_modified_simulations_eq in Hrun.
    inversion Hrun; subst. apply Hbatch.
Qed.

(** The theorem at initial balance 1000, horizon 2, flips heads, tails. *)
Lemma trial_shape_witness :
  (0 <= 2)%Z /\
  len [1000; 1500; 900]%float = (2 + 1)%Z /\ len [1; 0]%Z = 2%Z /\
  (Z.of_nat (count_occ Z.eq_dec [1; 0]%Z 1) +
   Z.of_nat (count_occ Z.eq_dec [1; 0]%Z 0))%Z = 2%Z.
Proof.
  split; [lia|].
  apply (proj1 (@trial_shape float binary64 1000%float 2
                  (rng_of_list [true; false]) ltac:(lia))
               [25; 26; 27]%Z _ _ (advance (rng_of_list [true; false]) 2)).
  reflexivity.
Defined.


(** ** Reproducibility *)

Lemma draws_agree (g1 g2 : rng) (years : Z) (n j : nat) :
  (forall i, i < n * Z.to_nat years ->
             stream g1 (cursor g1 + i) = stream g2 (cursor g2 + i)) ->
  j < n ->
  draws (rng_at g1 years j) (Z.to_nat years) =
  draws (rng_at g2 years j) (Z.to_nat years).
Proof.
  intros Hagree Hj. unfold draws, rng_at, advance. cbn [stream cursor].
  apply map_ext_in. intros i Hi. apply in_seq in Hi.
  rewrite <- !Nat.add_assoc. apply Hagree. nia.
Qed.

Lemma batch_agree {num : Type} `{PyNum num} (upd : num -> bool -> num)
    (initial : num) (years : Z) (g1 g2 : rng) (n : nat) :
  (forall i, i < n * Z.to_nat years ->
             stream g1 (cursor g1 + i) = stream g2 (cursor g2 + i)) ->
  map (fun j => final upd initial (draws (rng_at g1 years j) (Z.to_nat years)))
      (seq 0 n) =
  map (fun j => final upd initial (draws (rng_at g2 years j) (Z.to_nat years)))
      (seq 0 n) /\
  map (fun j => trial_at upd initial years (rng_at g1 years j) (Z.of_nat j))
      (seq 0 n) =
  map (fun j => trial_at upd initial years (rng_at g2 years j) (Z.of_nat j))
      (seq 0 n).
Proof.
  intros Hagree.
  split; apply map_ext_in; intros j Hj; apply in_seq in Hj;
    unfold trial_at;
    rewrite (draws_agree g1 g2 years n j Hagree) by lia; reflexivity.
Qed.

(** C7. Two runs of a runner with the same trial count, initial balance and
    horizon, on generators that deliver the same flips (for as many draws as
    the run consumes), return the same final balances and the same records,
    in the same order; this holds for both runners. *)
Theorem runs_reproducible {num : Type} `{PyNum num}
    (n_sims : Z) (initial : num) (years : Z) (g1 g2 : rng) :
  (forall i, i < Z.to_nat n_sims * Z.to_nat years ->
             stream g1 (cursor g1 + i) = stream g2 (cursor g2 + i)) ->
  option_map fst (run_multiple_simulations n_sims initial years g1) =
  option_map fst (run_multiple_simulations n_sims initial years g2) /\
  option_map fst (run_modified_simulations n_sims initial years g1) =
  option_map fst (run_modified_simulations n_sims initial years g2).
Proof.
  intros Hagree.
  rewrite !run_multiple_simulations_eq, !run_modified_simulations_eq.
  cbn [option_map fst].
  destruct (batch_agree full_stake_update initial years g1 g2 _ Hagree)
    as [-> ->].
  destruct (batch_agree half_stake_update initial years g1 g2 _ Hagree)
    as [-> ->].
  split; reflexivity.
Qed.

(** The theorem for two generators that agree on the two flips of a run of
    one trial of horizon 2 and differ afterwards. *)
Lemma runs_reproducible_witness :
  (forall i, i < Z.to_nat 1 * Z.to_nat 2 ->
             stream (rng_of_list [true; false]) (0 + i) =
             stream (rng_of_list [true; false; true]) (0 + i)) /\
  option_map fst (run_multiple_simulations 1 1000%float 2
                    (rng_of_list [true; false])) =
  option_map fst (run_multiple_simulations 1 1000%float 2
                    (rng_of_list [true; false; true])).
Proof.
  assert (Hagree : forall i, i < Z.to_nat 1 * Z.to_nat 2 ->
             stream (rng_of_list [true; false]) (0 + i) =
             stream (rng_of_list [true; false; true]) (0 + i)).
  { intros [|[|i]] Hi; [reflexivity | reflexivity | simpl in Hi; lia]. }
  split; [exact Hagree|].
  exact (proj1 (@runs_reproducible float binary64 1 1000%float 2
                  (rng_of_list [true; false])
                  (rng_of_list [true; false; true]) Hagree)).
Defined.

(** ** The records of a batch *)

(** C10. In the batch of either runner, the record at position [j] holds the
    trajectory that the simulation of trial [j] returned; its final balance
    is the last balance of that trajectory and sits at position [j] of
    [final_balances]; its head count is the number of 1s and its tail count
    the number of 0s among the coin flips of that simulation. *)
Theorem trial_record_consistent {num : Type} `{PyNum num}
    (n_sims : Z) (initial : num) (years : Z) (g : rng) :
  (exists final_balances all_paths g',
      run_multiple_simulations n_sims initial years g =
        Some (final_balances, all_paths, g') /\
      forall j t, nth_error all_paths j = Some t ->
        exists ages path flips g1,
          simulate_investment_game initial years (rng_at g years j) =
            (ages, path, flips, g1) /\
          balances t = path /\
          py_last (balances t) = Some (final_balance t) /\
          nth_error final_balances j = Some (final_balance t) /\
          heads_count t = Z.of_nat (count_occ Z.eq_dec flips 1%Z) /\
          tails_count t = Z.of_nat (count_occ Z.eq_dec flips 0%Z)) /\
  (exists final_balances all_paths g',
      run_modified_simulations n_sims initial years g =
        Some (final_balances, all_paths, g') /\
      forall j t, nth_error all_paths j = Some t ->
        exists ages path flips bets g1,
          simulate_modified_investment_game initial years (rng_at g years j) =
            (ages, path, flips, bets, g1) /\
          balances t = path /\
          py_last (balances t) = Some (final_balance t) /\
          nth_error final_balances j = Some (final_balance t) /\
          heads_count t = Z.of_nat (count_occ Z.eq_dec flips 1%Z) /\
          tails_count t = Z.of_nat (count_occ Z.eq_dec flips 0%Z)).
Proof.
  assert (Hrec : forall (upd : num -> bool -> num) j t,
    nth_error (map (fun j => trial_at upd initial years (rng_at g years j)
                               (Z.of_nat j)) (seq 0 (Z.to_nat n_sims))) j
      = Some t ->
    let flips := draws (rng_at g years j) (Z.to_nat years) in
    balances t = trajectory upd initial flips /\
    py_last (balances t) = Some (final_balance t) /\
    nth_error (map (fun j => final upd initial
                               (draws (rng_at g years j) (Z.to_nat years)))
                   (seq 0 (Z.to_nat n_sims))) j = Some (final_balance t) /\
    heads_count t = Z.of_nat (count_occ Z.eq_dec (map Z.b2z flips) 1%Z) /\
    tails_count t = Z.of_nat (count_occ Z.eq_dec (map Z.b2z flips) 0%Z)).
  { intros upd j t Hnth. cbv zeta.
    rewrite nth_error_map in Hnth |- *.
    destruct (nth_error (seq 0 (Z.to_nat n_sims)) j) as [k|] eqn:Hk;
      [|discriminate].
    assert (k = j) as ->.
    { pose proof (nth_error_Some (seq 0 (Z.to_nat n_sims)) j) as Hlt.
      rewrite Hk, length_seq in Hlt.
      assert (j < Z.to_nat n_sims) as Hj by (apply Hlt; discriminate).
      rewrite (nth_error_nth' _ 0) in Hk by (now rewrite length_seq).
      rewrite seq_nth in Hk by exact Hj. now inversion Hk. }
    cbn [option_map] in Hnth |- *. inversion Hnth; subst t. clear Hnth.
    unfold trial_at. cbn [balances final_balance heads_count tails_count].
    rewrite trajectory_last, py_sum_b2z.
    pose proof (count_occ_b2z (draws (rng_at g years j) (Z.to_nat years)) true)
      as H1.
    pose proof (count_occ_b2z (draws (rng_at g years j) (Z.to_nat years)) false)
      as H0.
    cbn [Z.b2z] in H1, H0. rewrite H1, H0.
    pose proof (wins_losses (draws (rng_at g years j) (Z.to_nat years))) as Hwl.
    unfold wins, losses, len in *. rewrite length_map.
    repeat split; lia. }
  split.
  - rewrite run_multiple_simulations_eq. do 3 eexists. split; [reflexivity|].
    intros j t Hnth. rewrite simulate_investment_game_eq.
    do 4 eexists. split; [reflexivity|].
    exact (Hrec full_stake_update j t Hnth).
  - rewrite run_modified_simulations_eq. do 3 eexists. split; [reflexivity|].
    intros j t Hnth.
    destruct (simulate_modified_investment_game_eq initial years
                (rng_at g years j)) as [bets ->].
    do 5 eexists. split; [reflexivity|].
    exact (Hrec half_stake_update j t Hnth).
Qed.

(** ** Configurations are not validated *)

(** C5, as the code behaves. Neither runner checks its configuration.
    Called with Python numbers, a runner raises only where an operation of
    Python does: [range] raises a TypeError for a trial count that is a float
    and, once a first trial is run, for a horizon that is a float; once a
    first period step is run, the first multiplication raises an
    OverflowError for an int initial balance that has no float image.  In
    every other case the runner returns normally: the empty batch for a trial
    count that is not positive; trials that hold only the initial balance for
    a horizon that is not positive; and otherwise one trial per count, each
    with [years] period steps computed on the float image of the initial
    balance, whatever its sign.  Every float and every int of magnitude below
    2^1023 has a float image.  The stake fraction and the win probability are
    constants of the code, not inputs. *)
Theorem runners_check_nothing (n_sims initial years : py_number) (g : rng) :
  run_multiple_simulations_py n_sims initial years g =
    match n_sims with
    | PyFloat _ => None
    | PyInt n =>
        if (n <=? 0)%Z then Some ([], [], g)
        else
          match years with
          | PyFloat _ => None
          | PyInt y =>
              if (y <=? 0)%Z then
                Some (repeat initial (Z.to_nat n),
                      map (idle_trial initial) (range n),
                      g)
              else
                match py_as_float initial with
                | None => None
                | Some x =>
                    Some (map PyFloat
                            (batch_finals full_stake_update x y g
                                          (Z.to_nat n)),
                          map (py_trial initial)
                              (batch_records full_stake_update x y g
                                             (Z.to_nat n)),
                          rng_at g y (Z.to_nat n))
                end
          end
    end /\
  run_modified_simulations_py n_sims initial years g =
    match n_sims with
    | PyFloat _ => None
    | PyInt n =>
        if (n <=? 0)%Z then Some ([], [], g)
        else
          match years with
          | PyFloat _ => None
          | PyInt y =>
              if (y <=? 0)%Z then
                Some (repeat initial (Z.to_nat n),
                      map (idle_trial initial) (range n),
                      g)
              else
                match py_as_float initial with
                | None => None
                | Some x =>
                    Some (map PyFloat
                            (batch_finals half_stake_update x y g
                                          (Z.to_nat n)),
                          map (py_trial initial)
                              (batch_records half_stake_update x y g
                                             (Z.to_nat n)),
                          rng_at g y (Z.to_nat n))
                end
          end
    end /\
  match initial with
  | PyInt z =>
      (Z.abs z < 2 ^ 1023)%Z -> exists x, py_as_float initial = Some x
  | PyFloat x => py_as_float initial = Some x
  end.
Proof.
  split; [|split].
  - apply (run_py_cases run_multiple_simulations_py multiple_step_py
             full_stake_update).
    + reflexivity.
    + reflexivity.
    + intros. now apply multiple_step_py_float.
    + intros. now apply step_py_idle.
    + intros i y fb ap g0 sim Hy Hx.
      apply step_py_raises; now apply simulate_py_overflow.
    + intros. reflexivity.
  - apply (run_py_cases run_modified_simulations_py modified_step_py
             half_stake_update).
    + reflexivity.
    + reflexivity.
    + intros. now apply modified_step_py_float.
    + intros. now apply step_py_idle.
    + intros i y fb ap g0 sim Hy Hx.
      apply step_py_raises; now apply simulate_py_overflow.
    + intros. reflexivity.
  - destruct initial as [z|x]; [|reflexivity].
    intros Hz. apply py_float_of_int_defined, Hz.
Qed.

(** The theorem at one trial of one period: from the int 1000 the period
    step is computed on 1000.0; from the int 10^400 the runner raises. *)
Lemma runners_check_nothing_witness :
  (Z.abs 1000 < 2 ^ 1023)%Z /\
  (exists x, py_as_float (PyInt 1000) = Some x) /\
  option_map fst
    (run_multiple_simulations_py (PyInt 1) (PyInt 1000) (PyInt 1)
       (rng_of_list [true])) =
    Some ([PyFloat 1500],
          [mkTrial 1%Z [25; 26]%Z [PyInt 1000; PyFloat 1500]
                   (PyFloat 1500) 1%Z 0%Z]) /\
  run_multiple_simulations_py (PyInt 1) (PyInt (10 ^ 400)) (PyInt 1)
    (rng_of_list [true]) = None.
Proof.
  split; [reflexivity|]. split; [|split].
  - exact (proj2 (proj2 (runners_check_nothing
                           (PyInt 1) (PyInt 1000) (PyInt 1)
                           (rng_of_list [true]))) eq_refl).
  - rewrite (proj1 (runners_check_nothing (PyInt 1) (PyInt 1000) (PyInt 1)
                      (rng_of_list [true]))).
    vm_compute. reflexivity.
  - rewrite (proj1 (runners_check_nothing (PyInt 1) (PyInt (10 ^ 400))
                      (PyInt 1) (rng_of_list [true]))).
    vm_compute. reflexivity.
Defined.

(** C5, counterexample. Configurations the specification calls invalid are
    simulated like any other: a negative initial balance goes through a
    period step, a trial count of zero gives the empty batch, and a horizon
    of zero gives trials that hold the initial balance. *)
Lemma invalid_configuration_is_simulated :
  option_map fst
    (run_multiple_simulations_py (PyInt 1) (PyInt (-1000)) (PyInt 1)
       (rng_of_list [true])) =
    Some ([PyFloat (-1500)],
          [mkTrial 1%Z [25; 26]%Z [PyInt (-1000); PyFloat (-1500)]
                   (PyFloat (-1500)) 1%Z 0%Z]) /\
  option_map fst
    (run_multiple_simulations_py (PyInt 0) (PyInt 1000) (PyInt 30)
       (rng_of_list [])) = Some ([], []) /\
  option_map fst
    (run_multiple_simulations_py (PyInt 2) (PyInt 1000) (PyInt 0)
       (rng_of_list [])) =
    Some ([PyInt 1000; PyInt 1000],
          [mkTrial 1%Z [25]%Z [PyInt 1000] (PyInt 1000) 0%Z 0%Z;
           mkTrial 2%Z [25]%Z [PyInt 1000] (PyInt 1000) 0%Z 0%Z]).
Proof. vm_compute. repeat split. Qed.


(** ** Final balances and the order of the outcomes *)

Lemma count_occ_wins (flips : list bool) :
  count_occ Z.eq_dec (map Z.b2z flips) 1%Z = wins flips /\
  count_occ Z.eq_dec (map Z.b2z flips) 0%Z = losses flips.
Proof.
  split; [exact (count_occ_b2z flips true) | exact (count_occ_b2z flips false)].
Qed.

(** C3, as the code behaves. The full-stake engine multiplies the balance,
    in the order of the flips, by 1.5 on heads and by 0.6 on tails; every
    product is rounded to binary64.  Read in exact arithmetic, the same
    program ends with initial * 1.5^H * 0.6^L for H heads and L tails, in
    whatever order they fall.  With initial 1000, horizon 2 and flips
    heads, tails the binary64 trajectory is 1000, 1500, 900. *)
Theorem full_stake_final_balance :
  (forall (initial : float) (years : Z) (g : rng),
      exists ages path flips g',
        simulate_investment_game initial years g = (ages, path, flips, g') /\
        flips = map Z.b2z (draws g (Z.to_nat years)) /\
        py_last path =
          Some (fold_left
                  (fun b (heads : bool) =>
                     if heads then (b * 1.5)%float else (b * 0.6)%float)
                  (draws g (Z.to_nat years)) initial)) /\
  (forall (initial : Q) (years : Z) (g : rng),
      exists ages path flips g' last,
        simulate_investment_game initial years g = (ages, path, flips, g') /\
        py_last path = Some last /\
        (last == initial * (3 # 2) ^ Z.of_nat (count_occ Z.eq_dec flips 1%Z)
                         * (3 # 5) ^ Z.of_nat (count_occ Z.eq_dec flips 0%Z))%Q) /\
  fst (simulate_investment_game 1000%float 2 (rng_of_list [true; false])) =
    ([25; 26; 27]%Z, [1000; 1500; 900]%float, [1; 0]%Z).
Proof.
  split; [|split].
  - intros initial years g. rewrite simulate_investment_game_eq.
    do 4 eexists. split; [reflexivity|]. split; [reflexivity|].
    apply trajectory_last.
  - intros initial years g. rewrite simulate_investment_game_eq.
    do 5 eexists. split; [reflexivity|]. split; [apply trajectory_last|].
    destruct (count_occ_wins (draws g (Z.to_nat years))) as [-> ->].
    apply final_full_stake_exact.
  - vm_compute. reflexivity.
Qed.

(** C3, counterexample. From 1000, four tails and one head end at
    194.39999999999998 when the head comes last and at 194.4 when it comes
    fourth: the same counts, two final balances. *)
Lemma full_stake_final_depends_on_order :
  let flips1 := [false; false; false; false; true] in
  let flips2 := [false; false; false; true; false] in
  wins flips1 = wins flips2 /\ losses flips1 = losses flips2 /\
  fst (simulate_investment_game 1000%float 5 (rng_of_list flips1)) =
    ([25; 26; 27; 28; 29; 30]%Z,
     [1000; 600; 360; 216; 129.6; 194.39999999999998]%float,
     [0; 0; 0; 0; 1]%Z) /\
  fst (simulate_investment_game 1000%float 5 (rng_of_list flips2)) =
    ([25; 26; 27; 28; 29; 30]%Z,
     [1000; 600; 360; 216; 324; 194.4]%float,
     [0; 0; 0; 1; 0]%Z) /\
  (194.39999999999998 =? 194.4)%float = false.
Proof. vm_compute. repeat split. Qed.

(** C2, as the code behaves. The half-stake engine replaces the balance [b],
    in the order of the flips, by [b*0.5 + (b*0.5)*1.5] on heads and by
    [b*0.5 + (b*0.5)*0.6] on tails; every product and sum is rounded to
    binary64.  Read in exact arithmetic, the same program ends with
    initial * 1.25^H * 0.8^L for H heads and L tails, in whatever order they
    fall.  With initial 1000, horizon 2 and flips heads, tails the binary64
    trajectory is 1000, 1250, 1000. *)
Theorem half_stake_final_balance :
  (forall (initial : float) (years : Z) (g : rng),
      exists ages path flips bets g',
        simulate_modified_investment_game initial years g =
          (ages, path, flips, bets, g') /\
        flips = map Z.b2z (draws g (Z.to_nat years)) /\
        py_last path =
          Some (fold_left
                  (fun b (heads : bool) =>
                     if heads then (b * 0.5 + b * 0.5 * 1.5)%float
                     else (b * 0.5 + b * 0.5 * 0.6)%float)
                  (draws g (Z.to_nat years)) initial)) /\
  (forall (initial : Q) (years : Z) (g : rng),
      exists ages path flips bets g' last,
        simulate_modified_investment_game initial years g =
          (ages, path, flips, bets, g') /\
        py_last path = Some last /\
        (last == initial * (5 # 4) ^ Z.of_nat (count_occ Z.eq_dec flips 1%Z)
                         * (4 # 5) ^ Z.of_nat (count_occ Z.eq_dec flips 0%Z))%Q) /\
  fst (simulate_modified_investment_game 1000%float 2
         (rng_of_list [true; false])) =
    ([25; 26; 27]%Z, [1000; 1250; 1000]%float, [1; 0]%Z, [500; 625]%float).
Proof.
  split; [|split].
  - intros initial years g.
    destruct (simulate_modified_investment_game_eq initial years g)
      as [bets ->].
    do 5 eexists. split; [reflexivity|]. split; [reflexivity|].
    rewrite trajectory_last. f_equal. unfold final.
    generalize initial. induction (draws g (Z.to_nat years)) as [|[] fs IH];
      intros b; [reflexivity| |]; cbn [fold_left]; apply IH.
  - intros initial years g.
    destruct (simulate_modified_investment_game_eq initial years g)
      as [bets ->].
    do 6 eexists. split; [reflexivity|]. split; [apply trajectory_last|].
    destruct (count_occ_wins (draws g (Z.to_nat years))) as [-> ->].
    apply final_half_stake_exact.
  - vm_compute. reflexivity.
Qed.

(** C2, counterexample. From 1000, eleven tails and one head end at
    107.37418240000001 when the head comes last and at 107.3741824 when it
    comes eleventh: the same counts, two final balances. *)
Lemma half_stake_final_depends_on_order :
  let flips1 := repeat false 11 ++ [true] in
  let flips2 := repeat false 10 ++ [true; false] in
  wins flips1 = wins flips2 /\ losses flips1 = losses flips2 /\
  py_last (snd (fst (fst (fst
    (simulate_modified_investment_game 1000%float 12 (rng_of_list flips1))))))
    = Some 107.37418240000001%float /\
  py_last (snd (fst (fst (fst
    (simulate_modified_investment_game 1000%float 12 (rng_of_list flips2))))))
    = Some 107.3741824%float /\
  (107.37418240000001 =? 107.3741824)%float = false.
Proof. vm_compute. repeat split. Qed.

(** ** Sign of the balances *)

(** C8, as the code behaves. From a positive initial balance, every balance
    of a full-stake trajectory is strictly positive in binary64.  Every
    balance of a half-stake trajectory is strictly positive as well, unless
    the initial balance is the smallest positive binary64 number [2^-1074]:
    from that one the balance is 0 after the first period and stays 0.  Read
    in exact arithmetic, every balance of either engine is strictly
    positive. *)
Theorem balances_nonnegative :
  (forall (initial : float) (years : Z) (g : rng),
      (0 <? initial)%float = true ->
      (forall ages path flips g',
          simulate_investment_game initial years g = (ages, path, flips, g') ->
          Forall (fun b => (0 <? b)%float = true) path) /\
      (forall ages path flips bets g',
          simulate_modified_investment_game initial years g =
            (ages, path, flips, bets, g') ->
          Forall (fun b => (0 <=? b)%float = true) path /\
          if (initial =? 0x1p-1074)%float
          then path = initial :: repeat 0%float (Z.to_nat years)
          else Forall (fun b => (0 <? b)%float = true) path)) /\
  (forall (initial : Q) (years : Z) (g : rng),
      (0 < initial)%Q ->
      (forall ages path flips g',
          simulate_investment_game initial years g = (ages, path, flips, g') ->
          Forall (fun b => (0 < b)%Q) path) /\
      (forall ages path flips bets g',
          simulate_modified_investment_game initial years g =
            (ages, path, flips, bets, g') ->
          Forall (fun b => (0 < b)%Q) path)).
Proof.
  split.
  - intros initial years g Hpos. split.
    + intros ages path flips g' Hsim.
      rewrite simulate_investment_game_eq in Hsim. inversion Hsim; subst.
      apply (trajectory_Forall (fun b => (0 <? b)%float = true));
        [apply full_stake_update_pos_float | exact Hpos].
    + intros ages path flips bets g' Hsim.
      destruct (simulate_modified_investment_game_eq initial years g)
        as [bets' Heq].
      rewrite Heq in Hsim. inversion Hsim; subst. split.
      * apply ltb_0_nonneg in Hpos.
        eapply Forall_impl; [intros b Hb; apply nonneg_leb_0, Hb|].
        apply (trajectory_Forall (fun b => SFnonneg (Prim2SF b) = true));
          [apply half_stake_update_nonneg | exact Hpos].
      * destruct (initial =? 0x1p-1074)%float eqn:Hmin.
        -- apply eqb_min_eq in Hmin. subst initial.
           now rewrite trajectory_from_min, draws_length.
        -- eapply Forall_impl;
             [intros b Hb; apply ltb_0_pos, SFabove_min_pos, Hb|].
           apply (trajectory_Forall
                    (fun b => SFabove_min (Prim2SF b) = true));
             [apply half_stake_update_above
             | now apply above_min_cases].
  - intros initial years g Hpos. split.
    + intros ages path flips g' Hsim.
      rewrite simulate_investment_game_eq in Hsim. inversion Hsim; subst.
      apply (trajectory_Forall (fun b => (0 < b)%Q));
        [apply full_stake_update_pos | exact Hpos].
    + intros ages path flips bets g' Hsim.
      destruct (simulate_modified_investment_game_eq initial years g)
        as [bets' Heq].
      rewrite Heq in Hsim. inversion Hsim; subst.
      apply (trajectory_Forall (fun b => (0 < b)%Q));
        [apply half_stake_update_pos | exact Hpos].
Qed.

(** The theorem at initial balance 1000, horizon 2, flips heads, tails. *)
Lemma balances_nonnegative_witness :
  (0 <? 1000)%float = true /\
  Forall (fun b => (0 <? b)%float = true) [1000; 1500; 900]%float /\
  Forall (fun b => (0 <? b)%float = true) [1000; 1250; 1000]%float.
Proof.
  split; [reflexivity|]. split.
  - apply (proj1 (proj1 balances_nonnegative 1000%float 2%Z
                    (rng_of_list [true; false]) eq_refl)
                 [25; 26; 27]%Z _ [1; 0]%Z
                 (advance (rng_of_list [true; false]) 2)).
    reflexivity.
  - exact (proj2 (proj2 (proj1 balances_nonnegative 1000%float 2%Z
                           (rng_of_list [true; false]) eq_refl)
                        [25; 26; 27]%Z [1000; 1250; 1000]%float [1; 0]%Z
                        [500; 625]%float
                        (advance (rng_of_list [true; false]) 2)
                        eq_refl)).
Defined.

(** C8, counterexample. The smallest positive binary64 number is a positive
    initial balance; its half rounds to zero, so the half-stake engine moves
    from it to the balance 0, which is not strictly positive. *)
Lemma half_stake_underflows_to_zero :
  (0 <? 0x1p-1074)%float = true /\
  fst (simulate_modified_investment_game 0x1p-1074%float 1
         (rng_of_list [true])) =
    ([25; 26]%Z, [0x1p-1074; 0]%float, [1]%Z, [0]%float) /\
  (0 <? 0)%float = false.
Proof. vm_compute. repeat split. Qed.


(** ** Counting over masks *)

Lemma np_sum_mask_map {A : Type} (p : A -> bool) (xs : list A) :
  np_sum_mask (map p xs) = count p xs.
Proof.
  unfold np_sum_mask, count. f_equal.
  induction xs as [|x xs IH]; [reflexivity|].
  cbn [map filter count_occ]. rewrite IH.
  destruct (p x); [destruct (bool_dec true true) | destruct (bool_dec false true)];
    simpl; congruence.
Qed.

Lemma count_remainder {A : Type} (p q : A -> bool) (xs : list A) :
  (forall x, p x = true -> q x = false) ->
  count (fun x => negb (p x) && negb (q x)) xs =
  (len xs - count p xs - count q xs)%Z.
Proof.
  intros Hpq. unfold count, len.
  induction xs as [|x xs IH]; [reflexivity|].
  cbn [filter length]. pose proof (Hpq x) as Hx.
  destruct (p x), (q x); cbn [negb andb length];
    try discriminate (Hx eq_refl); lia.
Qed.

Lemma count_le {A : Type} (p q : A -> bool) (xs : list A) :
  (forall x, p x = true -> q x = true) -> (count p xs <= count q xs)%Z.
Proof.
  intros Hpq. unfold count.
  induction xs as [|x xs IH]; [reflexivity|].
  cbn [filter length]. pose proof (Hpq x) as Hx.
  destruct (p x), (q x); cbn [length];
    try discriminate (Hx eq_refl); lia.
Qed.

Lemma profitable_not_catastrophic (initial_balance x : float) :
  (100 <=? initial_balance)%float = true ->
  is_catastrophic x = true -> is_profitable initial_balance x = false.
Proof. intros Hle Hc. exact (float_below_above _ _ _ Hle Hc). Qed.

Lemma high_value_profitable (initial_balance x : float) :
  (initial_balance <=? 10000)%float = true ->
  is_high_value x = true -> is_profitable initial_balance x = true.
Proof. intros Hle Hh. exact (float_le_lt_trans _ _ _ Hle Hh). Qed.

(** ** Outcome categories *)

(** C4, as the code behaves. With the initial balance at or above the lower
    threshold 100, the three categories profitable (above the initial
    balance), catastrophic (below 100) and moderate (the rest) are mutually
    exclusive and exhaustive: every final balance is in exactly one of them
    and the three counts add up to the trial count.  The high-value count
    (above 10000) is not a fourth part: when the initial balance is at most
    10000, every high-value trial is also a profitable one. *)
Theorem categories_partition
    (n_simulations : Z) (initial_balance : float)
    (final_balances : list float) :
  (100 <=? initial_balance)%float = true ->
  len final_balances = n_simulations ->
  let c := count_categories n_simulations initial_balance final_balances in
  (profitable_sims c + moderate_sims c + catastrophic_sims c)%Z
    = n_simulations /\
  profitable_sims c = count (is_profitable initial_balance) final_balances /\
  moderate_sims c = count (is_moderate initial_balance) final_balances /\
  catastrophic_sims c = count is_catastrophic final_balances /\
  high_value_sims c = count is_high_value final_balances /\
  Forall (fun x => Nat.b2n (is_profitable initial_balance x) +
                   Nat.b2n (is_moderate initial_balance x) +
                   Nat.b2n (is_catastrophic x) = 1)
         final_balances /\
  ((initial_balance <=? 10000)%float = true ->
   Forall (fun x => is_high_value x = true ->
                    is_profitable initial_balance x = true)
          final_balances /\
   (high_value_sims c <= profitable_sims c)%Z).
Proof.
  intros Hlow Hlen. unfold count_categories.
  cbn [profitable_sims moderate_sims catastrophic_sims high_value_sims].
  change (np_gt final_balances initial_balance)
    with (map (is_profitable initial_balance) final_balances).
  change (np_gt final_balances 10000%float)
    with (map is_high_value final_balances).
  change (np_lt final_balances 100%float)
    with (map is_catastrophic final_balances).
  rewrite !np_sum_mask_map.
  assert (Hexcl : forall x, is_profitable initial_balance x = true ->
                            is_catastrophic x = false).
  { intros x Hp. destruct (is_catastrophic x) eqn:Hc; [|reflexivity].
    rewrite (profitable_not_catastrophic _ _ Hlow Hc) in Hp. discriminate. }
  split; [lia|]. split; [reflexivity|].
  split.
  { unfold is_moderate. rewrite (count_remainder _ _ _ Hexcl). lia. }
  split; [reflexivity|]. split; [reflexivity|].
  split.
  { apply Forall_forall. intros x _. unfold is_moderate.
    pose proof (Hexcl x) as Hx.
    destruct (is_profitable initial_balance x), (is_catastrophic x);
      try reflexivity.
    discriminate (Hx eq_refl). }
  intros Hhigh. split.
  - apply Forall_forall. intros x _. apply high_value_profitable, Hhigh.
  - apply count_le. intros x. apply high_value_profitable, Hhigh.
Qed.

(** The theorem for the final balances 1500, 600 and 15000 of three trials
    started at 1000. *)
Lemma categories_partition_witness :
  (100 <=? 1000)%float = true /\
  len [1500; 600; 15000]%float = 3%Z /\
  (profitable_sims (count_categories 3 1000 [1500; 600; 15000]%float) +
   moderate_sims (count_categories 3 1000 [1500; 600; 15000]%float) +
   catastrophic_sims (count_categories 3 1000 [1500; 600; 15000]%float))%Z
    = 3%Z.
Proof.
  split; [reflexivity|]. split; [reflexivity|].
  exact (proj1 (categories_partition 3 1000 [1500; 600; 15000]%float
                  eq_refl eq_refl)).
Defined.

(** C4, counterexample. One half-stake trial of eleven heads ends at
    11641.532182693481.  It is counted as profitable and as high-value: the
    two categories overlap, and the four counts add up to 2 for a batch of
    one trial. *)
Lemma high_value_overlaps_profitable :
  option_map (fun b => fst (fst b))
    (run_modified_simulations 1 1000%float 11 (rng_of_list (repeat true 11)))
    = Some [11641.532182693481%float] /\
  count_categories 1 1000 [11641.532182693481%float] = mkCategories 1 1 0 0 /\
  is_profitable 1000 11641.532182693481 = true /\
  is_high_value 11641.532182693481 = true /\
  (1 + 1 + 0 + 0 <> 1)%Z.
Proof. vm_compute. repeat split. discriminate. Qed.

(** ** Statistics of an empty batch *)

(** C1, as the code behaves. On an empty batch no error is signalled: the
    mean, the median, the standard deviation and both threshold
    probabilities are computed, and each of them is NaN. *)
Theorem empty_batch_statistics (initial_balance : float) :
  let s := calculate_statistics initial_balance [] in
  PrimFloat.is_nan (mean_balance s) = true /\
  PrimFloat.is_nan (median_balance s) = true /\
  PrimFloat.is_nan (std_balance s) = true /\
  PrimFloat.is_nan (prob_above_initial s) = true /\
  PrimFloat.is_nan (prob_above_10000 s) = true.
Proof. vm_compute. repeat split. Qed.

(** C1, counterexample. A run of zero trials returns the empty batch, and
    the mean of its final balances is NaN. *)
Lemma empty_batch_mean_is_nan :
  option_map (fun b => fst (fst b))
    (run_multiple_simulations 0 1000%float 30 (rng_of_list [])) = Some [] /\
  mean_balance (calculate_statistics 1000 []) = nan /\
  PrimFloat.is_nan (mean_balance (calculate_statistics 1000 [])) = true.
Proof. vm_compute. repeat split. Qed.

(** Three one-period trials from 1000 with flips heads, tails, heads: the
    final balances are 1500, 600, 1500, their mean is 1200, two of the three
    exceed the initial balance, and two are counted as profitable. *)
Example three_trials :
  option_map (fun b => fst (fst b))
    (run_multiple_simulations 3 1000%float 1
       (rng_of_list [true; false; true])) = Some [1500; 600; 1500]%float /\
  mean_balance (calculate_statistics 1000 [1500; 600; 1500]%float)
    = 1200%float /\
  prob_above_initial (calculate_statistics 1000 [1500; 600; 1500]%float)
    = (2 / 3)%float /\
  profitable_sims (count_categories 3 1000 [1500; 600; 1500]%float) = 2%Z.
Proof. vm_compute. repeat split. Qed.

(** ** Probabilities above a threshold *)

(** C9, as the code behaves. For every non-empty batch (of fewer than 2^53
    trials) and every threshold [t], the probability of exceeding [t] is a
    number, the binary64 quotient of the number of final balances strictly
    above [t] by the number of trials: the float64 sum over the mask that
    NumPy divides by the number of trials is that number, in whatever order
    and grouping the entries are added.  In particular the probability of
    exceeding the initial balance is the profitable count divided by the
    number of trials. *)
Theorem probability_above_threshold
    (initial_balance t : float) (final_balances : list float) :
  final_balances <> [] ->
  (len final_balances < 2 ^ 53)%Z ->
  np_mean_mask (np_gt final_balances t) =
    (float_of_Z (count (fun x => (t <? x)%float) final_balances) /
     float_of_Z (len final_balances))%float /\
  (forall s : float,
      sums_to (np_astype_float (np_gt final_balances t)) s ->
      s = float_of_Z (count (fun x => (t <? x)%float) final_balances)) /\
  PrimFloat.is_nan (np_mean_mask (np_gt final_balances t)) = false /\
  prob_above_initial (calculate_statistics initial_balance final_balances) =
    (float_of_Z
       (profitable_sims
          (count_categories (len final_balances) initial_balance
                            final_balances)) /
     float_of_Z (len final_balances))%float /\
  prob_above_10000 (calculate_statistics initial_balance final_balances) =
    (float_of_Z
       (high_value_sims
          (count_categories (len final_balances) initial_balance
                            final_balances)) /
     float_of_Z (len final_balances))%float.
Proof.
  intros Hne Hlen.
  assert (Hmask : forall u, len (np_gt final_balances u) = len final_balances)
    by (intros u; unfold np_gt, len; now rewrite length_map).
  assert (Hquot : forall u,
             np_mean_mask (np_gt final_balances u) =
             (float_of_Z (np_sum_mask (np_gt final_balances u)) /
              float_of_Z (len final_balances))%float).
  { intros u. rewrite np_mean_mask_quotient by (now rewrite Hmask).
    now rewrite Hmask. }
  unfold calculate_statistics, count_categories.
  cbn [prob_above_initial prob_above_10000 profitable_sims high_value_sims].
  rewrite !Hquot. unfold np_gt at 1 2 3. rewrite !np_sum_mask_map.
  repeat split.
  - intros s Hs. rewrite <- (np_sum_mask_map (fun x => (t <? x)%float)).
    rewrite <- astype_count.
    apply (sums_to_count _ _ Hs); [apply astype_bits|].
    rewrite np_astype_float_length. fold (np_gt final_balances t).
    now rewrite Hmask.
  - rewrite <- (np_sum_mask_map (fun x => (t <? x)%float)).
    fold (np_gt final_balances t). rewrite <- Hquot.
    apply is_nan_nonneg, np_mean_mask_nonneg. rewrite Hmask.
    unfold len in *. destruct final_balances; [congruence|].
    cbn [length] in *. lia.
Qed.

(** The theorem for the final balances 1500, 600, 1500 and threshold
    1000. *)
Lemma probability_above_threshold_witness :
  [1500; 600; 1500]%float <> [] /\
  (len [1500; 600; 1500]%float < 2 ^ 53)%Z /\
  np_mean_mask (np_gt [1500; 600; 1500]%float 1000) =
    (float_of_Z 2 / float_of_Z 3)%float.
Proof.
  split; [discriminate|]. split; [reflexivity|].
  exact (proj1 (probability_above_threshold 1000 1000
                  [1500; 600; 1500]%float ltac:(discriminate) eq_refl)).
Defined.

(** C9, counterexample. In a batch of 100 one-period trials of which 7 are
    won, the probability of exceeding the initial balance is 0.07 and the
    profitable count is 7, but 0.07 times 100 is 7.000000000000001 in
    binary64. *)
Lemma probability_times_count_is_rounded :
  let final_balances :=
    (repeat 1500 7 ++ repeat 600 93)%float in
  option_map (fun b => fst (fst b))
    (run_multiple_simulations 100 1000%float 1 (rng_of_list (repeat true 7)))
    = Some final_balances /\
  prob_above_initial (calculate_statistics 1000 final_balances) = 0.07%float /\
  profitable_sims (count_categories 100 1000 final_balances) = 7%Z /\
  (0.07 * float_of_Z 100)%float = 7.000000000000001%float /\
  (0.07 * float_of_Z 100 =? float_of_Z 7)%float = false.
Proof. vm_compute. repeat split. Qed.

(** ** Positions in a trajectory *)

Lemma nth_error_map_seq {A : Type} (F : nat -> A) (n i : nat) :
  i < n -> nth_error (map F (seq 0 n)) i = Some (F i).
Proof.
  intros Hi. rewrite nth_error_map.
  rewrite (nth_error_nth' _ 0) by (now rewrite length_seq).
  now rewrite seq_nth.
Qed.

Lemma firstn_succ_nth {A : Type} (xs : list A) :
  forall i x, nth_error xs i = Some x -> firstn (S i) xs = firstn i xs ++ [x].
Proof.
  induction xs as [|y ys IH]; intros [|i] x Hx; try discriminate.
  - inversion Hx. reflexivity.
  - cbn [nth_error] in Hx.
    change (y :: firstn (S i) ys = y :: (firstn i ys ++ [x])).
    f_equal. exact (IH i x Hx).
Qed.

Lemma trajectory_as_map {num : Type} (upd : num -> bool -> num)
    (fs : list bool) :
  forall b,
    trajectory upd b fs =
    map (fun i => final upd b (firstn i fs)) (seq 0 (S (length fs))).
Proof.
  induction fs as [|f fs IH]; intros b; [reflexivity|].
  cbn [trajectory length]. rewrite IH.
  change (seq 0 (S (S (length fs)))) with (0 :: seq 1 (S (length fs))).
  rewrite <- seq_shift, map_cons, map_map. reflexivity.
Qed.

Lemma trajectory_nth {num : Type} (upd : num -> bool -> num)
    (fs : list bool) (b : num) (i : nat) :
  i <= length fs ->
  nth_error (trajectory upd b fs) i = Some (final upd b (firstn i fs)).
Proof.
  intros Hi. rewrite trajectory_as_map.
  now rewrite (nth_error_map_seq (fun k => final upd b (firstn k fs))) by lia.
Qed.

Lemma trajectory_step {num : Type} (upd : num -> bool -> num)
    (fs : list bool) (b : num) (i : nat) (f : bool) :
  nth_error fs i = Some f ->
  nth_error (trajectory upd b fs) i = Some (final upd b (firstn i fs)) /\
  nth_error (trajectory upd b fs) (S i) =
    Some (upd (final upd b (firstn i fs)) f).
Proof.
  intros Hf.
  assert (Hi : i < length fs) by (apply nth_error_Some; congruence).
  rewrite !trajectory_nth by lia.
  now rewrite (firstn_succ_nth fs i f Hf), final_snoc.
Qed.

Lemma nth_error_b2z (fs : list bool) (i : nat) (flip : Z) :
  nth_error (map Z.b2z fs) i = Some flip ->
  exists f, nth_error fs i = Some f /\ (flip =? 1)%Z = f.
Proof.
  rewrite nth_error_map. destruct (nth_error fs i) as [f|]; [|discriminate].
  intros Hflip. inversion Hflip. exists f. split; [reflexivity|].
  apply b2z_eqb_1.
Qed.

Lemma bets_of_snoc {num : Type} `{PyNum num} (fs : list bool) :
  forall (b : num) (f : bool),
    bets_of b (fs ++ [f]) =
    bets_of b fs ++ [mul (final half_stake_update b fs) lit_0_5].
Proof.
  induction fs as [|f0 fs IH]; intros b f; [reflexivity|].
  cbn [app bets_of]. now rewrite IH.
Qed.

Lemma bets_of_nth {num : Type} `{PyNum num} (fs : list bool) :
  forall (b : num) (i : nat) (f : bool),
    nth_error fs i = Some f ->
    nth_error (bets_of b fs) i =
      Some (mul (final half_stake_update b (firstn i fs)) lit_0_5).
Proof.
  induction fs as [|f0 fs IH]; intros b [|i] f Hf; try discriminate.
  - reflexivity.
  - cbn [nth_error] in Hf. cbn [bets_of nth_error firstn].
    rewrite final_cons. exact (IH _ i f Hf).
Qed.

Lemma bets_of_length {num : Type} `{PyNum num} (fs : list bool) :
  forall b : num, length (bets_of b fs) = length fs.
Proof. induction fs as [|f fs IH]; intros b; simpl; [|rewrite IH]; reflexivity. Qed.

Lemma half_stake_bets {num : Type} `{PyNum num} (initial : num) (g : rng)
    (n : nat) :
  bet_amounts (fold_left half_stake_year (range (Z.of_nat n))
                         (locals_init initial g)) =
  bets_of initial (draws g n).
Proof.
  induction n as [|n IH]; [reflexivity|].
  rewrite range_succ, fold_left_app.
  pose proof (half_stake_loop initial g n) as Hloop. cbv zeta in Hloop.
  destruct (fold_left _ (range (Z.of_nat n)) _) as [b p a c bets g0].
  cbn [balance path ages coin_flips gen bet_amounts] in Hloop, IH.
  destruct Hloop as (-> & _ & _ & _ & ->). subst bets.
  cbn [fold_left]. unfold half_stake_year, binomial.
  cbn [balance bet_amounts gen].
  now rewrite draws_succ, bets_of_snoc.
Qed.

Lemma simulate_modified_investment_game_bets {num : Type} `{PyNum num}
    (initial : num) (years : Z) (g : rng) :
  simulate_modified_investment_game initial years g =
  ((ages_upto (Z.to_nat years),
    trajectory half_stake_update initial (draws g (Z.to_nat years)),
    map Z.b2z (draws g (Z.to_nat years)),
    bets_of initial (draws g (Z.to_nat years))),
   advance g (Z.to_nat years)).
Proof.
  unfold simulate_modified_investment_game. rewrite range_nat.
  destruct (half_stake_loop initial g (Z.to_nat years))
    as (_ & Hp & Ha & Hc & Hg).
  cbv zeta. now rewrite Hp, Ha, Hc, Hg, half_stake_bets.
Qed.

(** ** Period steps along a trajectory *)

(** X1. The first balance of the trajectory returned by
    [simulate_investment_game] is the initial balance, and each later balance
    is the one before it times 1.5 when the flip of that year is 1 and times
    0.6 otherwise. *)
Theorem full_stake_steps (initial : float) (years : Z) (g : rng) :
  exists ages path flips g',
    simulate_investment_game initial years g = (ages, path, flips, g') /\
    nth_error path 0 = Some initial /\
    forall i flip,
      nth_error flips i = Some flip ->
      exists before after,
        nth_error path i = Some before /\
        nth_error path (S i) = Some after /\
        after = (if (flip =? 1)%Z then before * 1.5 else before * 0.6)%float.
Proof.
  rewrite simulate_investment_game_eq. do 4 eexists.
  split; [reflexivity|]. split; [now destruct (draws g (Z.to_nat years))|].
  intros i flip Hflip.
  destruct (nth_error_b2z _ _ _ Hflip) as (f & Hf & ->).
  destruct (trajectory_step full_stake_update _ initial i f Hf) as [H0 H1].
  do 2 eexists. split; [exact H0|]. split; [exact H1|].
  now destruct f.
Qed.

(** X2. [simulate_modified_investment_game] records one bet per flip; each bet
    is half of the balance before that year, and the balance after the year is
    the unbet half plus the bet times 1.5 when the flip is 1 and times 0.6
    otherwise. *)
Theorem half_stake_steps (initial : float) (years : Z) (g : rng) :
  exists ages path flips bets g',
    simulate_modified_investment_game initial years g =
      (ages, path, flips, bets, g') /\
    nth_error path 0 = Some initial /\
    length bets = length flips /\
    forall i flip,
      nth_error flips i = Some flip ->
      exists before bet after,
        nth_error path i = Some before /\
        nth_error bets i = Some bet /\
        nth_error path (S i) = Some after /\
        bet = (before * 0.5)%float /\
        after = (before * 0.5 +
                 (if (flip =? 1)%Z then bet * 1.5 else bet * 0.6))%float.
Proof.
  rewrite simulate_modified_investment_game_bets. do 5 eexists.
  split; [reflexivity|]. split; [now destruct (draws g (Z.to_nat years))|].
  split; [now rewrite bets_of_length, length_map|].
  intros i flip Hflip.
  destruct (nth_error_b2z _ _ _ Hflip) as (f & Hf & ->).
  destruct (trajectory_step half_stake_update _ initial i f Hf) as [H0 H1].
  do 3 eexists. split; [exact H0|].
  split; [exact (bets_of_nth _ initial i f Hf)|].
  split; [exact H1|]. split; [reflexivity|].
  now destruct f.
Qed.

(** ** Ages, flips and the generator *)

Lemma ages_upto_nth (n i : nat) :
  i < S n -> nth_error (ages_upto n) i = Some (age_start + Z.of_nat i)%Z.
Proof.
  intros Hi. unfold ages_upto.
  now rewrite (nth_error_map_seq (fun k => (age_start + Z.of_nat k)%Z)).
Qed.

Lemma ages_upto_length (n : nat) : length (ages_upto n) = S n.
Proof. unfold ages_upto. now rewrite length_map, length_seq. Qed.

Lemma draws_nth (g : rng) (n i : nat) :
  i < n -> nth_error (draws g n) i = Some (stream g (cursor g + i)).
Proof.
  intros Hi. unfold draws.
  now rewrite (nth_error_map_seq (fun k => stream g (cursor g + k))).
Qed.

(** X3. Both engines return as many ages as balances, and the age at
    position [i] is 25 + [i]: zipping the two lists pairs every balance with
    the age at which it is reached. *)
Theorem ages_line_up {num : Type} `{PyNum num}
    (initial : num) (years : Z) (g : rng) :
  (exists ages path flips g',
      simulate_investment_game initial years g = (ages, path, flips, g') /\
      length ages = length path /\
      forall i, i < length ages ->
                nth_error ages i = Some (25 + Z.of_nat i)%Z) /\
  (exists ages path flips bets g',
      simulate_modified_investment_game initial years g =
        (ages, path, flips, bets, g') /\
      length ages = length path /\
      forall i, i < length ages ->
                nth_error ages i = Some (25 + Z.of_nat i)%Z).
Proof.
  split.
  - rewrite simulate_investment_game_eq. do 4 eexists.
    split; [reflexivity|].
    rewrite ages_upto_length, trajectory_length, draws_length.
    split; [reflexivity|]. intros i Hi. now apply ages_upto_nth.
  - rewrite simulate_modified_investment_game_bets. do 5 eexists.
    split; [reflexivity|].
    rewrite ages_upto_length, trajectory_length, draws_length.
    split; [reflexivity|]. intros i Hi. now apply ages_upto_nth.
Qed.

(** X4. Both engines record only 0 and 1 as coin flips; the flip at position
    [i] is the [i]-th pending draw of the generator, and the generator comes
    back with the same stream and its cursor moved by the number of flips. *)
Theorem flips_are_draws {num : Type} `{PyNum num}
    (initial : num) (years : Z) (g : rng) :
  (exists ages path flips g',
      simulate_investment_game initial years g = (ages, path, flips, g') /\
      Forall (fun f => f = 0%Z \/ f = 1%Z) flips /\
      (forall i, i < length flips ->
                 nth_error flips i = Some (Z.b2z (stream g (cursor g + i)))) /\
      stream g' = stream g /\ cursor g' = cursor g + length flips) /\
  (exists ages path flips bets g',
      simulate_modified_investment_game initial years g =
        (ages, path, flips, bets, g') /\
      Forall (fun f => f = 0%Z \/ f = 1%Z) flips /\
      (forall i, i < length flips ->
                 nth_error flips i = Some (Z.b2z (stream g (cursor g + i)))) /\
      stream g' = stream g /\ cursor g' = cursor g + length flips).
Proof.
  assert (Hflips : forall n,
    Forall (fun f => f = 0%Z \/ f = 1%Z) (map Z.b2z (draws g n)) /\
    (forall i, i < length (map Z.b2z (draws g n)) ->
       nth_error (map Z.b2z (draws g n)) i =
         Some (Z.b2z (stream g (cursor g + i)))) /\
    stream (advance g n) = stream g /\
    cursor (advance g n) = cursor g + length (map Z.b2z (draws g n))).
  { intros n. rewrite length_map, draws_length. repeat split.
    - apply Forall_map, Forall_forall. intros [] _; auto.
    - intros i Hi. now rewrite nth_error_map, draws_nth. }
  split.
  - rewrite simulate_investment_game_eq. do 4 eexists.
    split; [reflexivity | apply Hflips].
  - rewrite simulate_modified_investment_game_bets. do 5 eexists.
    split; [reflexivity | apply Hflips].
Qed.

(** X5. With a horizon that is not positive, both engines return the initial
    balance alone, at age 25, with no flip (and no bet), and leave the
    generator as it was; a runner then records the initial balance as the
    final balance of every trial and consumes no draw. *)
Theorem no_period_without_horizon {num : Type} `{PyNum num}
    (n_sims : Z) (initial : num) (years : Z) (g : rng) :
  (years <= 0)%Z ->
  simulate_investment_game initial years g = ([25%Z], [initial], [], g) /\
  simulate_modified_investment_game initial years g =
    ([25%Z], [initial], [], [], g) /\
  option_map (fun b => (fst (fst b), snd b))
             (run_multiple_simulations n_sims initial years g) =
    Some (repeat initial (Z.to_nat n_sims), g) /\
  option_map (fun b => (fst (fst b), snd b))
             (run_modified_simulations n_sims initial years g) =
    Some (repeat initial (Z.to_nat n_sims), g).
Proof.
  intros Hy.
  assert (Hn : Z.to_nat years = 0) by lia.
  assert (Hrep : forall (upd : num -> bool -> num) n,
             map (fun j => final upd initial
                             (draws (rng_at g years j) (Z.to_nat years)))
                 (seq 0 n) = repeat initial n).
  { intros upd n. rewrite Hn.
    induction n as [|n IH]; [reflexivity|].
    rewrite seq_S, map_app, IH. cbn [map]. unfold draws, final. cbn.
    now rewrite repeat_cons. }
  assert (Hg : forall n, rng_at g years n = g).
  { intros n. unfold rng_at. rewrite Hn, Nat.mul_0_r. apply advance_0. }
  rewrite simulate_investment_game_eq, simulate_modified_investment_game_bets.
  rewrite run_multiple_simulations_eq, run_modified_simulations_eq.
  cbn [option_map fst snd]. rewrite !Hrep, Hg, Hn, advance_0.
  repeat split.
Qed.

(** The theorem for horizon 0 and three trials from 1000. *)
Lemma no_period_without_horizon_witness :
  (0 <= 0)%Z /\
  simulate_investment_game 1000%float 0 (rng_of_list [true]) =
    ([25%Z], [1000%float], [], rng_of_list [true]).
Proof.
  split; [lia|].
  exact (proj1 (@no_period_without_horizon float binary64 3 1000%float 0
                  (rng_of_list [true]) ltac:(lia))).
Defined.

(** ** Batches of a runner *)

Lemma map_seq_offset {A : Type} (F : nat -> A) (n : nat) :
  forall a, map F (seq a n) = map (fun j => F (a + j)) (seq 0 n).
Proof.
  induction n as [|n IH]; intros a; [reflexivity|].
  cbn [seq map]. rewrite Nat.add_0_r. f_equal.
  rewrite IH, <- seq_shift, map_map.
  apply map_ext. intros j. f_equal. lia.
Qed.

Lemma rng_at_add (g : rng) (years : Z) (a j : nat) :
  rng_at g years (a + j) = rng_at (rng_at g years a) years j.
Proof.
  unfold rng_at. rewrite advance_advance. f_equal. lia.
Qed.

Lemma nth_error_map_seq_ext {A : Type} (F G : nat -> A) (n j : nat) :
  F j = G j ->
  nth_error (map F (seq 0 n)) j = nth_error (map G (seq 0 n)) j.
Proof.
  intros HFG. destruct (Nat.lt_ge_cases j n) as [Hj|Hj].
  - now rewrite (nth_error_map_seq F), (nth_error_map_seq G), HFG.
  - transitivity (@None A); [|symmetry];
      apply nth_error_None; now rewrite length_map, length_seq.
Qed.

Section Batches.

Context {num : Type} `{PyNum num}.
Variable upd : num -> bool -> num.
Variables (initial : num) (years : Z).

Lemma finals_split (g : rng) (a b : nat) :
  batch_finals upd initial years g (a + b) =
  batch_finals upd initial years g a ++
  batch_finals upd initial years (rng_at g years a) b.
Proof.
  unfold batch_finals. rewrite seq_app, map_app. f_equal.
  rewrite map_seq_offset. apply map_ext. intros j.
  cbn [Nat.add]. now rewrite rng_at_add.
Qed.

Lemma records_split (g : rng) (a b : nat) :
  map balances (batch_records upd initial years g (a + b)) =
    map balances (batch_records upd initial years g a) ++
    map balances (batch_records upd initial years (rng_at g years a) b) /\
  map simulation (batch_records upd initial years g (a + b)) =
    map simulation (batch_records upd initial years g a) ++
    map (fun s => (Z.of_nat a + s)%Z)
        (map simulation (batch_records upd initial years (rng_at g years a) b)).
Proof.
  unfold batch_records. rewrite seq_app, !map_app, !map_map.
  split; f_equal; rewrite map_seq_offset; apply map_ext; intros j;
    unfold trial_at; cbn [balances simulation Nat.add].
  - now rewrite rng_at_add.
  - lia.
Qed.

Lemma records_finals (g : rng) (n : nat) :
  batch_finals upd initial years g n =
    map final_balance (batch_records upd initial years g n) /\
  map simulation (batch_records upd initial years g n) =
    map (fun s => (s + 1)%Z) (range (Z.of_nat n)).
Proof.
  unfold batch_finals, batch_records, range.
  rewrite Nat2Z.id, !map_map. split; reflexivity.
Qed.

Lemma records_local (g1 g2 : rng) (n j : nat) :
  (forall i, i < Z.to_nat years ->
     stream g1 (cursor g1 + j * Z.to_nat years + i) =
     stream g2 (cursor g2 + j * Z.to_nat years + i)) ->
  nth_error (batch_finals upd initial years g1 n) j =
    nth_error (batch_finals upd initial years g2 n) j /\
  nth_error (batch_records upd initial years g1 n) j =
    nth_error (batch_records upd initial years g2 n) j.
Proof.
  intros Hagree.
  assert (Hd : draws (rng_at g1 years j) (Z.to_nat years) =
               draws (rng_at g2 years j) (Z.to_nat years)).
  { unfold draws, rng_at, advance. cbn [stream cursor].
    apply map_ext_in. intros i Hi. apply in_seq in Hi. apply Hagree. lia. }
  unfold batch_finals, batch_records.
  split; apply nth_error_map_seq_ext; unfold trial_at; now rewrite Hd.
Qed.

End Batches.

(** X6. A run of [n1 + n2] trials is a run of [n1] trials followed by a run
    of [n2] trials on the generator the first run leaves: the final balances
    and the trajectories are those of the two runs one after the other, and
    the simulation numbers of the second run are shifted by [n1].  This holds
    for both runners. *)
Theorem runner_splits {num : Type} `{PyNum num}
    (n1 n2 : Z) (initial : num) (years : Z) (g : rng) :
  (0 <= n1)%Z -> (0 <= n2)%Z ->
  (exists fb1 ap1 g1 fb2 ap2 g2 ap,
      run_multiple_simulations n1 initial years g = Some (fb1, ap1, g1) /\
      run_multiple_simulations n2 initial years g1 = Some (fb2, ap2, g2) /\
      run_multiple_simulations (n1 + n2) initial years g =
        Some (fb1 ++ fb2, ap, g2) /\
      map balances ap = map balances ap1 ++ map balances ap2 /\
      map simulation ap =
        map simulation ap1 ++ map (fun s => (n1 + s)%Z) (map simulation ap2)) /\
  (exists fb1 ap1 g1 fb2 ap2 g2 ap,
      run_modified_simulations n1 initial years g = Some (fb1, ap1, g1) /\
      run_modified_simulations n2 initial years g1 = Some (fb2, ap2, g2) /\
      run_modified_simulations (n1 + n2) initial years g =
        Some (fb1 ++ fb2, ap, g2) /\
      map balances ap = map balances ap1 ++ map balances ap2 /\
      map simulation ap =
        map simulation ap1 ++ map (fun s => (n1 + s)%Z) (map simulation ap2)).
Proof.
  intros H1 H2.
  assert (Hn : Z.to_nat (n1 + n2) = Z.to_nat n1 + Z.to_nat n2) by lia.
  split.
  - do 7 eexists.
    split; [apply run_multiple_simulations_eq|].
    split; [apply run_multiple_simulations_eq|].
    destruct (records_split full_stake_update initial years g
                (Z.to_nat n1) (Z.to_nat n2)) as [Hb Hs].
    rewrite Z2Nat.id in Hs by exact H1.
    split; [|split; [exact Hb | exact Hs]].
    rewrite run_multiple_simulations_eq, Hn.
    pose proof (finals_split full_stake_update initial years g
                  (Z.to_nat n1) (Z.to_nat n2)) as Hf.
    unfold batch_finals, batch_records in *. now rewrite Hf, rng_at_add.
  - do 7 eexists.
    split; [apply run_modified_simulations_eq|].
    split; [apply run_modified_simulations_eq|].
    destruct (records_split half_stake_update initial years g
                (Z.to_nat n1) (Z.to_nat n2)) as [Hb Hs].
    rewrite Z2Nat.id in Hs by exact H1.
    split; [|split; [exact Hb | exact Hs]].
    rewrite run_modified_simulations_eq, Hn.
    pose proof (finals_split half_stake_update initial years g
                  (Z.to_nat n1) (Z.to_nat n2)) as Hf.
    unfold batch_finals, batch_records in *. now rewrite Hf, rng_at_add.
Qed.

(** The theorem for one trial followed by two, of one year each. *)
Lemma runner_splits_witness :
  (0 <= 1)%Z /\ (0 <= 2)%Z /\
  exists fb1 ap1 g1 fb2 ap2 g2 ap,
    run_multiple_simulations 1 1000%float 1
      (rng_of_list [true; false; true]) = Some (fb1, ap1, g1) /\
    run_multiple_simulations 2 1000%float 1 g1 = Some (fb2, ap2, g2) /\
    run_multiple_simulations (1 + 2) 1000%float 1
      (rng_of_list [true; false; true]) = Some (fb1 ++ fb2, ap, g2) /\
    map balances ap = map balances ap1 ++ map balances ap2 /\
    map simulation ap =
      map simulation ap1 ++ map (fun s => (1 + s)%Z) (map simulation ap2).
Proof.
  split; [lia|]. split; [lia|].
  exact (proj1 (@runner_splits float binary64 1 2 1000%float 1
                  (rng_of_list [true; false; true])
                  ltac:(lia) ltac:(lia))).
Defined.

(** X7. In the batch of either runner, [final_balances] is the list of the
    [final_balance] fields of [all_paths], in the same order, and the
    [simulation] fields count 1, 2, ... in the order of generation. *)
Theorem batch_is_numbered {num : Type} `{PyNum num}
    (n_sims : Z) (initial : num) (years : Z) (g : rng) :
  (exists final_balances all_paths g',
      run_multiple_simulations n_sims initial years g =
        Some (final_balances, all_paths, g') /\
      final_balances = map final_balance all_paths /\
      map simulation all_paths = map (fun s => (s + 1)%Z) (range n_sims)) /\
  (exists final_balances all_paths g',
      run_modified_simulations n_sims initial years g =
        Some (final_balances, all_paths, g') /\
      final_balances = map final_balance all_paths /\
      map simulation all_paths = map (fun s => (s + 1)%Z) (range n_sims)).
Proof.
  split.
  - rewrite run_multiple_simulations_eq. do 3 eexists.
    split; [reflexivity|]. rewrite (range_nat n_sims).
    apply (records_finals full_stake_update).
  - rewrite run_modified_simulations_eq. do 3 eexists.
    split; [reflexivity|]. rewrite (range_nat n_sims).
    apply (records_finals half_stake_update).
Qed.

(** X8. The record and the final balance of trial [j] (0-based) depend on
    the generator only through draws [j * years] to [(j + 1) * years - 1]:
    two runs on generators that agree on these draws have the same entry at
    position [j], whatever the other draws are.  This holds for both
    runners. *)
Theorem trial_uses_its_own_draws {num : Type} `{PyNum num}
    (n_sims : Z) (initial : num) (years : Z) (g1 g2 : rng) (j : nat) :
  (forall i, i < Z.to_nat years ->
     stream g1 (cursor g1 + j * Z.to_nat years + i) =
     stream g2 (cursor g2 + j * Z.to_nat years + i)) ->
  (exists fb1 ap1 g1' fb2 ap2 g2',
      run_multiple_simulations n_sims initial years g1 = Some (fb1, ap1, g1') /\
      run_multiple_simulations n_sims initial years g2 = Some (fb2, ap2, g2') /\
      nth_error fb1 j = nth_error fb2 j /\
      nth_error ap1 j = nth_error ap2 j) /\
  (exists fb1 ap1 g1' fb2 ap2 g2',
      run_modified_simulations n_sims initial years g1 = Some (fb1, ap1, g1') /\
      run_modified_simulations n_sims initial years g2 = Some (fb2, ap2, g2') /\
      nth_error fb1 j = nth_error fb2 j /\
      nth_error ap1 j = nth_error ap2 j).
Proof.
  intros Hagree. split.
  - rewrite !run_multiple_simulations_eq. do 6 eexists.
    split; [reflexivity|]. split; [reflexivity|].
    apply (records_local full_stake_update). exact Hagree.
  - rewrite !run_modified_simulations_eq. do 6 eexists.
    split; [reflexivity|]. split; [reflexivity|].
    apply (records_local half_stake_update). exact Hagree.
Qed.

(** The theorem for trial 1 of three one-year trials, on two generators that
    agree on the second draw only. *)
Lemma trial_uses_its_own_draws_witness :
  (forall i, i < Z.to_nat 1 ->
     stream (rng_of_list [true; false; true]) (0 + 1 * Z.to_nat 1 + i) =
     stream (rng_of_list [false; false; false]) (0 + 1 * Z.to_nat 1 + i)) /\
  exists fb1 ap1 g1' fb2 ap2 g2',
    run_multiple_simulations 3 1000%float 1
      (rng_of_list [true; false; true]) = Some (fb1, ap1, g1') /\
    run_multiple_simulations 3 1000%float 1
      (rng_of_list [false; false; false]) = Some (fb2, ap2, g2') /\
    nth_error fb1 1 = nth_error fb2 1 /\
    nth_error ap1 1 = nth_error ap2 1.
Proof.
  assert (Hagree : forall i, i < Z.to_nat 1 ->
     stream (rng_of_list [true; false; true]) (0 + 1 * Z.to_nat 1 + i) =
     stream (rng_of_list [false; false; false]) (0 + 1 * Z.to_nat 1 + i)).
  { intros [|i] Hi; [reflexivity | simpl in Hi; lia]. }
  split; [exact Hagree|].
  exact (proj1 (@trial_uses_its_own_draws float binary64 3 1000%float 1
                  (rng_of_list [true; false; true])
                  (rng_of_list [false; false; false]) 1 Hagree)).
Defined.

(** ** The year-by-year listing *)

Lemma sequence_map_some {A B : Type} (f : A -> option B) (h : A -> B)
    (l : list A) :
  (forall x, In x l -> f x = Some (h x)) ->
  sequence (map f l) = Some (map h l).
Proof.
  induction l as [|x l IH]; intros Hf; [reflexivity|].
  cbn [map sequence]. rewrite (Hf x (or_introl eq_refl)).
  rewrite IH by (intros y Hy; apply Hf; now right). reflexivity.
Qed.

Lemma combine_map_same {A B C : Type} (F : A -> B) (G : A -> C) (l : list A) :
  combine (map F l) (map G l) = map (fun x => (F x, G x)) l.
Proof. induction l as [|x l IH]; [reflexivity|]. cbn. now rewrite IH. Qed.

Lemma py_index_nth {A : Type} (xs : list A) (i : nat) :
  i < length xs -> py_index xs (Z.of_nat i) = nth_error xs i.
Proof.
  intros Hi. unfold py_index, len.
  replace (Z.of_nat i <? 0)%Z with false by (symmetry; apply Z.ltb_ge; lia).
  replace (Z.of_nat i <? 0)%Z with false by (symmetry; apply Z.ltb_ge; lia).
  replace (Z.of_nat (length xs) <=? Z.of_nat i)%Z with false
    by (symmetry; apply Z.leb_gt; lia).
  cbn [orb]. now rewrite Nat2Z.id.
Qed.

(** The lines of the listing of a full-stake trajectory. *)
Lemma year_by_year_eq (initial : float) (ds : list bool) :
  year_by_year (ages_upto (length ds))
               (trajectory full_stake_update initial ds)
               (map Z.b2z ds) =
  Some (map (fun i =>
               ((age_start + Z.of_nat i)%Z,
                final full_stake_update initial (firstn i ds),
                match i with
                | 0 => Initial
                | S k => if nth k ds false then Heads else Tails
                end))
            (seq 0 (S (length ds)))).
Proof.
  unfold year_by_year, enumerate, ages_upto.
  rewrite trajectory_as_map, combine_map_same.
  unfold len. rewrite length_map, length_seq. unfold range.
  rewrite Nat2Z.id, combine_map_same, map_map.
  apply sequence_map_some. intros i Hi. apply in_seq in Hi.
  unfold year_line. destruct i as [|k]; [reflexivity|].
  replace (Z.of_nat (S k) =? 0)%Z with false by (symmetry; apply Z.eqb_neq; lia).
  replace (Z.of_nat (S k) - 1)%Z with (Z.of_nat k) by lia.
  rewrite py_index_nth by (rewrite length_map; lia).
  rewrite nth_error_map, (nth_error_nth' ds false) by lia.
  cbn [option_map bind]. now rewrite b2z_eqb_1.
Qed.

(** X9. The loop that prints the year-by-year results of
    [simulate_investment_game] never raises: it yields one line per balance;
    the first line is the initial balance at age 25, and the line after year
    [i] carries the age 25 + [i] + 1, the label of the flip of that year
    (heads for 1, tails otherwise) and the balance that this flip produced
    from the balance on the line before. *)
Theorem year_by_year_lines (initial : float) (years : Z) (g : rng) :
  exists ages path flips g' lines,
    simulate_investment_game initial years g = (ages, path, flips, g') /\
    year_by_year ages path flips = Some lines /\
    length lines = length path /\
    nth_error lines 0 = Some (25%Z, initial, Initial) /\
    forall i flip,
      nth_error flips i = Some flip ->
      exists before after,
        nth_error path i = Some before /\
        nth_error lines (S i) =
          Some ((25 + Z.of_nat i + 1)%Z, after,
                if (flip =? 1)%Z then Heads else Tails) /\
        after = (if (flip =? 1)%Z then before * 1.5 else before * 0.6)%float.
Proof.
  rewrite simulate_investment_game_eq.
  set (ds := draws g (Z.to_nat years)).
  assert (Hlen : Z.to_nat years = length ds)
    by (unfold ds; now rewrite draws_length).
  rewrite Hlen. do 5 eexists.
  split; [reflexivity|]. split; [apply year_by_year_eq|].
  split; [now rewrite length_map, length_seq, trajectory_length|].
  split; [reflexivity|].
  intros i flip Hflip.
  destruct (nth_error_b2z _ _ _ Hflip) as (f & Hf & ->).
  assert (Hi : i < length ds) by (apply nth_error_Some; congruence).
  destruct (trajectory_step full_stake_update ds initial i f Hf) as [H0 H1].
  do 2 eexists. split; [exact H0|]. split.
  - rewrite nth_error_map, (nth_error_nth' _ 0) by (rewrite length_seq; lia).
    rewrite seq_nth by lia. cbn [option_map Nat.add].
    rewrite (firstn_succ_nth ds i f Hf), final_snoc.
    rewrite (nth_error_nth _ _ false Hf).
    replace (age_start + Z.of_nat (S i))%Z with (25 + Z.of_nat i + 1)%Z
      by (unfold age_start; lia).
    reflexivity.
  - now destruct f.
Qed.

(** ** Comparing binary64 values that are not NaN *)

Lemma SFltb_negb_leb (a b : spec_float) :
  SFnot_nan a = true -> SFnot_nan b = true ->
  SFltb a b = negb (SFleb b a).
Proof.
  unfold SFltb, SFleb, SFcompare.
  destruct a as [[]|[]| |[] ma ea], b as [[]|[]| |[] mb eb];
    try discriminate; intros _ _; try reflexivity;
    rewrite (Z.compare_antisym ea eb);
    change (Pos.compare_cont Eq ma mb) with (Pos.compare ma mb);
    change (Pos.compare_cont Eq mb ma) with (Pos.compare mb ma);
    rewrite (Pos.compare_antisym ma mb);
    destruct (Z.compare ea eb); cbn [CompOpp]; try reflexivity;
    destruct (Pos.compare ma mb); reflexivity.
Qed.

Lemma SFleb_trans (a b c : spec_float) :
  SFleb a b = true -> SFleb b c = true -> SFleb a c = true.
Proof.
  unfold SFleb, SFcompare.
  destruct a as [[]|[]| |[] ma ea], b as [[]|[]| |[] mb eb],
           c as [[]|[]| |[] mc ec];
    try (intros; congruence);
    intros Hab Hbc; order_cases; simpl in *; try congruence; try lia.
Qed.

Lemma SFltb_leb_trans (a b c : spec_float) :
  SFltb a b = true -> SFleb b c = true -> SFltb a c = true.
Proof.
  unfold SFleb, SFltb, SFcompare.
  destruct a as [[]|[]| |[] ma ea], b as [[]|[]| |[] mb eb],
           c as [[]|[]| |[] mc ec];
    try (intros; congruence);
    intros Hab Hbc; order_cases; simpl in *; try congruence; try lia.
Qed.

Lemma SFleb_refl (a : spec_float) : SFnot_nan a = true -> SFleb a a = true.
Proof.
  unfold SFleb, SFcompare.
  destruct a as [[]|[]| |[] ma ea]; try discriminate; intros _;
    try reflexivity;
    rewrite Z.compare_refl;
    change (Pos.compare_cont Eq ma ma) with (Pos.compare ma ma);
    now rewrite Pos.compare_refl.
Qed.

Lemma SFleb_not_nan (a b : spec_float) :
  SFleb a b = true -> SFnot_nan a = true /\ SFnot_nan b = true.
Proof.
  unfold SFleb, SFcompare.
  destruct a as [[]|[]| |[] ma ea], b as [[]|[]| |[] mb eb];
    try discriminate; split; reflexivity.
Qed.

Lemma SFnonneg_not_nan (a : spec_float) :
  SFnonneg a = true -> SFnot_nan a = true.
Proof. destruct a as [[]|[]| |[] ma ea]; try discriminate; reflexivity. Qed.


(** The same facts on primitive floats; [x] is a number when it is not NaN. *)
Lemma float_not_lt_le (a b : float) :
  SFnot_nan (Prim2SF a) = true -> SFnot_nan (Prim2SF b) = true ->
  (a <? b)%float = negb (b <=? a)%float.
Proof. rewrite ltb_spec, leb_spec. apply SFltb_negb_leb. Qed.

Lemma float_le_trans (a b c : float) :
  (a <=? b)%float = true -> (b <=? c)%float = true -> (a <=? c)%float = true.
Proof. rewrite !leb_spec. apply SFleb_trans. Qed.

Lemma float_lt_le_trans (a b c : float) :
  (a <? b)%float = true -> (b <=? c)%float = true -> (a <? c)%float = true.
Proof. rewrite !ltb_spec, leb_spec. apply SFltb_leb_trans. Qed.

Lemma float_lt_le (a b : float) :
  (a <? b)%float = true -> (a <=? b)%float = true.
Proof.
  rewrite ltb_spec, leb_spec. unfold SFltb, SFleb.
  now destruct (SFcompare (Prim2SF a) (Prim2SF b)) as [[]|].
Qed.

Lemma float_le_refl (a : float) :
  SFnot_nan (Prim2SF a) = true -> (a <=? a)%float = true.
Proof. rewrite leb_spec. apply SFleb_refl. Qed.

Lemma float_le_not_nan (a b : float) :
  (a <=? b)%float = true ->
  SFnot_nan (Prim2SF a) = true /\ SFnot_nan (Prim2SF b) = true.
Proof. rewrite leb_spec. apply SFleb_not_nan. Qed.

(** ** Final balances are numbers *)

Lemma final_preserves {num : Type} (P : num -> Prop)
    (upd : num -> bool -> num) :
  (forall b f, P b -> P (upd b f)) ->
  forall flips b, P b -> P (final upd b flips).
Proof.
  intros Hupd. induction flips as [|f fs IH]; intros b Hb; [exact Hb|].
  rewrite final_cons. apply IH, Hupd, Hb.
Qed.

Lemma full_stake_update_nonneg (b : float) (heads : bool) :
  SFnonneg (Prim2SF b) = true ->
  SFnonneg (Prim2SF (full_stake_update b heads)) = true.
Proof.
  intros Hb. unfold full_stake_update.
  destruct heads; cbn [mul lit_1_5 lit_0_6 binary64];
    rewrite mul_spec; apply SFmul_nonneg; (exact Hb || reflexivity).
Qed.

(** From a positive initial balance, every final balance of a batch of either
    runner has its sign bit clear and is not NaN. *)
Lemma batch_finals_nonneg (initial : float) (years : Z) (g : rng) (n : nat) :
  (0 <? initial)%float = true ->
  Forall (fun x => SFnonneg (Prim2SF x) = true)
         (batch_finals full_stake_update initial years g n) /\
  Forall (fun x => SFnonneg (Prim2SF x) = true)
         (batch_finals half_stake_update initial years g n).
Proof.
  intros Hpos. apply ltb_0_nonneg in Hpos. unfold batch_finals.
  split; apply Forall_map, Forall_forall; intros j _.
  - apply (final_preserves (fun b => SFnonneg (Prim2SF b) = true));
      [apply full_stake_update_nonneg | exact Hpos].
  - apply (final_preserves (fun b => SFnonneg (Prim2SF b) = true));
      [apply half_stake_update_nonneg | exact Hpos].
Qed.

(** ** The capped balances of the histogram *)

Lemma py_min2_capped (b : float) :
  SFnonneg (Prim2SF b) = true ->
  (0 <=? py_min2 b 10000)%float = true /\
  (py_min2 b 10000 <=? 10000)%float = true.
Proof.
  intros Hb. unfold py_min2.
  destruct (10000 <? b)%float eqn:Hlt; [split; reflexivity|].
  split; [now apply nonneg_leb_0|].
  rewrite (float_not_lt_le 10000 b) in Hlt
    by (try reflexivity; now apply SFnonneg_not_nan).
  now apply negb_false_iff in Hlt.
Qed.

(** X10. From a positive initial balance, the capped balances that either
    script hands to the histogram are as many as the final balances and all
    lie between 0 and 10000, also when a final balance has overflowed to
    infinity. *)
Theorem grouped_balances_in_range
    (n_sims : Z) (initial : float) (years : Z) (g : rng) :
  (0 <? initial)%float = true ->
  (exists final_balances all_paths g',
      run_multiple_simulations n_sims initial years g =
        Some (final_balances, all_paths, g') /\
      length (grouped_balances final_balances) = length final_balances /\
      Forall (fun x => (0 <=? x)%float = true /\ (x <=? 10000)%float = true)
             (grouped_balances final_balances)) /\
  (exists final_balances all_paths g',
      run_modified_simulations n_sims initial years g =
        Some (final_balances, all_paths, g') /\
      length (grouped_balances final_balances) = length final_balances /\
      Forall (fun x => (0 <=? x)%float = true /\ (x <=? 10000)%float = true)
             (grouped_balances final_balances)).
Proof.
  intros Hpos.
  destruct (batch_finals_nonneg initial years g (Z.to_nat n_sims) Hpos)
    as [Hfull Hhalf].
  assert (Hcap : forall fb,
             Forall (fun x => SFnonneg (Prim2SF x) = true) fb ->
             length (grouped_balances fb) = length fb /\
             Forall (fun x => (0 <=? x)%float = true /\
                              (x <=? 10000)%float = true)
                    (grouped_balances fb)).
  { intros fb Hfb. unfold grouped_balances. split; [apply length_map|].
    apply Forall_map. eapply Forall_impl; [|exact Hfb].
    intros b Hb. now apply py_min2_capped. }
  split.
  - rewrite run_multiple_simulations_eq. do 3 eexists.
    split; [reflexivity | exact (Hcap _ Hfull)].
  - rewrite run_modified_simulations_eq. do 3 eexists.
    split; [reflexivity | exact (Hcap _ Hhalf)].
Qed.

(** The theorem for three one-year trials from 1000. *)
Lemma grouped_balances_in_range_witness :
  (0 <? 1000)%float = true /\
  exists final_balances all_paths g',
    run_multiple_simulations 3 1000%float 1
      (rng_of_list [true; false; true]) =
      Some (final_balances, all_paths, g') /\
    length (grouped_balances final_balances) = length final_balances /\
    Forall (fun x => (0 <=? x)%float = true /\ (x <=? 10000)%float = true)
           (grouped_balances final_balances).
Proof.
  split; [reflexivity|].
  exact (proj1 (grouped_balances_in_range 3 1000%float 1
                  (rng_of_list [true; false; true]) eq_refl)).
Defined.

(** ** Minimum and maximum of a batch *)

Lemma py_min_fold (rest : list float) :
  forall (seen : list float) (cur : float),
    Forall (fun x => SFnot_nan (Prim2SF x) = true) (seen ++ rest) ->
    In cur seen -> Forall (fun x => (cur <=? x)%float = true) seen ->
    let m := fold_left (fun cur item => if (item <? cur)%float then item else cur)
                       rest cur in
    In m (seen ++ rest) /\
    Forall (fun x => (m <=? x)%float = true) (seen ++ rest).
Proof.
  induction rest as [|y rest IH]; intros seen cur Hnan Hin Hle.
  - cbn. rewrite app_nil_r. split; assumption.
  - cbn [fold_left]. cbv zeta.
    replace (seen ++ y :: rest) with ((seen ++ [y]) ++ rest) in *
      by (now rewrite <- app_assoc).
    assert (Hy : SFnot_nan (Prim2SF y) = true).
    { rewrite Forall_forall in Hnan. apply Hnan.
      apply in_or_app. left. apply in_or_app. right. now left. }
    assert (Hcur : SFnot_nan (Prim2SF cur) = true).
    { rewrite Forall_forall in Hnan. apply Hnan.
      apply in_or_app. left. apply in_or_app. now left. }
    destruct (y <? cur)%float eqn:Hlt; apply IH; try exact Hnan.
    + apply in_or_app. right. now left.
    + apply Forall_app. split.
      * eapply Forall_impl; [|exact Hle]. intros x Hx.
        apply (float_le_trans y cur x); [|exact Hx].
        now apply float_lt_le.
      * constructor; [now apply float_le_refl | constructor].
    + apply in_or_app. now left.
    + apply Forall_app. split; [exact Hle|].
      constructor; [|constructor].
      rewrite (float_not_lt_le y cur Hy Hcur) in Hlt.
      now apply negb_false_iff in Hlt.
Qed.

Lemma py_max_fold (rest : list float) :
  forall (seen : list float) (cur : float),
    Forall (fun x => SFnot_nan (Prim2SF x) = true) (seen ++ rest) ->
    In cur seen -> Forall (fun x => (x <=? cur)%float = true) seen ->
    let m := fold_left (fun cur item => if (cur <? item)%float then item else cur)
                       rest cur in
    In m (seen ++ rest) /\
    Forall (fun x => (x <=? m)%float = true) (seen ++ rest).
Proof.
  induction rest as [|y rest IH]; intros seen cur Hnan Hin Hle.
  - cbn. rewrite app_nil_r. split; assumption.
  - cbn [fold_left]. cbv zeta.
    replace (seen ++ y :: rest) with ((seen ++ [y]) ++ rest) in *
      by (now rewrite <- app_assoc).
    assert (Hy : SFnot_nan (Prim2SF y) = true).
    { rewrite Forall_forall in Hnan. apply Hnan.
      apply in_or_app. left. apply in_or_app. right. now left. }
    assert (Hcur : SFnot_nan (Prim2SF cur) = true).
    { rewrite Forall_forall in Hnan. apply Hnan.
      apply in_or_app. left. apply in_or_app. now left. }
    destruct (cur <? y)%float eqn:Hlt; apply IH; try exact Hnan.
    + apply in_or_app. right. now left.
    + apply Forall_app. split.
      * eapply Forall_impl; [|exact Hle]. intros x Hx.
        apply (float_le_trans x cur y); [exact Hx|].
        now apply float_lt_le.
      * constructor; [now apply float_le_refl | constructor].
    + apply in_or_app. now left.
    + apply Forall_app. split; [exact Hle|].
      constructor; [|constructor].
      rewrite (float_not_lt_le cur y Hcur Hy) in Hlt.
      now apply negb_false_iff in Hlt.
Qed.

Lemma py_min_max_spec (xs : list float) :
  Forall (fun x => SFnonneg (Prim2SF x) = true) xs ->
  (xs = [] -> py_min xs = None /\ py_max xs = None) /\
  (xs <> [] ->
   exists lo hi,
     py_min xs = Some lo /\ py_max xs = Some hi /\
     In lo xs /\ In hi xs /\
     Forall (fun x => (lo <=? x)%float = true /\ (x <=? hi)%float = true) xs).
Proof.
  intros Hnn.
  assert (Hnan : Forall (fun x => SFnot_nan (Prim2SF x) = true) xs).
  { eapply Forall_impl; [|exact Hnn]. intros x. apply SFnonneg_not_nan. }
  split; [intros ->; split; reflexivity|].
  destruct xs as [|x rest]; [congruence|]. intros _.
  assert (Hx : SFnot_nan (Prim2SF x) = true) by (now inversion Hnan).
  destruct (py_min_fold rest [x] x Hnan (or_introl eq_refl)) as [Hin1 Hlo].
  { constructor; [now apply float_le_refl | constructor]. }
  destruct (py_max_fold rest [x] x Hnan (or_introl eq_refl)) as [Hin2 Hhi].
  { constructor; [now apply float_le_refl | constructor]. }
  cbn [app] in *. do 2 eexists.
  split; [reflexivity|]. split; [reflexivity|].
  split; [exact Hin1|]. split; [exact Hin2|].
  rewrite Forall_forall in *. intros y Hy. split; [now apply Hlo | now apply Hhi].
Qed.

(** X11. From a positive initial balance, [min(final_balances)] and
    [max(final_balances)] raise on the batch of a run with no trial; on the
    batch of a run with at least one trial they return final balances of the
    batch that bound every final balance from below and from above.  This
    holds for both runners. *)
Theorem batch_extremes
    (n_sims : Z) (initial : float) (years : Z) (g : rng) :
  (0 <? initial)%float = true ->
  (exists final_balances all_paths g',
      run_multiple_simulations n_sims initial years g =
        Some (final_balances, all_paths, g') /\
      ((n_sims <= 0)%Z ->
       py_min final_balances = None /\ py_max final_balances = None) /\
      ((0 < n_sims)%Z ->
       exists lo hi,
         py_min final_balances = Some lo /\ py_max final_balances = Some hi /\
         In lo final_balances /\ In hi final_balances /\
         Forall (fun x => (lo <=? x)%float = true /\ (x <=? hi)%float = true)
                final_balances)) /\
  (exists final_balances all_paths g',
      run_modified_simulations n_sims initial years g =
        Some (final_balances, all_paths, g') /\
      ((n_sims <= 0)%Z ->
       py_min final_balances = None /\ py_max final_balances = None) /\
      ((0 < n_sims)%Z ->
       exists lo hi,
         py_min final_balances = Some lo /\ py_max final_balances = Some hi /\
         In lo final_balances /\ In hi final_balances /\
         Forall (fun x => (lo <=? x)%float = true /\ (x <=? hi)%float = true)
                final_balances)).
Proof.
  intros Hpos.
  destruct (batch_finals_nonneg initial years g (Z.to_nat n_sims) Hpos)
    as [Hfull Hhalf].
  assert (Hlen : forall upd : float -> bool -> float,
             length (batch_finals upd initial years g (Z.to_nat n_sims)) =
             Z.to_nat n_sims).
  { intros upd. unfold batch_finals. now rewrite length_map, length_seq. }
  assert (Hext : forall upd : float -> bool -> float,
    Forall (fun x => SFnonneg (Prim2SF x) = true)
           (batch_finals upd initial years g (Z.to_nat n_sims)) ->
    ((n_sims <= 0)%Z ->
     py_min (batch_finals upd initial years g (Z.to_nat n_sims)) = None /\
     py_max (batch_finals upd initial years g (Z.to_nat n_sims)) = None) /\
    ((0 < n_sims)%Z ->
     exists lo hi,
       py_min (batch_finals upd initial years g (Z.to_nat n_sims)) = Some lo /\
       py_max (batch_finals upd initial years g (Z.to_nat n_sims)) = Some hi /\
       In lo (batch_finals upd initial years g (Z.to_nat n_sims)) /\
       In hi (batch_finals upd initial years g (Z.to_nat n_sims)) /\
       Forall (fun x => (lo <=? x)%float = true /\ (x <=? hi)%float = true)
              (batch_finals upd initial years g (Z.to_nat n_sims)))).
  { intros upd Hnn. specialize (Hlen upd).
    destruct (py_min_max_spec _ Hnn) as [Hempty Hsome].
    split; intros Hn.
    - apply Hempty. apply length_zero_iff_nil. lia.
    - apply Hsome. intros Hnil. rewrite Hnil in Hlen. cbn in Hlen. lia. }
  split.
  - rewrite run_multiple_simulations_eq. do 3 eexists.
    split; [reflexivity | exact (Hext _ Hfull)].
  - rewrite run_modified_simulations_eq. do 3 eexists.
    split; [reflexivity | exact (Hext _ Hhalf)].
Qed.

(** The theorem for three one-year trials from 1000. *)
Lemma batch_extremes_witness :
  (0 <? 1000)%float = true /\
  exists final_balances all_paths g',
    run_multiple_simulations 3 1000%float 1
      (rng_of_list [true; false; true]) =
      Some (final_balances, all_paths, g') /\
    ((3 <= 0)%Z ->
     py_min final_balances = None /\ py_max final_balances = None) /\
    ((0 < 3)%Z ->
     exists lo hi,
       py_min final_balances = Some lo /\ py_max final_balances = Some hi /\
       In lo final_balances /\ In hi final_balances /\
       Forall (fun x => (lo <=? x)%float = true /\ (x <=? hi)%float = true)
              final_balances).
Proof.
  split; [reflexivity|].
  exact (proj1 (batch_extremes 3 1000%float 1
                  (rng_of_list [true; false; true]) eq_refl)).
Defined.

(** ** The moderate category *)

Lemma count_ext {A : Type} (p q : A -> bool) (xs : list A) :
  Forall (fun x => p x = q x) xs -> count p xs = count q xs.
Proof.
  unfold count. intros Hpq. f_equal.
  induction Hpq as [|x xs Hx _ IH]; [reflexivity|].
  cbn [filter]. rewrite Hx. destruct (q x); cbn [length]; now rewrite IH.
Qed.

Lemma moderate_interval (initial_balance : float) (xs : list float) :
  (100 <=? initial_balance)%float = true ->
  Forall (fun x => SFnonneg (Prim2SF x) = true) xs ->
  moderate_sims (count_categories (len xs) initial_balance xs) =
  count (fun x => (100 <=? x)%float && (x <=? initial_balance)%float) xs.
Proof.
  intros Hlow Hnn. unfold count_categories. cbn [moderate_sims].
  change (np_gt xs initial_balance) with (map (is_profitable initial_balance) xs).
  change (np_lt xs 100%float) with (map is_catastrophic xs).
  rewrite !np_sum_mask_map.
  rewrite <- (count_remainder (is_profitable initial_balance) is_catastrophic).
  - apply count_ext. eapply Forall_impl; [|exact Hnn].
    intros x Hx. apply SFnonneg_not_nan in Hx.
    destruct (float_le_not_nan _ _ Hlow) as [_ Hinit].
    unfold is_profitable, is_catastrophic.
    rewrite (float_not_lt_le initial_balance x Hinit Hx).
    rewrite (float_not_lt_le x 100 Hx eq_refl).
    rewrite !negb_involutive. apply andb_comm.
  - intros x Hp. destruct (is_catastrophic x) eqn:Hc; [|reflexivity].
    rewrite (profitable_not_catastrophic _ _ Hlow Hc) in Hp. discriminate.
Qed.

(** X12. On the batch of either runner, started from an initial balance of
    at least 100, the moderate count (trials minus profitable minus
    catastrophic) is the number of final balances between 100 and the initial
    balance, both bounds included. *)
Theorem moderate_counts_the_interval
    (n_simulations : Z) (initial_balance : float) (years : Z) (g : rng) :
  (0 <= n_simulations)%Z ->
  (100 <=? initial_balance)%float = true ->
  (exists final_balances all_paths g',
      run_multiple_simulations n_simulations initial_balance years g =
        Some (final_balances, all_paths, g') /\
      moderate_sims
        (count_categories n_simulations initial_balance final_balances)
      = count (fun x => (100 <=? x)%float && (x <=? initial_balance)%float)
              final_balances) /\
  (exists final_balances all_paths g',
      run_modified_simulations n_simulations initial_balance years g =
        Some (final_balances, all_paths, g') /\
      moderate_sims
        (count_categories n_simulations initial_balance final_balances)
      = count (fun x => (100 <=? x)%float && (x <=? initial_balance)%float)
              final_balances).
Proof.
  intros Hn Hlow.
  assert (Hpos : (0 <? initial_balance)%float = true)
    by (apply (float_lt_le_trans 0 100 initial_balance); [reflexivity | exact Hlow]).
  destruct (batch_finals_nonneg initial_balance years g
              (Z.to_nat n_simulations) Hpos) as [Hfull Hhalf].
  assert (Hlen : forall upd : float -> bool -> float,
             len (batch_finals upd initial_balance years g
                               (Z.to_nat n_simulations)) = n_simulations).
  { intros upd. unfold len, batch_finals. rewrite length_map, length_seq. lia. }
  split.
  - rewrite run_multiple_simulations_eq. do 3 eexists.
    split; [reflexivity|].
    rewrite <- (Hlen full_stake_update) at 1.
    exact (moderate_interval _ _ Hlow Hfull).
  - rewrite run_modified_simulations_eq. do 3 eexists.
    split; [reflexivity|].
    rewrite <- (Hlen half_stake_update) at 1.
    exact (moderate_interval _ _ Hlow Hhalf).
Qed.

(** The theorem for three one-year trials from 1000. *)
Lemma moderate_counts_the_interval_witness :
  (0 <= 3)%Z /\ (100 <=? 1000)%float = true /\
  exists final_balances all_paths g',
    run_multiple_simulations 3 1000%float 1
      (rng_of_list [true; false; true]) =
      Some (final_balances, all_paths, g') /\
    moderate_sims (count_categories 3 1000 final_balances)
    = count (fun x => (100 <=? x)%float && (x <=? 1000)%float)
            final_balances.
Proof.
  split; [lia|]. split; [reflexivity|].
  exact (proj1 (moderate_counts_the_interval 3 1000%float 1
                  (rng_of_list [true; false; true]) ltac:(lia) eq_refl)).
Defined.

(** ** The report of a single simulation *)

(** X13. The figures that [single_simulation.py] prints after a simulation
    cannot be computed when the horizon is not positive or the initial
    balance is zero: a division by zero is raised.  For a positive horizon
    and a non-zero initial balance all of them are computed; the final
    balance reported is the last balance of the trajectory, heads and tails
    add up to the horizon, and the listing has one line per balance. *)
Theorem single_report_defined (initial : float) (years : Z) (g : rng) :
  (years < 2 ^ 63)%Z ->
  exists ages path flips g',
    simulate_investment_game initial years g = (ages, path, flips, g') /\
    ((years <= 0)%Z \/ (initial =? 0)%float = true ->
     single_simulation_report initial years ages path flips = None) /\
    ((0 < years)%Z -> (initial =? 0)%float = false ->
     exists r,
       single_simulation_report initial years ages path flips = Some r /\
       py_last path = Some (report_final_balance r) /\
       (number_of_heads r + number_of_tails r)%Z = years /\
       length (yearly_lines r) = length path).
Proof.
  intros Hbound. rewrite simulate_investment_game_eq.
  set (ds := draws g (Z.to_nat years)).
  assert (Hlen : Z.to_nat years = length ds)
    by (unfold ds; now rewrite draws_length).
  do 4 eexists. split; [reflexivity|].
  unfold single_simulation_report. rewrite trajectory_last. cbn [bind].
  split.
  - unfold py_truediv at 1. intros [Hy | Hzero].
    + destruct (initial =? 0)%float; [reflexivity|]. cbn [bind].
      unfold py_truediv_int, len. rewrite length_map, <- Hlen.
      replace (Z.of_nat (Z.to_nat years)) with 0%Z by lia. reflexivity.
    + now rewrite Hzero.
  - intros Hy Hnz. unfold py_truediv at 1. rewrite Hnz. cbn [bind].
    unfold py_truediv_int, len. rewrite length_map, <- Hlen.
    replace (Z.of_nat (Z.to_nat years) =? 0)%Z with false
      by (symmetry; apply Z.eqb_neq; lia).
    cbn [bind]. rewrite Hlen, year_by_year_eq. cbn [bind].
    unfold py_truediv. rewrite float_of_Z_nonzero by lia. cbn [bind].
    eexists. split; [reflexivity|].
    cbn [report_final_balance number_of_heads number_of_tails yearly_lines].
    split; [reflexivity|]. split; [lia|].
    now rewrite length_map, length_seq, trajectory_length.
Qed.

(** The theorem for a horizon of two years from 1000. *)
Lemma single_report_defined_witness :
  (2 < 2 ^ 63)%Z /\
  exists ages path flips g',
    simulate_investment_game 1000%float 2 (rng_of_list [true; false]) =
      (ages, path, flips, g') /\
    ((2 <= 0)%Z \/ (1000 =? 0)%float = true ->
     single_simulation_report 1000 2 ages path flips = None) /\
    ((0 < 2)%Z -> (1000 =? 0)%float = false ->
     exists r,
       single_simulation_report 1000 2 ages path flips = Some r /\
       py_last path = Some (report_final_balance r) /\
       (number_of_heads r + number_of_tails r)%Z = 2%Z /\
       length (yearly_lines r) = length path).
Proof.
  split; [lia|].
  exact (single_report_defined 1000%float 2 (rng_of_list [true; false])
           ltac:(lia)).
Defined.

(** ** Threshold probabilities of a batch with trials *)

(** X14. For a batch with at least one trial (and fewer than 2^63), both
    threshold probabilities are numbers that are at least 0: NaN appears
    only for the empty batch. *)
Theorem probabilities_are_numbers
    (initial_balance : float) (final_balances : list float) :
  final_balances <> [] ->
  (len final_balances < 2 ^ 63)%Z ->
  (0 <=? prob_above_initial
           (calculate_statistics initial_balance final_balances))%float = true /\
  (0 <=? prob_above_10000
           (calculate_statistics initial_balance final_balances))%float = true /\
  PrimFloat.is_nan
    (prob_above_initial (calculate_statistics initial_balance final_balances))
    = false /\
  PrimFloat.is_nan
    (prob_above_10000 (calculate_statistics initial_balance final_balances))
    = false.
Proof.
  intros Hne Hlen. unfold calculate_statistics.
  cbn [prob_above_initial prob_above_10000].
  assert (Hmask : forall t,
             SFnonneg (Prim2SF (np_mean_mask (np_gt final_balances t))) = true).
  { intros t. apply np_mean_mask_nonneg. unfold np_gt, len in *.
    rewrite length_map. destruct final_balances; [congruence|].
    cbn [length] in *. lia. }
  repeat split; try (apply nonneg_leb_0, Hmask); apply is_nan_nonneg, Hmask.
Qed.

(** The theorem for the final balances 1500, 600 and 15000. *)
Lemma probabilities_are_numbers_witness :
  [1500; 600; 15000]%float <> [] /\
  (len [1500; 600; 15000]%float < 2 ^ 63)%Z /\
  (0 <=? prob_above_initial
           (calculate_statistics 1000 [1500; 600; 15000]%float))%float = true.
Proof.
  split; [discriminate|]. split; [reflexivity|].
  exact (proj1 (probabilities_are_numbers 1000 [1500; 600; 15000]%float
                  ltac:(discriminate) eq_refl)).
Defined.

(** ** The two engines on one generator *)

(** X15. Started on the same generator with the same horizon, the full-stake
    and the half-stake engine record the same ages and the same coin flips
    and hand back the same generator: the size of the stake has no influence
    on the draws. *)
Theorem engines_draw_alike {num : Type} `{PyNum num}
    (initial : num) (years : Z) (g : rng) :
  exists ages flips g' path_full path_half bets,
    simulate_investment_game initial years g =
      (ages, path_full, flips, g') /\
    simulate_modified_investment_game initial years g =
      (ages, path_half, flips, bets, g').
Proof.
  rewrite simulate_investment_game_eq, simulate_modified_investment_game_bets.
  do 6 eexists. split; reflexivity.
Qed.
